(** * game-generator: spec-job / code-job lifecycle coordinator

    A shallow embedding of the Go backend (package [handlers] and the
    [utils.GitRepo] driver) together with the SQL schema of the migrations.

    - The handlers are taken at the revision that tracks the state of a
      spec (updateGameSpecState); the worker of code jobs is also given as
      it was before, when it still reported a failed push as a warning, and
      so is the handler of spec jobs.
    - Tables are lists of rows in insertion order.  Every SQL statement of
      the handlers is one function on the database; the PRIMARY KEY, UNIQUE
      and REFERENCES constraints of the migrations are enforced by the
      inserting and updating functions.  Identifier columns hold the Go
      strings handed to the driver: the syntax of a UUID is not checked, a
      string that names no row fails a REFERENCES check all the same.
    - Everything outside the process (HTTP gateways, the git binary, the
      file system, the clock, uuid generation, environment variables) is a
      [World] of oracles; functions of Go's standard library whose exact
      output is not reproduced here (encoding/json, crypto/sha256, fmt verbs)
      are collected in [GoStd].
    - Handlers run in a state monad with early return; a goroutine started
      with [go] is returned as a [Task] and run by a separate function.
    - The handlers that read, retry and delete (GetJob, ListSpecs, GetSpec,
      GetSpecStateLogs, DeleteSpec, CreateDevinTask, RetryCodeJob) follow the
      workers; what they need of the outside besides [World] is a
      [SpecWorld].  The deleting statements carry the ON DELETE actions of
      the schema.  Functions that exist only in an earlier revision of the
      git driver are in the module [earlier]. *)

From Stdlib Require Import ZArith List String Ascii Bool Lia.
From Stdlib Require Import Floats DecimalString Sorted Permutation.
Import ListNotations.
Set Warnings "-inexact-float,-register-all".
Open Scope string_scope.
Open Scope Z_scope.

(* ================================================================= *)
(** ** Go values *)

(** A Go [error]: [None] is [nil]. *)
Definition error := option string.

Inductive result (A : Type) : Type :=
| Ok (a : A)
| Err (msg : string).
Arguments Ok {A} a.
Arguments Err {A} msg.

(** [interface{}] values as produced by encoding/json. *)
Inductive JSON : Type :=
| JNull
| JBool (b : bool)
| JNumber (f : float)
| JString (s : string)
| JArray (l : list JSON)
| JObject (m : list (string * JSON)).

(** [map[string]interface{}]: [None] is the nil map. *)
Definition GoMap := option (list (string * JSON)).

Fixpoint assoc (m : list (string * JSON)) (k : string) : option JSON :=
  match m with
  | [] => None
  | (k', v) :: m' => if String.eqb k' k then Some v else assoc m' k
  end.

(** [m[k]]: the nil interface when the key is absent. *)
Definition map_index (m : GoMap) (k : string) : option JSON :=
  match m with
  | None => None
  | Some l => assoc l k
  end.

(** [len(m)] *)
Definition map_len (m : GoMap) : nat :=
  match m with
  | None => 0%nat
  | Some l => List.length l
  end.

(** The JSON document a map is stored as in a JSONB column. *)
Definition to_json (m : GoMap) : JSON :=
  match m with
  | None => JNull
  | Some l => JObject l
  end.

(** json.Unmarshal of a stored document into a [map[string]interface{}]. *)
Definition as_map (v : JSON) : result GoMap :=
  match v with
  | JNull => Ok None
  | JObject l => Ok (Some l)
  | _ => Err "json: cannot unmarshal value into Go value of type map[string]interface {}"
  end.

Definition is_empty (s : string) : bool := String.eqb s "".

(** strings.TrimPrefix *)
Definition TrimPrefix (s p : string) : string :=
  if String.prefix p s
  then String.substring (String.length p) (String.length s - String.length p) s
  else s.

(** strings.TrimSuffix *)
Definition TrimSuffix (s p : string) : string :=
  let n := String.length s in
  let k := String.length p in
  if (Nat.leb k n && String.eqb (String.substring (n - k) k s) p)%bool
  then String.substring 0 (n - k) s
  else s.

(** The [%d] verb. *)
Definition itoa (z : Z) : string := NilZero.string_of_int (Z.to_int z).

Definition hexdigit (n : nat) : ascii :=
  match String.get n "0123456789abcdef" with
  | Some c => c
  | None => "0"%char
  end.

(** hex.EncodeToString *)
Fixpoint hex_EncodeToString (b : string) : string :=
  match b with
  | EmptyString => EmptyString
  | String c rest =>
      let n := nat_of_ascii c in
      String (hexdigit (n / 16)) (String (hexdigit (n mod 16)) (hex_EncodeToString rest))
  end.

(** Standard-library functions taken as given. *)
Record GoStd : Type := {
  json_Marshal : JSON -> result string;          (* encoding/json.Marshal *)
  json_Unmarshal : string -> result JSON;        (* encoding/json.Unmarshal into interface{} *)
  sha256_Sum256 : string -> string;              (* crypto/sha256.Sum256 *)
  fmt_v : option JSON -> string;                 (* the %v verb on an interface value *)
  Sscanf_d : string -> option Z;                 (* fmt.Sscanf(v, "%d", &x): the scanned value *)
  Sscanf_f : string -> option float;             (* fmt.Sscanf(v, "%f", &x): the scanned value *)
  fmt_Sprintf_ss : string -> string -> string -> string;
                                                 (* fmt.Sprintf(format, a, b) for a format from the environment *)
  filepath_Join : string -> string -> string;    (* path/filepath.Join *)
  url_WithUserPassword : string -> string -> string -> result string
                                                 (* url.Parse, set User, String() *)
}.

(* ================================================================= *)
(** ** The monad of handlers and workers: state with early return *)

Definition M (S R A : Type) : Type := S -> S * (A + R).

Definition ret {S R A} (a : A) : M S R A := fun s => (s, inl a).

Definition bind {S R A B} (m : M S R A) (k : A -> M S R B) : M S R B :=
  fun s =>
    match m s with
    | (s', inl a) => k a s'
    | (s', inr r) => (s', inr r)
    end.

(** The [return r] statement of the enclosing Go function. *)
Definition exit {S R A} (r : R) : M S R A := fun s => (s, inr r).

(** [if c { body }] where the body may return. *)
Definition when {S R} (c : bool) (body : M S R unit) : M S R unit :=
  if c then body else ret tt.

Notation "x <- m ;; k" := (bind m (fun x => k))
  (at level 61, m at next level, right associativity).
Notation "m ;; k" := (bind m (fun _ => k))
  (at level 61, right associativity).

(** Run a function body whose fall-through value and early returns have the
    same type. *)
Definition run {S R} (m : M S R R) (s : S) : S * R :=
  match m s with
  | (s', inl r) => (s', r)
  | (s', inr r) => (s', r)
  end.

(* ================================================================= *)
(** ** The database (migrations 0001, 0002, 0004) *)

(** game_specs *)
Record GameSpec : Type := mkGameSpec {
  gs_id : string;                        (* UUID PRIMARY KEY *)
  gs_title : string;
  gs_brief : string;
  gs_spec_markdown : string;
  gs_spec_json : JSON;                   (* JSONB NOT NULL *)
  gs_spec_hash : string;                 (* TEXT NOT NULL UNIQUE *)
  gs_genre : option JSON;
  gs_duration_sec : option JSON;
  gs_state : string;                     (* TEXT NOT NULL DEFAULT 'creating' *)
  gs_devin_session_id : option string;
  gs_created_at : Z
}.

(** gen_spec_jobs *)
Record SpecJob : Type := mkSpecJob {
  sj_id : string;                        (* UUID PRIMARY KEY *)
  sj_status : string;                    (* CHECK (status IN (...)) *)
  sj_brief : string;
  sj_result_spec_id : option string;     (* REFERENCES game_specs(id) ON DELETE SET NULL *)
  sj_duplicate_of : option (list string);
  sj_score_similarity : option float;
  sj_error : option string;
  sj_created_at : Z;
  sj_started_at : option Z;
  sj_finished_at : option Z
}.

(** code_jobs *)
Record CodeJob : Type := mkCodeJob {
  cj_id : string;                        (* UUID PRIMARY KEY *)
  cj_game_spec_id : string;              (* UUID REFERENCES game_specs(id) *)
  cj_game_spec : JSON;
  cj_output_path : option string;
  cj_status : string;                    (* TEXT NOT NULL DEFAULT 'queued' *)
  cj_progress : Z;                       (* INTEGER DEFAULT 0 *)
  cj_artifact_url : option string;
  cj_error : option string;
  cj_logs : list string;                 (* JSONB DEFAULT '[]' *)
  cj_created_at : Z;
  cj_updated_at : Z
}.

(** game_spec_states; the id column is generated by the database. *)
Record StateLog : Type := mkStateLog {
  sl_game_spec_id : string;              (* REFERENCES game_specs(id) ON DELETE CASCADE *)
  sl_state_before : option string;
  sl_state_after : string;
  sl_detail : option string;
  sl_created_at : Z
}.

Record DB : Type := mkDB {
  game_specs : list GameSpec;
  gen_spec_jobs : list SpecJob;
  code_jobs : list CodeJob;
  game_spec_states : list StateLog
}.

Definition empty_db : DB := mkDB [] [] [] [].

Definition with_game_specs (d : DB) (l : list GameSpec) : DB :=
  mkDB l (gen_spec_jobs d) (code_jobs d) (game_spec_states d).
Definition with_gen_spec_jobs (d : DB) (l : list SpecJob) : DB :=
  mkDB (game_specs d) l (code_jobs d) (game_spec_states d).
Definition with_code_jobs (d : DB) (l : list CodeJob) : DB :=
  mkDB (game_specs d) (gen_spec_jobs d) l (game_spec_states d).
Definition with_game_spec_states (d : DB) (l : list StateLog) : DB :=
  mkDB (game_specs d) (gen_spec_jobs d) (code_jobs d) l.

(** Errors of a statement, with their SQLSTATE. *)
Inductive DbError : Type :=
| NoRows
| UniqueViolation (constraint : string)
| ForeignKeyViolation (constraint : string).

(** [err.Error()] *)
Definition db_error_string (e : DbError) : string :=
  match e with
  | NoRows => "no rows in result set"
  | UniqueViolation c =>
      "ERROR: duplicate key value violates unique constraint " ++ c ++ " (SQLSTATE 23505)"
  | ForeignKeyViolation c =>
      "ERROR: insert or update violates foreign key constraint " ++ c ++ " (SQLSTATE 23503)"
  end.

Definition find_spec (d : DB) (id : string) : option GameSpec :=
  find (fun r => String.eqb (gs_id r) id) (game_specs d).

Definition find_spec_job (d : DB) (id : string) : option SpecJob :=
  find (fun r => String.eqb (sj_id r) id) (gen_spec_jobs d).

Definition find_code_job (d : DB) (id : string) : option CodeJob :=
  find (fun r => String.eqb (cj_id r) id) (code_jobs d).

Definition spec_exists (d : DB) (id : string) : bool :=
  existsb (fun r => String.eqb (gs_id r) id) (game_specs d).

Definition hash_exists (d : DB) (h : string) : bool :=
  existsb (fun r => String.eqb (gs_spec_hash r) h) (game_specs d).

(** UPDATE ... WHERE id = $k: rewrite every row carrying the key. *)
Definition update_where {A} (key : A -> string) (k : string) (f : A -> A)
  (l : list A) : list A :=
  map (fun r => if String.eqb (key r) k then f r else r) l.

(* ----------------------------------------------------------------- *)
(** *** Statements on game_specs and game_spec_states *)

(** SELECT state FROM game_specs WHERE id = $1 *)
Definition select_state (d : DB) (id : string) : DbError + string :=
  match find_spec d id with
  | Some r => inr (gs_state r)
  | None => inl NoRows
  end.

Definition set_state (s : string) (r : GameSpec) : GameSpec :=
  mkGameSpec (gs_id r) (gs_title r) (gs_brief r) (gs_spec_markdown r) (gs_spec_json r)
    (gs_spec_hash r) (gs_genre r) (gs_duration_sec r) s (gs_devin_session_id r)
    (gs_created_at r).

Definition set_devin_session_id (sid : string) (r : GameSpec) : GameSpec :=
  mkGameSpec (gs_id r) (gs_title r) (gs_brief r) (gs_spec_markdown r) (gs_spec_json r)
    (gs_spec_hash r) (gs_genre r) (gs_duration_sec r) (gs_state r) (Some sid)
    (gs_created_at r).

(** UPDATE game_specs SET state = $1 WHERE id = $2 *)
Definition update_state (d : DB) (newState id : string) : DB :=
  with_game_specs d (update_where gs_id id (set_state newState) (game_specs d)).

(** UPDATE game_specs SET devin_session_id = $1 WHERE id = $2 *)
Definition update_devin_session_id (d : DB) (sid id : string) : DB :=
  with_game_specs d (update_where gs_id id (set_devin_session_id sid) (game_specs d)).

(** INSERT INTO game_spec_states (game_spec_id, state_before, state_after, detail) *)
Definition insert_state_log (d : DB) (now : Z) (specID currentState newState detail : string)
  : DbError + DB :=
  if spec_exists d specID
  then inr (with_game_spec_states d
              (game_spec_states d ++
               [mkStateLog specID (Some currentState) newState (Some detail) now]))
  else inl (ForeignKeyViolation "game_spec_states_game_spec_id_fkey").

(** INSERT INTO game_specs (id,title,brief,spec_markdown,spec_json,spec_hash,
    genre,duration_sec,state) *)
Definition insert_game_spec (d : DB) (r : GameSpec) : DbError + DB :=
  if spec_exists d (gs_id r) then inl (UniqueViolation "game_specs_pkey")
  else if hash_exists d (gs_spec_hash r) then inl (UniqueViolation "game_specs_spec_hash_key")
  else inr (with_game_specs d (game_specs d ++ [r])).

(* ================================================================= *)
(** ** State tracker (handlers, state constants and updateGameSpecState) *)

Definition StateCreating := "creating".
Definition StateGitIniting := "git_initing".
Definition StateGitInited := "git_inited".
Definition StateCodeGenerating := "code_generating".
Definition StateCodeGenerated := "code_generated".

Definition known_states : list string :=
  [StateCreating; StateGitIniting; StateGitInited; StateCodeGenerating; StateCodeGenerated].

(** [updateGameSpecState(db, specID, newState, detail)]: the database after
    the call and the returned error.  No constraint can refuse the UPDATE,
    so its error branch is not represented. *)
Definition updateGameSpecState (now : Z) (d : DB) (specID newState detail : string)
  : DB * error :=
  match select_state d specID with
  | inl e => (d, Some ("failed to get current state: " ++ db_error_string e))
  | inr currentState =>
      let d1 := update_state d newState specID in
      match insert_state_log d1 now specID currentState newState detail with
      | inl e => (d1, Some ("failed to log state transition: " ++ db_error_string e))
      | inr d2 => (d2, None)
      end
  end.

(* ----------------------------------------------------------------- *)
(** *** Statements on gen_spec_jobs *)

Definition spec_job_exists (d : DB) (id : string) : bool :=
  existsb (fun r => String.eqb (sj_id r) id) (gen_spec_jobs d).

(** INSERT INTO gen_spec_jobs (id,status,brief,created_at) VALUES ($1,'QUEUED',$2,now()) *)
Definition insert_spec_job (d : DB) (now : Z) (id brief : string) : DbError + DB :=
  if spec_job_exists d id then inl (UniqueViolation "gen_spec_jobs_pkey")
  else inr (with_gen_spec_jobs d
              (gen_spec_jobs d ++ [mkSpecJob id "QUEUED" brief None None None None now None None])).

Definition set_running (now : Z) (r : SpecJob) : SpecJob :=
  mkSpecJob (sj_id r) "RUNNING" (sj_brief r) (sj_result_spec_id r) (sj_duplicate_of r)
    (sj_score_similarity r) (sj_error r) (sj_created_at r) (Some now) (sj_finished_at r).

Definition set_duplicate (now : Z) (dupIDs : list string) (maxScore : float) (r : SpecJob)
  : SpecJob :=
  mkSpecJob (sj_id r) "DUPLICATE" (sj_brief r) (sj_result_spec_id r) (Some dupIDs)
    (Some maxScore) (sj_error r) (sj_created_at r) (sj_started_at r) (Some now).

Definition set_completed (now : Z) (specID : string) (r : SpecJob) : SpecJob :=
  mkSpecJob (sj_id r) "COMPLETED" (sj_brief r) (Some specID) (sj_duplicate_of r)
    (sj_score_similarity r) (sj_error r) (sj_created_at r) (sj_started_at r) (Some now).

(** UPDATE gen_spec_jobs SET status='RUNNING', started_at=now() WHERE id=$1 *)
Definition update_spec_job_running (d : DB) (now : Z) (id : string) : DbError + DB :=
  inr (with_gen_spec_jobs d (update_where sj_id id (set_running now) (gen_spec_jobs d))).

(** UPDATE gen_spec_jobs SET status='DUPLICATE', duplicate_of=$2, score_similarity=$3,
    finished_at=now() WHERE id=$1 *)
Definition update_spec_job_duplicate (d : DB) (now : Z) (id : string)
  (dupIDs : list string) (maxScore : float) : DbError + DB :=
  inr (with_gen_spec_jobs d
         (update_where sj_id id (set_duplicate now dupIDs maxScore) (gen_spec_jobs d))).

(** UPDATE gen_spec_jobs SET status='COMPLETED', result_spec_id=$2, finished_at=now()
    WHERE id=$1 *)
Definition update_spec_job_completed (d : DB) (now : Z) (id specID : string) : DbError + DB :=
  if (spec_job_exists d id && negb (spec_exists d specID))%bool
  then inl (ForeignKeyViolation "gen_spec_jobs_result_spec_id_fkey")
  else inr (with_gen_spec_jobs d
              (update_where sj_id id (set_completed now specID) (gen_spec_jobs d))).

(* ----------------------------------------------------------------- *)
(** *** Statements on code_jobs *)

Definition code_job_exists (d : DB) (id : string) : bool :=
  existsb (fun r => String.eqb (cj_id r) id) (code_jobs d).

(** INSERT INTO code_jobs (id, game_spec_id, game_spec, output_path, status,
    created_at, updated_at) VALUES ($1, $2, $3, $4, 'queued', $5, $6);
    progress and logs take their column defaults. *)
Definition insert_code_job (d : DB) (id gameSpecID : string) (gameSpec : GoMap)
  (outputPath : string) (created updated : Z) : DbError + DB :=
  if code_job_exists d id then inl (UniqueViolation "code_jobs_pkey")
  else if negb (spec_exists d gameSpecID)
  then inl (ForeignKeyViolation "code_jobs_game_spec_id_fkey")
  else inr (with_code_jobs d
              (code_jobs d ++
               [mkCodeJob id gameSpecID (to_json gameSpec) (Some outputPath) "queued" 0
                  None None [] created updated])).

Definition set_job_status (status : string) (progress : Z) (logs : list string) (now : Z)
  (r : CodeJob) : CodeJob :=
  mkCodeJob (cj_id r) (cj_game_spec_id r) (cj_game_spec r) (cj_output_path r) status progress
    (cj_artifact_url r) (cj_error r) logs (cj_created_at r) now.

Definition set_output_path (p : string) (r : CodeJob) : CodeJob :=
  mkCodeJob (cj_id r) (cj_game_spec_id r) (cj_game_spec r) (Some p) (cj_status r)
    (cj_progress r) (cj_artifact_url r) (cj_error r) (cj_logs r) (cj_created_at r)
    (cj_updated_at r).

(** UPDATE code_jobs SET status = $1, progress = $2, logs = $3, updated_at = $4
    WHERE id = $5 *)
Definition update_job_status (d : DB) (jobID status : string) (progress : Z)
  (logs : list string) (now : Z) : DB :=
  with_code_jobs d (update_where cj_id jobID (set_job_status status progress logs now)
                      (code_jobs d)).

(** UPDATE code_jobs SET output_path = $1 WHERE id = $2 *)
Definition update_output_path (d : DB) (p jobID : string) : DB :=
  with_code_jobs d (update_where cj_id jobID (set_output_path p) (code_jobs d)).

(** ORDER BY created_at DESC: insertion into a list sorted by decreasing
    creation time. *)
Fixpoint insert_desc (j : CodeJob) (l : list CodeJob) : list CodeJob :=
  match l with
  | [] => [j]
  | k :: l' =>
      if cj_created_at k <=? cj_created_at j then j :: k :: l'
      else k :: insert_desc j l'
  end.

Fixpoint order_by_created_at_desc (l : list CodeJob) : list CodeJob :=
  match l with
  | [] => []
  | j :: l' => insert_desc j (order_by_created_at_desc l')
  end.

(** SELECT ... FROM code_jobs WHERE game_spec_id = $1 ORDER BY created_at DESC LIMIT 1 *)
Definition select_latest_code_job (d : DB) (specID : string) : DbError + CodeJob :=
  match order_by_created_at_desc
          (filter (fun r => String.eqb (cj_game_spec_id r) specID) (code_jobs d)) with
  | j :: _ => inr j
  | [] => inl NoRows
  end.

(* ================================================================= *)
(** ** The world outside the process *)

(** An outbound HTTP call whose body the caller decodes as JSON. *)
Inductive HttpReply (A : Type) : Type :=
| HttpErr (msg : string)                        (* the client returned an error *)
| HttpResp (status : Z) (body : result A).      (* status code and the decoded body *)
Arguments HttpErr {A} msg.
Arguments HttpResp {A} status body.

(** The call of [CreateDevinTask], whose body is read before it is parsed. *)
Inductive DevinReply : Type :=
| DevinRequestErr (msg : string)                (* http.NewRequest failed *)
| DevinDoErr (msg : string)                     (* client.Do failed *)
| DevinReadErr (msg : string)                   (* io.ReadAll failed *)
| DevinResp (status : Z) (respBody : string).

Record CreateJobReq : Type := mkCreateJobReq {
  req_Brief : string;
  req_Constraints : GoMap
}.

Record SimilarSpec : Type := mkSimilarSpec {
  ss_ID : string;
  ss_Title : string;
  ss_Score : float
}.

Record genSpecReq : Type := mkGenSpecReq {
  gq_Brief : string;
  gq_Constraints : GoMap
}.

Record genSpecResp : Type := mkGenSpecResp {
  g_Title : string;
  g_SpecMarkdown : string;
  g_SpecJSON : GoMap
}.

Record searchReq : Type := mkSearchReq {
  sr_Text : string;
  sr_TopK : Z;
  sr_Threshold : float
}.

(** One element of [searchResp.Similar]. *)
Record Similar : Type := mkSimilar {
  sim_SpecID : string;
  sim_Title : string;
  sim_Score : float
}.

Record upsertReq : Type := mkUpsertReq {
  up_SpecID : string;
  up_Text : string;
  up_Payload : GoMap
}.

Record CreateCodeJobReq : Type := mkCreateCodeJobReq {
  cr_GameSpecID : string;
  cr_GameSpec : GoMap;
  cr_OutputPath : string
}.

Record World : Type := {
  os_Getenv : string -> string;
  uuid_New : nat -> string;            (* the n-th uuid.New().String() of the invocation *)
  time_Now : nat -> Z;                 (* the n-th reading of the clock *)
  (* POST url+/llm/generate-spec, /vector/search, /vector/upsert *)
  llm_generate_spec : string -> genSpecReq -> HttpReply genSpecResp;
  vector_search : string -> searchReq -> HttpReply (list Similar);
  vector_upsert : string -> upsertReq -> HttpReply unit;
  (* POST apiURL with bearer apiKey and the prompt *)
  devin_sessions : string -> string -> string -> DevinReply;
  (* exec.Command("git", args...).Run() with cmd.Dir = dir *)
  exec_git : string -> list string -> error;
  os_MkdirAll : string -> error;
  os_WriteFile : string -> error;
  os_Stat_IsNotExist : string -> bool
}.

(** What a request leaves behind besides the database. *)
Record CodeJobStatusResp : Type := mkCodeJobStatusResp {
  r_JobID : string;
  r_Status : string;
  r_Progress : Z;
  r_OutputPath : option string;
  r_ArtifactURL : option string;
  r_Error : option string;
  r_Logs : list string;
  r_CreatedAt : Z;
  r_UpdatedAt : Z
}.

Inductive Body : Type :=
| BError (msg : string)                               (* {"error": msg} *)
| BDuplicate (job_id : string) (duplicate_list : list SimilarSpec)
                                                      (* {"job_id", "status": "DUPLICATE", "duplicate_list"} *)
| BCompleted (job_id result_spec_id : string)         (* {"job_id", "status": "COMPLETED", "result_spec_id"} *)
| BQueued (job_id : string)                           (* {"job_id", "status": "queued"} *)
| BNotStarted                                         (* {"status": "not_started"} *)
| BCodeJob (resp : CodeJobStatusResp).

Inductive Response : Type :=
| FiberError (code : Z) (msg : string)                (* return fiber.NewError(code, msg) *)
| JSONResponse (code : Z) (body : Body).              (* return c.Status(code).JSON(body) *)

(** The goroutines a handler starts. *)
Inductive Task : Type :=
| GoAutoTrigger (specID : string) (specJSON : GoMap) (codeJobID : string)
| GoProcessCodeGeneration (jobID : string) (req : CreateCodeJobReq).

Definition Reply : Type := Response * list Task.

(** One call of [updateJobStatus]. *)
Record JobUpdate : Type := mkJobUpdate {
  ju_job : string;
  ju_status : string;
  ju_progress : Z;
  ju_logs : list string
}.

(** The state threaded through a handler or a worker: the database, how
    many clock readings and uuids were drawn, and the job updates issued. *)
Record St : Type := mkSt {
  st_db : DB;
  st_clock : nat;
  st_uuids : nat;
  st_updates : list JobUpdate
}.

Definition start (d : DB) : St := mkSt d 0 0 [].

Definition nl : string := String (ascii_of_nat 10) EmptyString.

Section Backend.

Variable std : GoStd.
Variable w : World.

(* ================================================================= *)
(** ** Effects *)

Section Effects.
Context {R : Type}.

(** time.Now(), and now() inside a statement: the next clock reading. *)
Definition now : M St R Z := fun s =>
  (mkSt (st_db s) (S (st_clock s)) (st_uuids s) (st_updates s), inl (time_Now w (st_clock s))).

(** uuid.New().String() *)
Definition new_uuid : M St R string := fun s =>
  (mkSt (st_db s) (st_clock s) (S (st_uuids s)) (st_updates s), inl (uuid_New w (st_uuids s))).

Definition get_db : M St R DB := fun s => (s, inl (st_db s)).

Definition put_db (d : DB) : M St R unit := fun s =>
  (mkSt d (st_clock s) (st_uuids s) (st_updates s), inl tt).

(** db.Exec: the statement takes effect unless it fails; the error is returned. *)
Definition exec (stmt : DB -> DbError + DB) : M St R error :=
  d <- get_db ;;
  match stmt d with
  | inr d' => put_db d' ;; ret None
  | inl e => ret (Some (db_error_string e))
  end.

(** A statement that reads the clock on the server side. *)
Definition exec_now (stmt : DB -> Z -> DbError + DB) : M St R error :=
  t <- now ;; exec (fun d => stmt d t).

(** [if err != nil { return r err.Error() }] *)
Definition check (err : error) (r : string -> R) : M St R unit :=
  match err with
  | Some e => exit (r e)
  | None => ret tt
  end.

(** The helper of the state tracker, called for its effect; the error is
    only logged by every caller. *)
Definition track_state (specID newState detail : string) : M St R unit :=
  t <- now ;;
  d <- get_db ;;
  put_db (fst (updateGameSpecState t d specID newState detail)).

(** [updateJobStatus(db, jobID, status, progress, logs)] *)
Definition updateJobStatus (jobID status : string) (progress : Z) (logs : list string)
  : M St R unit :=
  t <- now ;;
  fun s =>
    (mkSt (update_job_status (st_db s) jobID status progress logs t)
       (st_clock s) (st_uuids s)
       (st_updates s ++ [mkJobUpdate jobID status progress logs]),
     inl tt).

End Effects.

(* ================================================================= *)
(** ** utils.GitRepo *)

Record GitRepo : Type := mkGitRepo {
  RepoPath : string;
  RepoURL : string;
  Username : string;
  Token : string;
  AutoPush : bool
}.

(** NewGitRepo: this revision does not read GIT_AUTO_PUSH. *)
Definition NewGitRepo : GitRepo :=
  mkGitRepo (os_Getenv w "GIT_REPO_PATH") (os_Getenv w "GIT_REPO_URL")
    (os_Getenv w "GIT_USERNAME") (os_Getenv w "GIT_TOKEN") false.

Definition IsConfigured (g : GitRepo) : bool :=
  (negb (is_empty (RepoPath g)) && negb (is_empty (RepoURL g)) && negb (is_empty (Token g)))%bool.

Definition getAuthenticatedURL (g : GitRepo) : result string :=
  if is_empty (Token g) then Ok (RepoURL g)
  else
    match (if negb (is_empty (Username g))
           then url_WithUserPassword std (RepoURL g) (Username g) (Token g)
           else url_WithUserPassword std (RepoURL g) (Token g) "") with
    | Ok u => Ok u
    | Err e => Err ("failed to parse repository URL: " ++ e)
    end.

Definition git (g : GitRepo) (args : list string) : error := exec_git w (RepoPath g) args.

Definition pullFromRemote (g : GitRepo) : error :=
  match git g ["remote"; "get-url"; "origin"] with
  | Some _ => None
  | None =>
      match git g ["rev-parse"; "HEAD"] with
      | Some _ => None
      | None =>
          match git g ["pull"; "origin"; "main"] with
          | None => None
          | Some _ =>
              match git g ["pull"; "origin"; "master"] with
              | None => None
              | Some _ =>
                  match git g ["pull"] with
                  | None => None
                  | Some e => Some ("failed to pull from remote: " ++ e)
                  end
              end
          end
      end
  end.

(** Commands whose error the source ignores ([git branch -M main],
    [git remote set-url], [git config]) leave no trace here. *)
Definition InitializeRepo (g : GitRepo) : error :=
  match (if os_Stat_IsNotExist w (RepoPath g) then os_MkdirAll w (RepoPath g) else None) with
  | Some e => Some ("failed to create repo directory: " ++ e)
  | None =>
      if os_Stat_IsNotExist w (filepath_Join std (RepoPath g) ".git") then
        match git g ["init"] with
        | Some e => Some ("failed to initialize git repo: " ++ e)
        | None =>
            if negb (is_empty (RepoURL g)) then
              match getAuthenticatedURL g with
              | Err e => Some ("failed to create authenticated URL: " ++ e)
              | Ok authURL =>
                  match git g ["remote"; "add"; "origin"; authURL] with
                  | Some e => Some ("failed to add remote origin: " ++ e)
                  | None => None
                  end
              end
            else None
        end
      else if (negb (is_empty (RepoURL g)) && negb (is_empty (Token g)))%bool then
        match getAuthenticatedURL g with
        | Err e => Some ("failed to create authenticated URL: " ++ e)
        | Ok _ => None
        end
      else None
  end.

(** The folder is named after the game id; a README that cannot be written
    is only reported on standard output. *)
Definition CreateGameFolder (g : GitRepo) (gameID gameTitle : string) (gameSpec : GoMap)
  : result string :=
  let gamePath := filepath_Join std (RepoPath g) gameID in
  match os_MkdirAll w gamePath with
  | Some e => Err ("failed to create game folder: " ++ e)
  | None =>
      let _ := os_WriteFile w (filepath_Join std gamePath "README.md") in
      Ok gamePath
  end.

(** The commit message: GIT_COMMIT_MESSAGE_TEMPLATE, by default
    [Generated game: %s (ID: %s)], applied to the title and the id. *)
Definition commit_message (gameTitle gameID : string) : string :=
  let commitTemplate := os_Getenv w "GIT_COMMIT_MESSAGE_TEMPLATE" in
  if is_empty commitTemplate
  then "Generated game: " ++ gameTitle ++ " (ID: " ++ gameID ++ ")"
  else fmt_Sprintf_ss std commitTemplate gameTitle gameID.

Definition CommitAndPush (g : GitRepo) (gamePath gameTitle gameID : string) : error :=
  match pullFromRemote g with
  | Some e => Some ("failed to pull latest changes: " ++ e)
  | None =>
      match git g ["add"; gameID] with
      | Some e => Some ("failed to add files to git: " ++ e)
      | None =>
          match git g ["commit"; "-m"; commit_message gameTitle gameID] with
          | Some e => Some ("failed to commit changes: " ++ e)
          | None =>
              match git g ["push"; "origin"; "main"] with
              | None => None
              | Some _ =>
                  match git g ["push"; "origin"; "master"] with
                  | None => None
                  | Some _ =>
                      match git g ["push"; "-u"; "origin"; "main"] with
                      | None => None
                      | Some e => Some ("failed to push to remote: " ++ e)
                      end
                  end
              end
          end
      end
  end.

(** The task handed to the coding agent. *)
Definition taskDescription (gameSpecID repoURL gameTitle : string) : string :=
  "Please work on the game project in folder " ++ gameSpecID ++ "." ++ nl ++ nl ++
  "This folder contains a README.md file that describes the complete game specification and requirements." ++ nl ++ nl ++
  "Your tasks:" ++ nl ++
  "1. Navigate to the " ++ gameSpecID ++ " folder in the repository" ++ nl ++
  "2. Read the README.md file to understand the game specification" ++ nl ++
  "3. Implement the complete game based on the specification in the README" ++ nl ++
  "4. Create all necessary HTML, CSS, and JavaScript files for the game" ++ nl ++
  "5. Ensure the game is fully functional and meets all requirements specified in the README" ++ nl ++
  "6. Test the game thoroughly to ensure it works correctly" ++ nl ++
  "7. Create a new branch for your implementation (e.g., implement/game-" ++ gameSpecID ++
  " or develop/game-" ++ gameSpecID ++ ")" ++ nl ++
  "8. Commit your implementation to the new branch with descriptive commit messages" ++ nl ++
  "9. Create a pull request to merge your implementation into the main branch" ++ nl ++
  "10. Include screenshots or a demo video in the PR description" ++ nl ++ nl ++
  "Repository: " ++ repoURL ++ nl ++
  "Game Title: " ++ gameTitle ++ nl ++
  "Game Spec ID: " ++ gameSpecID ++ nl ++ nl ++
  "IMPORTANT: Do NOT commit directly to the main branch. Always create a feature branch and submit a pull request for review. The README.md contains the complete specification - implement the game from scratch based on these requirements.".

(** CreateDevinTask: the session id, without its [devin-] prefix.  The
    payload [{prompt, idempotent: true}] always marshals, so that error
    branch of the source is not represented. *)
Definition CreateDevinTask (g : GitRepo) (gameSpecID gameTitle : string) : result string :=
  let repoURL := TrimSuffix (os_Getenv w "GIT_REPO_URL") ".git" in
  if is_empty repoURL then Err "GIT_REPO_URL environment variable not set"
  else
    let apiURL :=
      if is_empty (os_Getenv w "DEVIN_API_URL") then "https://api.devin.ai/v1/sessions"
      else os_Getenv w "DEVIN_API_URL" in
    let apiKey := os_Getenv w "DEVIN_API_KEY" in
    if is_empty apiKey then Err "DEVIN_API_KEY environment variable is required"
    else
      match devin_sessions w apiURL apiKey (taskDescription gameSpecID repoURL gameTitle) with
      | DevinRequestErr e => Err ("failed to create request: " ++ e)
      | DevinDoErr e => Err ("failed to make request: " ++ e)
      | DevinReadErr e => Err ("failed to read response body: " ++ e)
      | DevinResp status respBody =>
          if (negb (status =? 200) && negb (status =? 201))%bool
          then Err ("Devin API returned status " ++ itoa status ++ ": " ++ respBody)
          else
            match json_Unmarshal std respBody with
            | Err e => Err ("failed to parse response: " ++ e)
            | Ok v =>
                match as_map v with
                | Err e => Err ("failed to parse response: " ++ e)
                | Ok sessionResponse =>
                    match map_index sessionResponse "session_id" with
                    | None => Err "session_id not found in response"
                    | Some (JString sessionIDStr) => Ok (TrimPrefix sessionIDStr "devin-")
                    | Some _ => Err "session_id is not a string"
                    end
                end
            end
      end.

(* ================================================================= *)
(** ** Spec jobs (spec_jobs.go, the revision with state tracking) *)

Definition hashSpec (specJSON : GoMap) : result string :=
  match json_Marshal std (to_json specJSON) with
  | Err e => Err e
  | Ok b => Ok (hex_EncodeToString (sha256_Sum256 std b))
  end.

Definition llmBackend : string :=
  if is_empty (os_Getenv w "LLM_BACKEND_URL") then "http://localhost:8000"
  else os_Getenv w "LLM_BACKEND_URL".

Definition topK : Z :=
  let v := os_Getenv w "TOP_K" in
  if is_empty v then 5
  else match Sscanf_d std v with Some k => k | None => 5 end.

Definition threshold : float :=
  let v := os_Getenv w "SIM_THRESHOLD" in
  if is_empty v then 0.86%float
  else match Sscanf_f std v with Some t => t | None => 0.86%float end.

Definition normText (g : genSpecResp) : string :=
  g_Title g ++ nl ++
  "controls:" ++ fmt_v std (map_index (g_SpecJSON g) "controls") ++ nl ++
  "mechanics:" ++ fmt_v std (map_index (g_SpecJSON g) "mechanics") ++ nl ++
  "constraints:" ++ fmt_v std (map_index (g_SpecJSON g) "constraints").

Definition dupIDs (similar : list Similar) : list string := map sim_SpecID similar.

Definition duplicate_list (similar : list Similar) : list SimilarSpec :=
  map (fun it => mkSimilarSpec (sim_SpecID it) (sim_Title it) (sim_Score it)) similar.

(** The three outbound calls of PostSpecJob, each with its 502 answers. *)
Definition post_generate_spec (base : string) (req : CreateJobReq) : M St Reply genSpecResp :=
  match llm_generate_spec w base (mkGenSpecReq (req_Brief req) (req_Constraints req)) with
  | HttpErr e => exit (FiberError 502 ("llm generate-spec failed: " ++ e), [])
  | HttpResp status body =>
      if negb (status =? 200) then exit (FiberError 502 ("llm status " ++ itoa status), [])
      else match body with
           | Err e => exit (FiberError 502 e, [])
           | Ok g => ret g
           end
  end.

Definition post_vector_search (base text : string) : M St Reply (list Similar) :=
  match vector_search w base (mkSearchReq text topK threshold) with
  | HttpErr e => exit (FiberError 502 ("vector search failed: " ++ e), [])
  | HttpResp status body =>
      if negb (status =? 200) then exit (FiberError 502 ("vector status " ++ itoa status), [])
      else match body with
           | Err e => exit (FiberError 502 e, [])
           | Ok s => ret s
           end
  end.

Definition post_vector_upsert (base specID text title : string) : M St Reply unit :=
  match vector_upsert w base
          (mkUpsertReq specID text (Some [("title", JString title)])) with
  | HttpErr e => exit (FiberError 502 ("vector upsert failed: " ++ e), [])
  | HttpResp status _ =>
      if negb (status =? 200) then exit (FiberError 502 ("upsert status " ++ itoa status), [])
      else ret tt
  end.

Definition new_game_spec (specID brief : string) (g : genSpecResp) (hash : string) (t : Z)
  : GameSpec :=
  mkGameSpec specID (g_Title g) brief (g_SpecMarkdown g) (to_json (g_SpecJSON g)) hash
    (map_index (g_SpecJSON g) "genre") (map_index (g_SpecJSON g) "duration_sec")
    StateCreating None t.

(** The duplicate decision of PostSpecJob: only the first candidate is
    compared with the threshold. *)
Definition duplicate_decision_of (jobID : string) (s : list Similar) : M St Reply unit :=
  match s with
  | first :: _ =>
      let maxScore := sim_Score first in
      when (PrimFloat.leb threshold maxScore)
        (_ <- exec_now (fun d t => update_spec_job_duplicate d t jobID (dupIDs s) maxScore) ;;
         exit (JSONResponse 200 (BDuplicate jobID (duplicate_list s)), []))
  | [] => ret tt
  end.

(** The rest of PostSpecJob once no duplicate was found: hash, insert,
    record the state, index, complete the job and start the code job. *)
Definition persist_spec (jobID : string) (req : CreateJobReq) (g : genSpecResp)
  : M St Reply Reply :=
  match hashSpec (g_SpecJSON g) with
  | Err e => exit (FiberError 500 e, [])
  | Ok hash =>
      specID <- new_uuid ;;
      err <- exec_now (fun d t =>
               insert_game_spec d (new_game_spec specID (req_Brief req) g hash t)) ;;
      check err (fun e => (FiberError 500 e, [])) ;;
      track_state specID StateCreating "Game spec created" ;;
      post_vector_upsert llmBackend specID (normText g) (g_Title g) ;;
      _ <- exec_now (fun d t => update_spec_job_completed d t jobID specID) ;;
      codeJobID <- new_uuid ;;
      ret (JSONResponse 200 (BCompleted jobID specID),
           [GoAutoTrigger specID (g_SpecJSON g) codeJobID])
  end.

(** PostSpecJob, on the outcome of [c.BodyParser(&req)]. *)
Definition PostSpecJob (body : result CreateJobReq) : M St Reply Reply :=
  match body with
  | Err e => exit (FiberError 400 e, [])
  | Ok req =>
      when (is_empty (req_Brief req)) (exit (FiberError 400 "brief is required", [])) ;;
      jobID <- new_uuid ;;
      err <- exec_now (fun d t => insert_spec_job d t jobID (req_Brief req)) ;;
      check err (fun e => (FiberError 500 e, [])) ;;
      err <- exec_now (fun d t => update_spec_job_running d t jobID) ;;
      check err (fun e => (FiberError 500 e, [])) ;;
      g <- post_generate_spec llmBackend req ;;
      s <- post_vector_search llmBackend (normText g) ;;
      duplicate_decision_of jobID s ;;
      persist_spec jobID req g
  end.

(** The gateway of the handler before state tracking. *)
Definition llmvec : string :=
  if is_empty (os_Getenv w "LLMVEC_URL") then "http://localhost:8000"
  else os_Getenv w "LLMVEC_URL".

(** The rest of that handler once no duplicate was found; the state of
    the new row is the column default. *)
Definition persist_spec_untracked (jobID : string) (req : CreateJobReq) (g : genSpecResp)
  : M St Reply Reply :=
  match hashSpec (g_SpecJSON g) with
  | Err e => exit (FiberError 500 e, [])
  | Ok hash =>
      specID <- new_uuid ;;
      err <- exec_now (fun d t =>
               insert_game_spec d (new_game_spec specID (req_Brief req) g hash t)) ;;
      check err (fun e => (FiberError 500 e, [])) ;;
      post_vector_upsert llmvec specID (normText g) (g_Title g) ;;
      _ <- exec_now (fun d t => update_spec_job_completed d t jobID specID) ;;
      ret (JSONResponse 201 (BCompleted jobID specID), [])
  end.

(** PostSpecJob before state tracking. *)
Definition PostSpecJob_untracked (body : result CreateJobReq) : M St Reply Reply :=
  match body with
  | Err e => exit (FiberError 400 e, [])
  | Ok req =>
      when (is_empty (req_Brief req)) (exit (FiberError 400 "brief is required", [])) ;;
      jobID <- new_uuid ;;
      err <- exec_now (fun d t => insert_spec_job d t jobID (req_Brief req)) ;;
      check err (fun e => (FiberError 500 e, [])) ;;
      err <- exec_now (fun d t => update_spec_job_running d t jobID) ;;
      check err (fun e => (FiberError 500 e, [])) ;;
      g <- post_generate_spec llmvec req ;;
      s <- post_vector_search llmvec (normText g) ;;
      duplicate_decision_of jobID s ;;
      persist_spec_untracked jobID req g
  end.

(** The goroutine PostSpecJob starts after answering. *)
Definition autoTrigger (specID : string) (specJSON : GoMap) (codeJobID : string)
  : M St (list Task) (list Task) :=
  track_state specID StateGitIniting "Starting git repository initialization" ;;
  let gitRepo := NewGitRepo in
  let codeReq := mkCreateCodeJobReq specID specJSON (RepoPath gitRepo) in
  t <- now ;;
  err <- exec (fun d => insert_code_job d codeJobID specID specJSON (cr_OutputPath codeReq) t t) ;;
  match err with
  | None => ret [GoProcessCodeGeneration codeJobID codeReq]
  | Some _ => ret []
  end.

(* ================================================================= *)
(** ** Code jobs (code_jobs.go) *)

(** PostCodeJob, on the outcome of [c.BodyParser(&req)]. *)
Definition PostCodeJob (body : result CreateCodeJobReq) : M St Reply Reply :=
  match body with
  | Err _ => exit (JSONResponse 400 (BError "Invalid request body"), [])
  | Ok req0 =>
      when (is_empty (cr_GameSpecID req0) && Nat.eqb (map_len (cr_GameSpec req0)) 0)%bool
        (exit (JSONResponse 400 (BError "Either game_spec_id or game_spec must be provided"), [])) ;;
      let req :=
        if is_empty (cr_OutputPath req0)
        then mkCreateCodeJobReq (cr_GameSpecID req0) (cr_GameSpec req0) "/tmp"
        else req0 in
      jobID <- new_uuid ;;
      t <- now ;;
      err <- exec (fun d => insert_code_job d jobID (cr_GameSpecID req) (cr_GameSpec req)
                              (cr_OutputPath req) t t) ;;
      check err (fun _ => (JSONResponse 500 (BError "Failed to create job"), [])) ;;
      track_state (cr_GameSpecID req) StateCreating "Code generation job created" ;;
      ret (JSONResponse 200 (BQueued jobID), [GoProcessCodeGeneration jobID req])
  end.

Definition snapshot (j : CodeJob) : CodeJobStatusResp :=
  mkCodeJobStatusResp (cj_id j) (cj_status j) (cj_progress j) (cj_output_path j)
    (cj_artifact_url j) (cj_error j) (cj_logs j) (cj_created_at j) (cj_updated_at j).

(** GetCodeJob; the query does not select output_path. *)
Definition GetCodeJob (jobID : string) (d : DB) : Response :=
  if is_empty jobID then JSONResponse 400 (BError "Job ID is required")
  else
    match find_code_job d jobID with
    | None => JSONResponse 404 (BError "Job not found")
    | Some j =>
        JSONResponse 200
          (BCodeJob (mkCodeJobStatusResp (cj_id j) (cj_status j) (cj_progress j) None
                       (cj_artifact_url j) (cj_error j) (cj_logs j) (cj_created_at j)
                       (cj_updated_at j)))
    end.

(** GetCodeJobBySpecID gets the latest code job for a specific game spec. *)
Definition GetCodeJobBySpecID (specID : string) (d : DB) : Response :=
  if is_empty specID then JSONResponse 400 (BError "Spec ID is required")
  else
    match select_latest_code_job d specID with
    | inl _ => JSONResponse 200 BNotStarted
    | inr j => JSONResponse 200 (BCodeJob (snapshot j))
    end.

(** The map handed to the git driver: spec_json, spec_markdown and title
    of the row read back from game_specs. *)
Definition combined_spec (row : GameSpec) (specJSON : GoMap) : GoMap :=
  Some [("spec_json", to_json specJSON);
        ("spec_markdown", JString (gs_spec_markdown row));
        ("title", JString (gs_title row))].

(** processCodeGeneration: the worker goroutine. *)
Definition processCodeGeneration (jobID : string) (req : CreateCodeJobReq) : M St unit unit :=
  updateJobStatus jobID "processing" 20 ["Starting automated git folder generation"] ;;
  d <- get_db ;;
  match find_spec d (cr_GameSpecID req) with
  | None =>
      updateJobStatus jobID "failed" 0
        ["Failed to retrieve game spec: " ++ db_error_string NoRows] ;;
      exit tt
  | Some row =>
      match as_map (gs_spec_json row) with
      | Err e =>
          updateJobStatus jobID "failed" 0 ["Failed to parse spec JSON: " ++ e] ;;
          exit tt
      | Ok specJSON =>
          updateJobStatus jobID "processing" 40 ["Game spec retrieved successfully"] ;;
          let combinedGameSpec := combined_spec row specJSON in
          let gitRepo := NewGitRepo in
          when (negb (IsConfigured gitRepo))
            (updateJobStatus jobID "failed" 0 ["Git repository not configured"] ;; exit tt) ;;
          updateJobStatus jobID "processing" 60 ["Creating game folder with README.md"] ;;
          match CreateGameFolder gitRepo (cr_GameSpecID req) (gs_title row) combinedGameSpec with
          | Err e =>
              updateJobStatus jobID "failed" 0 ["Failed to create game folder: " ++ e] ;;
              exit tt
          | Ok gamePath =>
              updateJobStatus jobID "processing" 80 ["Committing and pushing to repository"] ;;
              match CommitAndPush gitRepo gamePath (gs_title row) (cr_GameSpecID req) with
              | Some e =>
                  updateJobStatus jobID "failed" 0 ["Failed to commit and push: " ++ e] ;;
                  exit tt
              | None =>
                  track_state (cr_GameSpecID req) StateGitInited
                    "Git repository initialized and README.md pushed" ;;
                  updateJobStatus jobID "processing" 85
                    ["Git operations completed, starting Devin code generation"] ;;
                  track_state (cr_GameSpecID req) StateCodeGenerating
                    "Starting Devin code generation" ;;
                  match CreateDevinTask gitRepo (cr_GameSpecID req) (gs_title row) with
                  | Err e =>
                      updateJobStatus jobID "failed" 85
                        ["Failed to create Devin task: " ++ e] ;;
                      exit tt
                  | Ok sessionID =>
                      _ <- exec (fun d =>
                             inr (update_devin_session_id d sessionID (cr_GameSpecID req))) ;;
                      updateJobStatus jobID "processing" 90
                        ["Devin task created with session ID: " ++ sessionID] ;;
                      updateJobStatus jobID "completed" 100
                        ["Git repository setup completed and Devin task created";
                         "Devin session: https://app.devin.ai/sessions/" ++ sessionID;
                         "Monitoring Devin progress for completion..."]
                  end
              end
          end
      end
  end.

(** The worker before state tracking was added: it initialises the
    repository itself and reports a job whose commit or push failed, or
    whose agent task could not be created, as completed with a warning. *)
Definition processCodeGeneration_untracked (jobID : string) (req : CreateCodeJobReq)
  : M St unit unit :=
  updateJobStatus jobID "processing" 20 ["Starting automated git folder generation"] ;;
  d <- get_db ;;
  match find_spec d (cr_GameSpecID req) with
  | None =>
      updateJobStatus jobID "failed" 0
        ["Failed to retrieve game spec: " ++ db_error_string NoRows] ;;
      exit tt
  | Some row =>
      match as_map (gs_spec_json row) with
      | Err e =>
          updateJobStatus jobID "failed" 0 ["Failed to parse spec JSON: " ++ e] ;;
          exit tt
      | Ok specJSON =>
          updateJobStatus jobID "processing" 40 ["Game spec retrieved successfully"] ;;
          let combinedGameSpec := combined_spec row specJSON in
          let gitRepo := NewGitRepo in
          when (negb (IsConfigured gitRepo))
            (updateJobStatus jobID "failed" 0
               ["Git repository not configured. Automated workflow requires git integration."] ;;
             exit tt) ;;
          match InitializeRepo gitRepo with
          | Some e =>
              updateJobStatus jobID "failed" 0 ["Failed to initialize git repo: " ++ e] ;;
              exit tt
          | None => ret tt
          end ;;
          updateJobStatus jobID "processing" 60 ["Git repository initialized"] ;;
          let gameTitle := if is_empty (gs_title row) then "untitled-game" else gs_title row in
          match CreateGameFolder gitRepo (cr_GameSpecID req) gameTitle combinedGameSpec with
          | Err e =>
              updateJobStatus jobID "failed" 0 ["Failed to create game folder: " ++ e] ;;
              exit tt
          | Ok projectPath =>
              updateJobStatus jobID "processing" 80
                ["Game folder created with README.md"; "Path: " ++ projectPath] ;;
              let repoURL := TrimSuffix (os_Getenv w "GIT_REPO_URL") ".git" in
              let outputURL := repoURL ++ "/tree/main/" ++ cr_GameSpecID req in
              match CommitAndPush gitRepo projectPath gameTitle (cr_GameSpecID req) with
              | Some e =>
                  updateJobStatus jobID "completed" 100
                    ["Automated generation completed";
                     "Warning: Failed to push to git repository";
                     "Git error: " ++ e]
              | None =>
                  match CreateDevinTask gitRepo (cr_GameSpecID req) gameTitle with
                  | Err _ =>
                      updateJobStatus jobID "completed" 100
                        ["Automated generation completed successfully";
                         "README.md committed and pushed to git repository";
                         "GitHub URL: " ++ outputURL;
                         "Warning: Failed to create Devin task"]
                  | Ok devinSessionID0 =>
                      let devinSessionID := TrimPrefix devinSessionID0 "devin-" in
                      _ <- exec (fun d =>
                             inr (update_devin_session_id d devinSessionID (cr_GameSpecID req))) ;;
                      updateJobStatus jobID "completed" 100
                        ["Automated generation completed successfully";
                         "README.md committed and pushed to git repository";
                         "GitHub URL: " ++ outputURL;
                         "Devin task created: " ++ devinSessionID]
                  end
              end ;;
              _ <- exec (fun d => inr (update_output_path d outputURL jobID)) ;;
              ret tt
          end
      end
  end.


End Backend.

(* ================================================================= *)
(** ** A small runtime and worlds to evaluate the code on *)

(** A stand-in for the Go runtime: documents are rendered without
    re-ordering keys, numbers as [0], and the digest is the byte string
    itself. *)
Fixpoint render (v : JSON) : string :=
  match v with
  | JNull => "null"
  | JBool true => "true"
  | JBool false => "false"
  | JNumber _ => "0"
  | JString s => "'" ++ s ++ "'"
  | JArray l => "[" ++ fold_right (fun x acc => render x ++ "," ++ acc) "]" l
  | JObject m =>
      "{" ++ fold_right (fun kv acc => "'" ++ fst kv ++ "':" ++ render (snd kv) ++ "," ++ acc)
               "}" m
  end.

Definition sample_std : GoStd := {|
  json_Marshal := fun v => Ok (render v);
  json_Unmarshal := fun s =>
    if String.eqb s "{session_id: devin-abc123}"
    then Ok (JObject [("session_id", JString "devin-abc123")])
    else Err "invalid character";
  sha256_Sum256 := fun b => b;
  fmt_v := fun v => match v with Some x => render x | None => "<nil>" end;
  Sscanf_d := fun _ => None;
  Sscanf_f := fun _ => None;
  fmt_Sprintf_ss := fun f a b => f ++ a ++ b;
  filepath_Join := fun a b => a ++ "/" ++ b;
  url_WithUserPassword := fun u user pass => Ok (user ++ ":" ++ pass ++ "@" ++ u)
|}.

Definition dodge_rush : genSpecResp :=
  mkGenSpecResp "Dodge Rush" "# Dodge Rush"
    (Some [("genre", JString "arcade"); ("duration_sec", JNumber 60%float);
           ("controls", JArray [JString "tap"]); ("mechanics", JArray [JString "dodge"])]).

Definition git_env (k : string) : string :=
  if String.eqb k "GIT_REPO_PATH" then "/srv/games"
  else if String.eqb k "GIT_REPO_URL" then "https://github.com/acme/games.git"
  else if String.eqb k "GIT_TOKEN" then "t0ken"
  else if String.eqb k "DEVIN_API_KEY" then "k3y"
  else "".

Definition nth_uuid (l : list string) (n : nat) : string := nth n l "".

(** A world in which every collaborator answers well: the generator
    returns Dodge Rush, the index holds [similar], git and the agent
    succeed. *)
Definition happy_world (t0 : Z) (uuids : list string) (similar : list Similar) : World := {|
  os_Getenv := git_env;
  uuid_New := nth_uuid uuids;
  time_Now := fun n => t0 + Z.of_nat n;
  llm_generate_spec := fun _ _ => HttpResp 200 (Ok dodge_rush);
  vector_search := fun _ _ => HttpResp 200 (Ok similar);
  vector_upsert := fun _ _ => HttpResp 200 (Ok tt);
  devin_sessions := fun _ _ _ => DevinResp 200 "{session_id: devin-abc123}";
  exec_git := fun _ _ => None;
  os_MkdirAll := fun _ => None;
  os_WriteFile := fun _ => None;
  os_Stat_IsNotExist := fun _ => false
|}.

Definition is_push (args : list string) : bool :=
  match args with
  | cmd :: _ => String.eqb cmd "push"
  | [] => false
  end.

(** The same world, except that every [git push] fails. *)
Definition push_fails_world (t0 : Z) (uuids : list string) : World := {|
  os_Getenv := git_env;
  uuid_New := nth_uuid uuids;
  time_Now := fun n => t0 + Z.of_nat n;
  llm_generate_spec := fun _ _ => HttpResp 200 (Ok dodge_rush);
  vector_search := fun _ _ => HttpResp 200 (Ok []);
  vector_upsert := fun _ _ => HttpResp 200 (Ok tt);
  devin_sessions := fun _ _ _ => DevinResp 200 "{session_id: devin-abc123}";
  exec_git := fun _ args => if is_push args then Some "exit status 1" else None;
  os_MkdirAll := fun _ => None;
  os_WriteFile := fun _ => None;
  os_Stat_IsNotExist := fun _ => false
|}.

(** The same world, except that the agent gateway answers 500. *)
Definition devin_500_world (t0 : Z) (uuids : list string) : World := {|
  os_Getenv := git_env;
  uuid_New := nth_uuid uuids;
  time_Now := fun n => t0 + Z.of_nat n;
  llm_generate_spec := fun _ _ => HttpResp 200 (Ok dodge_rush);
  vector_search := fun _ _ => HttpResp 200 (Ok []);
  vector_upsert := fun _ _ => HttpResp 200 (Ok tt);
  devin_sessions := fun _ _ _ => DevinResp 500 "Internal Server Error";
  exec_git := fun _ _ => None;
  os_MkdirAll := fun _ => None;
  os_WriteFile := fun _ => None;
  os_Stat_IsNotExist := fun _ => false
|}.

(** A deployment without GIT_REPO_PATH, GIT_REPO_URL and GIT_TOKEN. *)
Definition unconfigured_world (t0 : Z) (uuids : list string) : World := {|
  os_Getenv := fun _ => "";
  uuid_New := nth_uuid uuids;
  time_Now := fun n => t0 + Z.of_nat n;
  llm_generate_spec := fun _ _ => HttpResp 200 (Ok dodge_rush);
  vector_search := fun _ _ => HttpResp 200 (Ok []);
  vector_upsert := fun _ _ => HttpResp 200 (Ok tt);
  devin_sessions := fun _ _ _ => DevinResp 200 "{session_id: devin-abc123}";
  exec_git := fun _ _ => None;
  os_MkdirAll := fun _ => None;
  os_WriteFile := fun _ => None;
  os_Stat_IsNotExist := fun _ => false
|}.

Definition brief_req : result CreateJobReq :=
  Ok (mkCreateJobReq "arcade 60s mobile puzzle game" None).

(** The database after one successful spec job in the happy world. *)
Definition db_one_spec : DB :=
  st_db (fst (run (PostSpecJob sample_std (happy_world 1000 ["job-1"; "spec-1"; "cjob-1"] [])
                     brief_req) (start empty_db))).

(** ... and after the goroutine it started has queued the code job. *)
Definition db_one_job : DB :=
  st_db (fst (run (autoTrigger (happy_world 1010 [] []) "spec-1" (g_SpecJSON dodge_rush) "cjob-1")
                (start db_one_spec))).

(** ... and after a second code job was submitted for the same spec. *)
Definition db_two_jobs : DB :=
  st_db (fst (run (PostCodeJob (happy_world 5000 ["cjob-2"] [])
                     (Ok (mkCreateCodeJobReq "spec-1" None "")))
                (start db_one_job))).

Definition job_req : CreateCodeJobReq :=
  mkCreateCodeJobReq "spec-1" (g_SpecJSON dodge_rush) "/srv/games".

(** What is read off the final state of a worker. *)
Definition job_outcome (s : St) (jobID : string) : option (string * Z * list string) :=
  match find_code_job (st_db s) jobID with
  | Some j => Some (cj_status j, cj_progress j, cj_logs j)
  | None => None
  end.

Definition spec_state (d : DB) (specID : string) : option string :=
  match find_spec d specID with
  | Some r => Some (gs_state r)
  | None => None
  end.

Definition progress_written (s : St) : list Z := map ju_progress (st_updates s).
Definition statuses_written (s : St) : list string := map ju_status (st_updates s).

(* ================================================================= *)
(** ** Vocabulary of the properties *)

(** The job row while the request is being handled. *)
Definition running_job (w : World) (req : CreateJobReq) : SpecJob :=
  mkSpecJob (uuid_New w 0) "RUNNING" (req_Brief req) None None None None
    (time_Now w 0) (Some (time_Now w 1)) None.

(** The state in which the similarity search has answered. *)
Definition after_search (w : World) (d : DB) (req : CreateJobReq) : St :=
  mkSt (with_gen_spec_jobs d (gen_spec_jobs d ++ [running_job w req])%list) 2 1 [].

(** The job row a duplicate decision leaves behind. *)
Definition duplicate_job (w : World) (req : CreateJobReq) (s : list Similar) (maxScore : float)
  : SpecJob :=
  mkSpecJob (uuid_New w 0) "DUPLICATE" (req_Brief req) None (Some (dupIDs s)) (Some maxScore)
    None (time_Now w 0) (Some (time_Now w 1)) (Some (time_Now w 2)).

(** The decision PostSpecJob takes on the answer of the index. *)
Definition is_duplicate (std : GoStd) (w : World) (similar : list Similar) : bool :=
  match similar with
  | first :: _ => PrimFloat.leb (threshold std w) (sim_Score first)
  | [] => false
  end.

(** The code job a submission queues. *)
Definition queued_job (w : World) (req : CreateCodeJobReq) : CodeJob :=
  mkCodeJob (uuid_New w 0) (cr_GameSpecID req) (to_json (cr_GameSpec req))
    (Some (if is_empty (cr_OutputPath req) then "/tmp" else cr_OutputPath req))
    "queued" 0 None None [] (time_Now w 0) (time_Now w 0).

(** Jobs in the order of ORDER BY created_at DESC. *)
Definition newest_first (l : list CodeJob) : Prop :=
  StronglySorted (fun a b => cj_created_at b <= cj_created_at a) l.




(** The document and the hash of every row, in table order. *)
Definition hashes (d : DB) : list (JSON * string) :=
  map (fun r => (gs_spec_json r, gs_spec_hash r)) (game_specs d).

(** Two rows with the same spec_json are one row (and so agree on the
    hash). *)
Definition one_row_per_document (d : DB) : Prop :=
  forall i j r1 r2,
    nth_error (game_specs d) i = Some r1 ->
    nth_error (game_specs d) j = Some r2 ->
    gs_spec_json r1 = gs_spec_json r2 ->
    gs_spec_hash r1 = gs_spec_hash r2 /\ i = j.

(** A spec job of [handler] (whose gateway is at [base]) that generates the
    spec_json of an existing row [r] and does not decide for a duplicate is
    answered 500 with a unique-constraint violation (of spec_hash, unless
    the fresh id is taken too), leaves game_specs as it is, and [r] remains
    the only row with that spec_json. *)
Definition refuses_repeat (std : GoStd) (d : DB)
  (handler : World -> result CreateJobReq -> M St Reply Reply) (base : World -> string) : Prop :=
  forall (w : World) (req : CreateJobReq) (g : genSpecResp) (similar : list Similar)
         (r : GameSpec),
    In r (game_specs d) ->
    req_Brief req <> "" ->
    spec_job_exists d (uuid_New w 0) = false ->
    llm_generate_spec w (base w) (mkGenSpecReq (req_Brief req) (req_Constraints req))
      = HttpResp 200 (Ok g) ->
    to_json (g_SpecJSON g) = gs_spec_json r ->
    vector_search w (base w) (mkSearchReq (normText std g) (topK std w) (threshold std w))
      = HttpResp 200 (Ok similar) ->
    is_duplicate std w similar = false ->
    let (s', reply) := run (handler w (Ok req)) (start d) in
    (exists c,
        reply = (FiberError 500 (db_error_string (UniqueViolation c)), []) /\
        (spec_exists d (uuid_New w 1) = false -> c = "game_specs_spec_hash_key")) /\
    game_specs (st_db s') = game_specs d /\
    (forall r', In r' (game_specs (st_db s')) ->
                gs_spec_json r' = gs_spec_json r -> r' = r).

Section Store.
Variable std : GoStd.

(** A row whose hash is [hashSpec] of its document. *)
Definition hashed (p : JSON * string) : Prop :=
  exists m, fst p = to_json m /\ hashSpec std m = Ok (snd p).

(** No two rows share a hash, and every row is hashed. *)
Definition store_ok (d : DB) : Prop :=
  NoDup (map snd (hashes d)) /\ Forall hashed (hashes d).

(** An operation of the backend on the database. *)
Inductive step : DB -> DB -> Prop :=
| step_PostSpecJob w body d :
    step d (st_db (fst (run (PostSpecJob std w body) (start d))))
| step_PostSpecJob_untracked w body d :
    step d (st_db (fst (run (PostSpecJob_untracked std w body) (start d))))
| step_autoTrigger w specID specJSON codeJobID d :
    step d (st_db (fst (run (autoTrigger w specID specJSON codeJobID) (start d))))
| step_PostCodeJob w body d :
    step d (st_db (fst (run (PostCodeJob w body) (start d))))
| step_processCodeGeneration w jobID req d :
    step d (st_db (fst (run (processCodeGeneration std w jobID req) (start d))))
| step_processCodeGeneration_untracked w jobID req d :
    step d (st_db (fst (run (processCodeGeneration_untracked std w jobID req) (start d)))).

(** The databases the backend can bring about, starting empty. *)
Inductive reachable : DB -> Prop :=
| reachable_empty : reachable empty_db
| reachable_step d d' : reachable d -> step d d' -> reachable d'.

End Store.

Section Preservation.
Variable std : GoStd.
Context {R A : Type}.

(** The code [m] keeps the spec store well-formed. *)
Definition preserves (m : M St R A) : Prop :=
  forall s, store_ok std (st_db s) -> store_ok std (st_db (fst (m s))).

End Preservation.

(* ================================================================= *)
(** ** Reading, retrying and deleting (GetJob, ListSpecs, GetSpec,
       DeleteSpec, CreateDevinTask, GetSpecStateLogs, RetryCodeJob) *)

(** How a handler of this part answers. *)
Inductive Answer (B : Type) : Type :=
| Refused (code : Z) (msg : string)       (* return fiber.NewError(code, msg) *)
| ErrorJSON (code : Z) (msg : string)     (* return c.Status(code).JSON(fiber.Map{"error": msg}) *)
| Sent (code : Z) (body : B).             (* return c.Status(code).JSON(body) *)
Arguments Refused {B} code msg.
Arguments ErrorJSON {B} code msg.
Arguments Sent {B} code body.

(** The DELETE request of DeleteSpec. *)
Inductive DeleteReply : Type :=
| DeleteRequestErr (msg : string)               (* http.NewRequest failed *)
| DeleteDoErr (msg : string)                    (* client.Do failed *)
| DeleteResp (status : Z).

(** What these handlers use of the outside besides [World].  The driver
    reports a missing row with an error value of its own; whether that
    value is [database/sql.ErrNoRows], with which GetSpec and
    CreateDevinTask compare it, is a fact about the driver. *)
Record SpecWorld : Type := {
  http_DELETE : string -> DeleteReply;
  os_RemoveAll : string -> error;
  no_rows_is_sql_ErrNoRows : bool
}.

(* ----------------------------------------------------------------- *)
(** *** Statements *)

(** ORDER BY: insertion sort; rows that compare equal stay in table order. *)
Fixpoint insert_sorted {A} (le : A -> A -> bool) (x : A) (l : list A) : list A :=
  match l with
  | [] => [x]
  | y :: l' => if le x y then x :: y :: l' else y :: insert_sorted le x l'
  end.

Definition order_by {A} (le : A -> A -> bool) (l : list A) : list A :=
  fold_right (insert_sorted le) [] l.

(** SELECT title FROM game_specs WHERE id=$1, and COALESCE((SELECT title
    ...), ''): the empty string when no row carries the id. *)
Definition select_title (d : DB) (id : string) : string :=
  match find_spec d id with
  | Some r => gs_title r
  | None => ""
  end.

(** SELECT ... FROM game_specs ORDER BY created_at DESC LIMIT 50 *)
Definition select_recent_specs (d : DB) : list GameSpec :=
  firstn 50 (order_by (fun a b => gs_created_at b <=? gs_created_at a) (game_specs d)).

(** SELECT ... FROM game_spec_states WHERE game_spec_id = $1 ORDER BY created_at ASC *)
Definition select_state_logs (d : DB) (id : string) : list StateLog :=
  order_by (fun a b => sl_created_at a <=? sl_created_at b)
    (filter (fun l => String.eqb (sl_game_spec_id l) id) (game_spec_states d)).

(** DELETE FROM code_jobs WHERE game_spec_id = $1 *)
Definition delete_code_jobs_of (d : DB) (id : string) : DB :=
  with_code_jobs d (filter (fun j => negb (String.eqb (cj_game_spec_id j) id)) (code_jobs d)).

Definition clear_result_spec_id (id : string) (j : SpecJob) : SpecJob :=
  match sj_result_spec_id j with
  | Some k =>
      if String.eqb k id
      then mkSpecJob (sj_id j) (sj_status j) (sj_brief j) None (sj_duplicate_of j)
             (sj_score_similarity j) (sj_error j) (sj_created_at j) (sj_started_at j)
             (sj_finished_at j)
      else j
  | None => j
  end.

(** DELETE FROM game_specs WHERE id = $1.  A code job that references the
    row refuses the statement; the rows of game_spec_states go with the
    spec (ON DELETE CASCADE) and gen_spec_jobs forgets it (ON DELETE SET
    NULL). *)
Definition delete_game_spec (d : DB) (id : string) : DbError + DB :=
  if (spec_exists d id &&
      existsb (fun j => String.eqb (cj_game_spec_id j) id) (code_jobs d))%bool
  then inl (ForeignKeyViolation "code_jobs_game_spec_id_fkey")
  else inr (mkDB (filter (fun r => negb (String.eqb (gs_id r) id)) (game_specs d))
              (map (clear_result_spec_id id) (gen_spec_jobs d))
              (code_jobs d)
              (filter (fun l => negb (String.eqb (sl_game_spec_id l) id))
                 (game_spec_states d))).

(* ----------------------------------------------------------------- *)
(** *** Bodies of the answers *)

Record JobStatusResp : Type := mkJobStatusResp {
  js_Status : string;
  js_ResultSpecID : option string;
  js_DuplicateList : list SimilarSpec;
  js_Error : option string
}.

(** The [item] of ListSpecs. *)
Record item : Type := mkItem {
  it_ID : string;
  it_Title : string;
  it_Brief : string;
  it_State : string;
  it_CreatedAt : Z
}.

(** The [StateLog] of GetSpec and GetSpecStateLogs. *)
Record StateLogView : Type := mkStateLogView {
  sv_StateBefore : option string;
  sv_StateAfter : string;
  sv_Detail : option string;
  sv_CreatedAt : Z
}.

(** The map GetSpec answers with; the two session entries are present
    only when the spec has a session. *)
Record SpecView : Type := mkSpecView {
  v_id : string;
  v_title : string;
  v_brief : string;
  v_spec_markdown : string;
  v_spec_json : GoMap;
  v_state : string;
  v_state_logs : list StateLogView;
  v_devin_session_id : option string;
  v_devin_session_url : option string
}.

Record StateLogsBody : Type := mkStateLogsBody {
  lb_spec_id : string;
  lb_state_logs : list StateLogView
}.

Record DeleteBody : Type := mkDeleteBody {
  del_message : string;
  del_id : string;
  del_git_cleanup : string;
  del_git_cleanup_warning : option string
}.

Record DevinTaskBody : Type := mkDevinTaskBody {
  dt_message : string;
  dt_spec_id : string;
  dt_game_title : string;
  dt_session_id : string;
  dt_session_url : string;
  dt_repository : string;
  dt_status : string
}.

Record RetryBody : Type := mkRetryBody {
  rb_job_id : string;
  rb_status : string;
  rb_message : string
}.

Definition item_of (r : GameSpec) : item :=
  mkItem (gs_id r) (gs_title r) (gs_brief r) (gs_state r) (gs_created_at r).

Definition state_log_view (l : StateLog) : StateLogView :=
  mkStateLogView (sl_state_before l) (sl_state_after l) (sl_detail l) (sl_created_at l).

(* ----------------------------------------------------------------- *)
(** *** Queries *)

(** GetJob: the titles of the duplicates are read back from game_specs
    (a read that fails leaves the title empty) and their scores are not
    stored. *)
Definition GetJob (id : string) (d : DB) : Answer JobStatusResp :=
  match find_spec_job d id with
  | None => Refused 404 "job not found"
  | Some j =>
      let dupIDs := match sj_duplicate_of j with Some l => l | None => [] end in
      Sent 200
        (mkJobStatusResp (sj_status j) (sj_result_spec_id j)
           (if (0 <? Z.of_nat (List.length dupIDs))
            then map (fun d' => mkSimilarSpec d' (select_title d d') 0%float) dupIDs
            else [])
           (sj_error j))
  end.

Definition ListSpecs (d : DB) : Answer (list item) :=
  Sent 200 (map item_of (select_recent_specs d)).

Section Queries.
Variable x : SpecWorld.

(** GetSpec, with the state and the state logs.  The query of the state
    logs has no way to fail here, so the branch that only logs its error is
    not represented. *)
Definition GetSpec (id : string) (d : DB) : Answer SpecView :=
  match find_spec d id with
  | None =>
      if no_rows_is_sql_ErrNoRows x then Refused 404 "Spec not found"
      else Refused 500 "Database error"
  | Some spec =>
      match as_map (gs_spec_json spec) with
      | Err _ => Refused 500 "Failed to parse spec JSON"
      | Ok specJSON =>
          let stateLogs := map state_log_view (select_state_logs d id) in
          let session :=
            match gs_devin_session_id spec with
            | Some sid => if negb (is_empty sid) then Some sid else None
            | None => None
            end in
          Sent 200
            (mkSpecView (gs_id spec) (gs_title spec) (gs_brief spec) (gs_spec_markdown spec)
               specJSON (gs_state spec) stateLogs session
               (option_map (fun sid => "https://app.devin.ai/sessions/" ++ sid) session))
      end
  end.

End Queries.

Definition GetSpecStateLogs (id : string) (d : DB) : Answer StateLogsBody :=
  if negb (spec_exists d id) then Refused 404 "Spec not found"
  else Sent 200 (mkStateLogsBody id (map state_log_view (select_state_logs d id))).

(* ----------------------------------------------------------------- *)
(** *** The git driver: a helper of an earlier revision *)

(** safeSubstring (an earlier revision of the git driver); [None] is the
    run-time panic of the slice expression [s[:length]]. *)
Definition safeSubstring (s : string) (length : Z) : option string :=
  if Z.of_nat (String.length s) <=? length then Some s
  else if length <? 0 then None
  else Some (String.substring 0 (Z.to_nat length) s).

(* ----------------------------------------------------------------- *)
(** *** Handlers that write *)

Section Cleanup.
Variable std : GoStd.
Variable w : World.
Variable x : SpecWorld.

(** The commit message of a removal. *)
Definition removal_message (gameTitle gameID : string) : string :=
  let commitTemplate := os_Getenv w "GIT_COMMIT_MESSAGE_TEMPLATE" in
  if is_empty commitTemplate
  then "Removed game folder for deleted spec: " ++ gameTitle ++ " (ID: " ++ gameID ++ ")"
  else fmt_Sprintf_ss std commitTemplate gameTitle gameID.

(** RemoveGameFolders: a pull that fails is only logged. *)
Definition RemoveGameFolders (g : GitRepo) (gameID gameTitle : string) : error :=
  if negb (IsConfigured g) then Some "git repository not configured"
  else
    let _ := pullFromRemote w g in
    let folderPath := filepath_Join std (RepoPath g) gameID in
    if os_Stat_IsNotExist w folderPath then None
    else
      match os_RemoveAll x folderPath with
      | Some e => Some ("failed to remove folder " ++ gameID ++ ": " ++ e)
      | None =>
          match git w g ["add"; "-A"] with
          | Some e => Some ("failed to stage deletion: " ++ e)
          | None =>
              match git w g ["diff"; "--cached"; "--quiet"] with
              | None => None
              | Some _ =>
                  match git w g ["commit"; "-m"; removal_message gameTitle gameID] with
                  | Some e => Some ("failed to commit folder deletion: " ++ e)
                  | None =>
                      if AutoPush g then
                        match git w g ["push"; "origin"; "main"] with
                        | None => None
                        | Some _ =>
                            match git w g ["push"; "origin"; "master"] with
                            | None => None
                            | Some e => Some ("failed to push deletion to remote: " ++ e)
                            end
                        end
                      else None
                  end
              end
          end
      end.

(** The git part of DeleteSpec: [gitCleanupSuccess]. *)
Definition git_cleanup (id gameTitle : string) : bool :=
  let gitRepo := NewGitRepo w in
  if IsConfigured gitRepo then
    match InitializeRepo std w gitRepo with
    | Some _ => false
    | None =>
        match RemoveGameFolders gitRepo id gameTitle with
        | Some _ => false
        | None => true
        end
    end
  else false.

Definition deleted (id : string) (gitCleanupSuccess : bool) : DeleteBody :=
  if IsConfigured (NewGitRepo w) then
    if gitCleanupSuccess
    then mkDeleteBody "Spec deleted successfully" id "success" None
    else mkDeleteBody "Spec deleted successfully" id "failed"
           (Some "Git folder may still exist in repository")
  else mkDeleteBody "Spec deleted successfully" id "skipped - not configured" None.

(** DeleteSpec deletes a game spec from both database and vector database. *)
Definition DeleteSpec (id : string) : M St (Answer DeleteBody) (Answer DeleteBody) :=
  d <- get_db ;;
  let gameTitle := select_title d id in
  when (negb (spec_exists d id)) (exit (Refused 404 "Spec not found")) ;;
  let gitCleanupSuccess := git_cleanup id gameTitle in
  match http_DELETE x (llmBackend w ++ "/vector/spec/" ++ id) with
  | DeleteRequestErr _ => exit (Refused 500 "Failed to create delete request")
  | DeleteDoErr _ => exit (Refused 500 "Failed to delete from vector database")
  | DeleteResp status =>
      when (negb (status =? 200))
        (exit (Refused 500 "Failed to delete from vector database")) ;;
      err <- exec (fun d => inr (delete_code_jobs_of d id)) ;;
      check err (fun _ => Refused 500 "Failed to delete related code jobs") ;;
      err <- exec (fun d => delete_game_spec d id) ;;
      check err (fun _ => Refused 500 "Failed to delete from database") ;;
      ret (Sent 200 (deleted id gitCleanupSuccess))
  end.

(** RetryCodeJob creates a new code generation job for failed ones. *)
Definition RetryCodeJob (specID : string)
  : M St (Answer RetryBody * list Task) (Answer RetryBody * list Task) :=
  when (is_empty specID) (exit (ErrorJSON 400 "Spec ID is required", [])) ;;
  d <- get_db ;;
  match (match find_spec d specID with
         | Some r => as_map (gs_spec_json r)
         | None => Err (db_error_string NoRows)
         end) with
  | Err _ => exit (ErrorJSON 404 "Game spec not found", [])
  | Ok gameSpec =>
      let req := mkCreateCodeJobReq specID gameSpec "/tmp" in
      jobID <- new_uuid w ;;
      t <- now w ;;
      err <- exec (fun d => insert_code_job d jobID (cr_GameSpecID req) (cr_GameSpec req)
                              (cr_OutputPath req) t t) ;;
      check err (fun _ => (ErrorJSON 500 "Failed to create retry job", [])) ;;
      ret (Sent 200 (mkRetryBody jobID "queued" "Code generation retry started"),
           [GoProcessCodeGeneration jobID req])
  end.

End Cleanup.

(* ----------------------------------------------------------------- *)
(** *** Writing generated files (the worker that asked a model for code) *)


Section Files.
Variable std : GoStd.
Variable w : World.
Variable filepath_Dir : string -> string.        (* path/filepath.Dir *)
Variable os_WriteFile_bytes : string -> string -> error.
                                                  (* os.WriteFile(path, content, 0644) *)


End Files.

(* ----------------------------------------------------------------- *)
(** *** The git driver as it was while pushing was optional *)

Module earlier.
Section Driver.
Variable std : GoStd.
Variable w : World.
Variable x : SpecWorld.

(** NewGitRepo: GIT_AUTO_PUSH is read. *)
Definition NewGitRepo : GitRepo :=
  mkGitRepo (os_Getenv w "GIT_REPO_PATH") (os_Getenv w "GIT_REPO_URL")
    (os_Getenv w "GIT_USERNAME") (os_Getenv w "GIT_TOKEN")
    (String.eqb (os_Getenv w "GIT_AUTO_PUSH") "true").

(** CommitAndPush: the push is attempted only with AutoPush. *)
Definition CommitAndPush (g : GitRepo) (gamePath gameTitle gameID : string) : error :=
  match pullFromRemote w g with
  | Some e => Some ("failed to pull latest changes: " ++ e)
  | None =>
      match git w g ["add"; gameID] with
      | Some e => Some ("failed to add files to git: " ++ e)
      | None =>
          match git w g ["commit"; "-m"; commit_message std w gameTitle gameID] with
          | Some e => Some ("failed to commit changes: " ++ e)
          | None =>
              if AutoPush g then
                match git w g ["push"; "origin"; "main"] with
                | None => None
                | Some _ =>
                    match git w g ["push"; "origin"; "master"] with
                    | None => None
                    | Some _ =>
                        match git w g ["push"; "-u"; "origin"; "main"] with
                        | None => None
                        | Some e => Some ("failed to push to remote: " ++ e)
                        end
                    end
                end
              else None
          end
      end
  end.

(** RemoveGameFolders: a pull that fails ends the removal. *)
Definition RemoveGameFolders (g : GitRepo) (gameID gameTitle : string) : error :=
  if negb (IsConfigured g) then Some "git repository not configured"
  else
    match pullFromRemote w g with
    | Some e => Some ("failed to pull latest changes: " ++ e)
    | None =>
        let folderPath := filepath_Join std (RepoPath g) gameID in
        if os_Stat_IsNotExist w folderPath then None
        else
          match os_RemoveAll x folderPath with
          | Some e => Some ("failed to remove folder " ++ gameID ++ ": " ++ e)
          | None =>
              match git w g ["add"; "-A"] with
              | Some e => Some ("failed to stage deletion: " ++ e)
              | None =>
                  match git w g ["diff"; "--cached"; "--quiet"] with
                  | None => None
                  | Some _ =>
                      match git w g ["commit"; "-m"; removal_message std w gameTitle gameID] with
                      | Some e => Some ("failed to commit folder deletion: " ++ e)
                      | None =>
                          if AutoPush g then
                            match git w g ["push"; "origin"; "main"] with
                            | None => None
                            | Some _ =>
                                match git w g ["push"; "origin"; "master"] with
                                | None => None
                                | Some e => Some ("failed to push deletion to remote: " ++ e)
                                end
                            end
                          else None
                      end
                  end
              end
          end
    end.

End Driver.
End earlier.

(* ----------------------------------------------------------------- *)
(** *** The handler of agent tasks *)

Module handlers.
Section Handler.
Variable std : GoStd.
Variable w : World.
Variable x : SpecWorld.

(** CreateDevinTask creates a Devin task for a specific game spec. *)
Definition CreateDevinTask (specID : string)
  : M St (Answer DevinTaskBody) (Answer DevinTaskBody) :=
  when (is_empty specID) (exit (ErrorJSON 400 "Spec ID is required")) ;;
  d <- get_db ;;
  match find_spec d specID with
  | None =>
      exit (if no_rows_is_sql_ErrNoRows x then ErrorJSON 404 "Game spec not found"
            else ErrorJSON 500 "Database error")
  | Some row =>
      let gameTitle := gs_title row in
      let gitRepo := NewGitRepo w in
      when (negb (IsConfigured gitRepo))
        (exit (ErrorJSON 400
                 "Git repository not configured. Devin tasks require git integration.")) ;;
      match CreateDevinTask std w gitRepo specID gameTitle with
      | Err e => exit (ErrorJSON 500 ("Failed to create Devin task: " ++ e))
      | Ok sessionID =>
          _ <- exec (fun d => inr (update_devin_session_id d sessionID specID)) ;;
          let cleanRepoURL := TrimSuffix (os_Getenv w "GIT_REPO_URL") ".git" in
          ret (Sent 200
                 (mkDevinTaskBody "Devin task created successfully" specID gameTitle
                    sessionID ("https://app.devin.ai/sessions/" ++ sessionID)
                    (cleanRepoURL ++ "/tree/main/" ++ specID) "success"))
      end
  end.

End Handler.
End handlers.

(* ================================================================= *)
(** ** Vocabulary of the properties of these handlers *)

(** A deployment whose index deletes on request and whose folders can be
    removed. *)
Definition sample_cleanup : SpecWorld := {|
  http_DELETE := fun _ => DeleteResp 200;
  os_RemoveAll := fun _ => None;
  no_rows_is_sql_ErrNoRows := false
|}.

(** Whether an outbound call was answered 200 with a body that decodes. *)
Definition answers_ok {A} (r : HttpReply A) : bool :=
  match r with
  | HttpResp status (Ok _) => status =? 200
  | _ => false
  end.


(** The states the backend writes. *)
Definition written_states : list string :=
  [StateCreating; StateGitIniting; StateGitInited; StateCodeGenerating].

(** The transitions recorded for one spec, in table order. *)
Definition logs_of (d : DB) (id : string) : list StateLog :=
  filter (fun l => String.eqb (sl_game_spec_id l) id) (game_spec_states d).

(** Follow transitions from state [s]: each must start in the state the
    previous one ended in; the result is the state reached. *)
Fixpoint replay (s : string) (logs : list (option string * string)) : option string :=
  match logs with
  | [] => Some s
  | (Some before, after) :: rest => if String.eqb before s then replay after rest else None
  | (None, _) :: _ => None
  end.

Definition transition (l : StateLog) : option string * string :=
  (sl_state_before l, sl_state_after l).


(** State tracking is consistent: every record belongs to a spec, the
    records of a spec lead from [creating] to its current state, and only
    states of [written_states] occur. *)
Definition tracked_ok (d : DB) : Prop :=
  (forall l, In l (game_spec_states d) -> spec_exists d (sl_game_spec_id l) = true) /\
  (forall r, In r (game_specs d) ->
             replay StateCreating (map transition (logs_of d (gs_id r))) = Some (gs_state r)) /\
  Forall (fun l => In (sl_state_after l) written_states) (game_spec_states d) /\
  Forall (fun r => In (gs_state r) written_states) (game_specs d).

(** Every code job belongs to a spec. *)
Definition jobs_ok (d : DB) : Prop :=
  forall j, In j (code_jobs d) -> spec_exists d (cj_game_spec_id j) = true.

(** Every result of a spec job is a stored spec. *)
Definition results_ok (d : DB) : Prop :=
  forall j id, In j (gen_spec_jobs d) -> sj_result_spec_id j = Some id ->
               spec_exists d id = true.

(** No row refers to a spec that is gone. *)
Definition refs_ok (d : DB) : Prop := jobs_ok d /\ results_ok d.

Section Operations.
Variable std : GoStd.

(** An operation of the backend, the handlers of this part included. *)
Inductive operation : DB -> DB -> Prop :=
| operation_step d d' : step std d d' -> operation d d'
| operation_DeleteSpec w x id d :
    operation d (st_db (fst (run (DeleteSpec std w x id) (start d))))
| operation_CreateDevinTask w x specID d :
    operation d (st_db (fst (run (handlers.CreateDevinTask std w x specID) (start d))))
| operation_RetryCodeJob w specID d :
    operation d (st_db (fst (run (RetryCodeJob w specID) (start d)))).

Inductive reachable_all : DB -> Prop :=
| reachable_all_empty : reachable_all empty_db
| reachable_all_operation d d' : reachable_all d -> operation d d' -> reachable_all d'.

End Operations.

(** The code [m] keeps the invariant [I] of the database. *)
Definition keeps {R A : Type} (I : DB -> Prop) (m : M St R A) : Prop :=
  forall s, I (st_db s) -> I (st_db (fst (m s))).





(** Worlds in which one gateway fails. *)
Definition llm_down_world (t0 : Z) (uuids : list string) : World := {|
  os_Getenv := git_env;
  uuid_New := nth_uuid uuids;
  time_Now := fun n => t0 + Z.of_nat n;
  llm_generate_spec := fun _ _ => HttpErr "connection refused";
  vector_search := fun _ _ => HttpResp 200 (Ok []);
  vector_upsert := fun _ _ => HttpResp 200 (Ok tt);
  devin_sessions := fun _ _ _ => DevinResp 200 "{session_id: devin-abc123}";
  exec_git := fun _ _ => None;
  os_MkdirAll := fun _ => None;
  os_WriteFile := fun _ => None;
  os_Stat_IsNotExist := fun _ => false
|}.


(** The database after the worker has run on the queued job of Dodge Rush. *)
Definition db_after_worker : DB :=
  st_db (fst (run (processCodeGeneration sample_std (happy_world 3000 [] []) "cjob-1" job_req)
                (start db_one_job))).

(** What a worker on the job [jobID] of the spec [specID] leaves as it
    is between [d0] and [d]: the spec jobs; of every code job the id, the
    spec, the document and the creation time, and every other code job
    altogether; of every spec all but the state and the session, and every
    other spec altogether; the state records of the other specs. *)
Definition untouched (jobID specID : string) (d0 d : DB) : Prop :=
  gen_spec_jobs d = gen_spec_jobs d0 /\
  map (fun j => (cj_id j, cj_game_spec_id j, cj_game_spec j, cj_created_at j)) (code_jobs d)
    = map (fun j => (cj_id j, cj_game_spec_id j, cj_game_spec j, cj_created_at j))
        (code_jobs d0) /\
  (forall k, k <> jobID -> find_code_job d k = find_code_job d0 k) /\
  map (fun r => (gs_id r, gs_title r, gs_brief r, gs_spec_markdown r, gs_spec_json r,
                 gs_spec_hash r, gs_created_at r)) (game_specs d)
    = map (fun r => (gs_id r, gs_title r, gs_brief r, gs_spec_markdown r, gs_spec_json r,
                     gs_spec_hash r, gs_created_at r)) (game_specs d0) /\
  (forall id, id <> specID -> find_spec d id = find_spec d0 id) /\
  filter (fun l => negb (String.eqb (sl_game_spec_id l) specID)) (game_spec_states d)
    = filter (fun l => negb (String.eqb (sl_game_spec_id l) specID)) (game_spec_states d0).

(** The git command of an invocation. *)
Definition subcommand (args : list string) : string :=
  match args with
  | cmd :: _ => cmd
  | [] => ""
  end.

(** * Properties *)

(** ** Lists of rows *)

Section Rows.
Context {A : Type} (key : A -> string).

Definition has_key (k : string) (l : list A) : bool :=
  existsb (fun r => String.eqb (key r) k) l.

Lemma update_where_fresh k f l :
  has_key k l = false -> update_where key k f l = l.
Proof.
  unfold has_key, update_where.
  induction l as [|r l IH]; simpl; intro H; [reflexivity|].
  apply orb_false_iff in H as [Hr Hl].
  rewrite Hr, (IH Hl). reflexivity.
Qed.

Lemma update_where_app k f l1 l2 :
  update_where key k f (l1 ++ l2) = (update_where key k f l1 ++ update_where key k f l2)%list.
Proof. apply map_app. Qed.

Lemma find_app_fresh k l r :
  has_key k l = false -> key r = k ->
  find (fun x => String.eqb (key x) k) (l ++ [r])%list = Some r.
Proof.
  unfold has_key.
  induction l as [|x l IH]; simpl; intros H Hr.
  - rewrite Hr, String.eqb_refl. reflexivity.
  - apply orb_false_iff in H as [Hx Hl]. rewrite Hx. auto.
Qed.

(** Updating by key rewrites the row a lookup by that key finds. *)
Lemma find_update_where k f l r :
  (forall x, key (f x) = key x) ->
  find (fun x => String.eqb (key x) k) l = Some r ->
  find (fun x => String.eqb (key x) k) (update_where key k f l) = Some (f r).
Proof.
  intros Hf. unfold update_where.
  induction l as [|x l IH]; simpl; [discriminate|].
  destruct (String.eqb (key x) k) eqn:E.
  - intros [= ->]. rewrite Hf, E. reflexivity.
  - rewrite E. exact IH.
Qed.

Lemma has_key_update_where k k' f l :
  (forall x, key (f x) = key x) ->
  has_key k' (update_where key k f l) = has_key k' l.
Proof.
  intros Hf. unfold has_key, update_where.
  induction l as [|x l IH]; simpl; [reflexivity|].
  rewrite IH. destruct (String.eqb (key x) k); [rewrite Hf|]; reflexivity.
Qed.

Lemma find_some_has_key k l r :
  find (fun x => String.eqb (key x) k) l = Some r -> has_key k l = true.
Proof.
  unfold has_key. induction l as [|x l IH]; simpl; [discriminate|].
  destruct (String.eqb (key x) k); [reflexivity | exact IH].
Qed.

End Rows.

Lemma is_empty_false s : s <> "" -> is_empty s = false.
Proof. intro H. unfold is_empty. now apply String.eqb_neq. Qed.

(** ** State tracker *)

Lemma set_state_id s r : gs_id (set_state s r) = gs_id r.
Proof. reflexivity. Qed.

Lemma spec_exists_update_state d s id id' :
  spec_exists (update_state d s id) id' = spec_exists d id'.
Proof. apply (has_key_update_where gs_id), set_state_id. Qed.

(** C6. For every existing spec and every string [newState], known label
    or not, [updateGameSpecState] returns no error, the row of the spec
    carries [newState] afterwards, and exactly one record is appended to
    the history, whose [state_before] is the state read before the update
    and whose [state_after] is [newState]. *)
Theorem updateGameSpecState_accepts_any_state :
  forall (now : Z) (d : DB) (specID newState detail : string) (r : GameSpec),
    find_spec d specID = Some r ->
    let (d', err) := updateGameSpecState now d specID newState detail in
    err = None /\
    find_spec d' specID = Some (set_state newState r) /\
    game_spec_states d' =
      (game_spec_states d ++
       [mkStateLog specID (Some (gs_state r)) newState (Some detail) now])%list.
Proof.
  intros now d specID newState detail r Hr.
  unfold updateGameSpecState, select_state. rewrite Hr.
  unfold insert_state_log. rewrite spec_exists_update_state.
  unfold spec_exists. fold (has_key gs_id specID (game_specs d)).
  rewrite (find_some_has_key gs_id _ _ _ Hr).
  repeat split.
  apply (find_update_where gs_id); [apply set_state_id | exact Hr].
Qed.

(** A spec in state [creating] accepts a label outside the state graph. *)
Lemma updateGameSpecState_accepts_any_state_witness :
  let (d', err) := updateGameSpecState 2000 db_one_spec "spec-1" "no_such_state" "test" in
  err = None /\
  spec_state d' "spec-1" = Some "no_such_state" /\
  ~ In "no_such_state" known_states /\
  game_spec_states d' =
    (game_spec_states db_one_spec ++
     [mkStateLog "spec-1" (Some "creating") "no_such_state" (Some "test") 2000])%list.
Proof.
  pose proof (updateGameSpecState_accepts_any_state 2000 db_one_spec "spec-1"
                "no_such_state" "test" _ eq_refl) as H.
  destruct (updateGameSpecState 2000 db_one_spec "spec-1" "no_such_state" "test") as [d' err].
  destruct H as (He & Hf & Hl).
  repeat split; try assumption.
  - unfold spec_state. rewrite Hf. reflexivity.
  - simpl. intros [H|[H|[H|[H|[H|[]]]]]]; discriminate H.
Defined.

(** ** Code jobs: status updates *)

Lemma set_job_status_id st p l t r : cj_id (set_job_status st p l t r) = cj_id r.
Proof. reflexivity. Qed.







(** ** Code jobs: the latest job of a spec *)

Lemma In_insert_desc x j l : In x (insert_desc j l) <-> x = j \/ In x l.
Proof.
  induction l as [|k l IH]; simpl.
  - intuition congruence.
  - destruct (cj_created_at k <=? cj_created_at j); simpl; [intuition congruence|].
    rewrite IH. intuition congruence.
Qed.

Lemma In_order_by_created_at_desc x l : In x (order_by_created_at_desc l) <-> In x l.
Proof.
  induction l as [|j l IH]; simpl; [tauto|].
  rewrite In_insert_desc, IH. intuition congruence.
Qed.

Lemma insert_desc_sorted j l : newest_first l -> newest_first (insert_desc j l).
Proof.
  unfold newest_first. induction 1 as [|k l Hl IH Hk]; simpl.
  - constructor; constructor.
  - destruct (cj_created_at k <=? cj_created_at j) eqn:E.
    + apply Z.leb_le in E. constructor.
      * constructor; assumption.
      * constructor; [exact E|].
        rewrite Forall_forall in *. intros x Hx. specialize (Hk x Hx). lia.
    + apply Z.leb_gt in E. constructor; [exact IH|].
      rewrite Forall_forall in *. intros x Hx.
      apply In_insert_desc in Hx as [->|Hx]; [lia | auto].
Qed.

Lemma order_by_created_at_desc_sorted l : newest_first (order_by_created_at_desc l).
Proof.
  induction l as [|j l IH]; simpl; [constructor | now apply insert_desc_sorted].
Qed.



(** The later of the two jobs is the one reported; a spec without jobs is
    reported as not started. *)
Example latest_of_two_jobs :
  GetCodeJobBySpecID "spec-1" db_two_jobs
  = JSONResponse 200
      (BCodeJob (mkCodeJobStatusResp "cjob-2" "queued" 0 (Some "/tmp") None None [] 5000 5000)) /\
  GetCodeJobBySpecID "spec-2" db_two_jobs = JSONResponse 200 BNotStarted.
Proof. vm_compute. split; reflexivity. Qed.

(** ** Symbolic execution of handlers and workers *)

(** Unfold the monad and the effects, leaving statements, oracles and the
    named blocks of the handlers folded. *)
Ltac run_code :=
  cbv beta iota zeta delta
    [run bind ret exit when check exec exec_now now new_uuid get_db put_db track_state
     updateJobStatus post_generate_spec post_vector_search post_vector_upsert
     start fst snd st_db st_clock st_uuids st_updates negb].

(** Projections of a database rebuilt by the [with_] functions. *)
Ltac tables :=
  cbn [game_specs gen_spec_jobs code_jobs game_spec_states
       with_game_specs with_gen_spec_jobs with_code_jobs with_game_spec_states
       update_state update_devin_session_id update_job_status update_output_path].

Lemma run_bind {S R A} (m : M S R A) (k : A -> M S R R) s s1 a :
  m s = (s1, inl a) -> run (bind m k) s = run (k a) s1.
Proof. intro H. unfold run, bind. rewrite H. reflexivity. Qed.

Lemma update_where_single {A} (key : A -> string) k f r :
  key r = k -> update_where key k f [r] = [f r].
Proof. intros <-. unfold update_where. simpl. now rewrite String.eqb_refl. Qed.

(** ** Spec jobs: up to the similarity search *)

Lemma PostSpecJob_after_search std w d req g similar :
  req_Brief req <> "" ->
  spec_job_exists d (uuid_New w 0) = false ->
  llm_generate_spec w (llmBackend w) (mkGenSpecReq (req_Brief req) (req_Constraints req))
    = HttpResp 200 (Ok g) ->
  vector_search w (llmBackend w) (mkSearchReq (normText std g) (topK std w) (threshold std w))
    = HttpResp 200 (Ok similar) ->
  run (PostSpecJob std w (Ok req)) (start d)
  = run (duplicate_decision_of std w (uuid_New w 0) similar ;;
         persist_spec std w (uuid_New w 0) req g) (after_search w d req).
Proof.
  intros Hbrief Hfresh Hllm Hsearch.
  unfold PostSpecJob. run_code.
  rewrite (is_empty_false _ Hbrief). run_code.
  unfold insert_spec_job. rewrite Hfresh. run_code.
  unfold update_spec_job_running. run_code.
  rewrite Hllm. change (200 =? 200) with true. run_code.
  rewrite Hsearch. change (200 =? 200) with true. run_code.
  unfold after_search. tables.
  rewrite update_where_app, (update_where_fresh sj_id _ _ _ Hfresh).
  rewrite update_where_single by reflexivity.
  reflexivity.
Qed.


Lemma duplicate_decision_of_not_taken std w jobID similar s :
  is_duplicate std w similar = false ->
  duplicate_decision_of std w jobID similar s = (s, inl tt).
Proof.
  destruct similar as [|first rest]; [reflexivity|]. cbn [is_duplicate]. intro H.
  unfold duplicate_decision_of. rewrite H. reflexivity.
Qed.

(** ** Spec jobs: the duplicate decision *)



(** ** Spec jobs: a new spec and its hash *)

Lemma updateGameSpecState_found now d specID newState detail r :
  find_spec d specID = Some r ->
  updateGameSpecState now d specID newState detail
  = (with_game_spec_states (update_state d newState specID)
       (game_spec_states d ++
        [mkStateLog specID (Some (gs_state r)) newState (Some detail) now])%list,
     None).
Proof.
  intro Hr. unfold updateGameSpecState, select_state. rewrite Hr.
  unfold insert_state_log. rewrite spec_exists_update_state.
  unfold spec_exists. fold (has_key gs_id specID (game_specs d)).
  rewrite (find_some_has_key gs_id _ _ _ Hr). reflexivity.
Qed.

Lemma persist_spec_inserts std w jobID req g hash s :
  hashSpec std (g_SpecJSON g) = Ok hash ->
  spec_exists (st_db s) (uuid_New w (st_uuids s)) = false ->
  hash_exists (st_db s) hash = false ->
  game_specs (st_db (fst (run (persist_spec std w jobID req g) s)))
  = (game_specs (st_db s) ++
     [new_game_spec (uuid_New w (st_uuids s)) (req_Brief req) g hash
        (time_Now w (st_clock s))])%list.
Proof.
  intros Hhash Hid Hnew. destruct s as [d c u ups]. cbn [st_db st_uuids st_clock] in *.
  unfold persist_spec. rewrite Hhash. run_code.
  unfold insert_game_spec.
  change (gs_id (new_game_spec ?i _ _ _ _)) with i.
  change (gs_spec_hash (new_game_spec _ _ _ ?h _)) with h.
  rewrite Hid, Hnew. run_code.
  erewrite updateGameSpecState_found
    by (unfold find_spec; tables; apply (find_app_fresh gs_id); [exact Hid | reflexivity]).
  assert (Hrow :
    game_specs
      (with_game_spec_states
         (update_state
            (with_game_specs d
               (game_specs d ++
                [new_game_spec (uuid_New w u) (req_Brief req) g hash (time_Now w c)]))
            StateCreating (uuid_New w u))
         (game_spec_states
            (with_game_specs d
               (game_specs d ++
                [new_game_spec (uuid_New w u) (req_Brief req) g hash (time_Now w c)])) ++
          [mkStateLog (uuid_New w u)
             (Some (gs_state (new_game_spec (uuid_New w u) (req_Brief req) g hash
                                (time_Now w c))))
             StateCreating (Some "Game spec created") (time_Now w (S c))]))
    = (game_specs d ++
       [new_game_spec (uuid_New w u) (req_Brief req) g hash (time_Now w c)])%list).
  { tables. rewrite update_where_app, (update_where_fresh gs_id _ _ _ Hid).
    rewrite update_where_single by reflexivity. reflexivity. }
  destruct (vector_upsert w (llmBackend w) _) as [e|status body]; [exact Hrow|].
  destruct (status =? 200); [|exact Hrow].
  unfold update_spec_job_completed.
  match goal with |- context [if ?b then _ else _] => destruct b end; exact Hrow.
Qed.

(** The insert is refused when the id or the hash is taken. *)
Lemma persist_spec_refused std w jobID req g hash s :
  hashSpec std (g_SpecJSON g) = Ok hash ->
  hash_exists (st_db s) hash = true ->
  exists c,
    run (persist_spec std w jobID req g) s
    = (mkSt (st_db s) (S (st_clock s)) (S (st_uuids s)) (st_updates s),
       (FiberError 500 (db_error_string (UniqueViolation c)), [])) /\
    (spec_exists (st_db s) (uuid_New w (st_uuids s)) = false ->
     c = "game_specs_spec_hash_key").
Proof.
  intros Hhash Hold. destruct s as [d c u ups]. cbn [st_db st_uuids st_clock st_updates] in *.
  unfold persist_spec. rewrite Hhash. run_code.
  unfold insert_game_spec.
  change (gs_id (new_game_spec ?i _ _ _ _)) with i.
  change (gs_spec_hash (new_game_spec _ _ _ ?h _)) with h.
  rewrite Hold.
  destruct (spec_exists d (uuid_New w u)).
  - exists "game_specs_pkey". split; [reflexivity | discriminate].
  - exists "game_specs_spec_hash_key". split; reflexivity.
Qed.




(** ** Spec jobs before state tracking *)

Lemma PostSpecJob_untracked_after_search std w d req g similar :
  req_Brief req <> "" ->
  spec_job_exists d (uuid_New w 0) = false ->
  llm_generate_spec w (llmvec w) (mkGenSpecReq (req_Brief req) (req_Constraints req))
    = HttpResp 200 (Ok g) ->
  vector_search w (llmvec w) (mkSearchReq (normText std g) (topK std w) (threshold std w))
    = HttpResp 200 (Ok similar) ->
  run (PostSpecJob_untracked std w (Ok req)) (start d)
  = run (duplicate_decision_of std w (uuid_New w 0) similar ;;
         persist_spec_untracked std w (uuid_New w 0) req g) (after_search w d req).
Proof.
  intros Hbrief Hfresh Hllm Hsearch.
  unfold PostSpecJob_untracked. run_code.
  rewrite (is_empty_false _ Hbrief). run_code.
  unfold insert_spec_job. rewrite Hfresh. run_code.
  unfold update_spec_job_running. run_code.
  rewrite Hllm. change (200 =? 200) with true. run_code.
  rewrite Hsearch. change (200 =? 200) with true. run_code.
  unfold after_search. tables.
  rewrite update_where_app, (update_where_fresh sj_id _ _ _ Hfresh).
  rewrite update_where_single by reflexivity.
  reflexivity.
Qed.

(** The earlier handler takes the duplicate decision the same way. *)
Lemma duplicate_decision_untracked std w d req g first rest :
  req_Brief req <> "" ->
  spec_job_exists d (uuid_New w 0) = false ->
  llm_generate_spec w (llmvec w) (mkGenSpecReq (req_Brief req) (req_Constraints req))
    = HttpResp 200 (Ok g) ->
  vector_search w (llmvec w) (mkSearchReq (normText std g) (topK std w) (threshold std w))
    = HttpResp 200 (Ok (first :: rest)) ->
  PrimFloat.leb (threshold std w) (sim_Score first) = true ->
  let (s', reply) := run (PostSpecJob_untracked std w (Ok req)) (start d) in
  reply = (JSONResponse 200 (BDuplicate (uuid_New w 0) (duplicate_list (first :: rest))), []) /\
  gen_spec_jobs (st_db s') =
    (gen_spec_jobs d ++ [duplicate_job w req (first :: rest) (sim_Score first)])%list /\
  game_specs (st_db s') = game_specs d.
Proof.
  intros Hbrief Hfresh Hllm Hsearch Hscore.
  rewrite (PostSpecJob_untracked_after_search std w d req g _ Hbrief Hfresh Hllm Hsearch).
  unfold duplicate_decision_of, after_search. run_code.
  rewrite Hscore. run_code.
  unfold update_spec_job_duplicate. run_code. tables.
  repeat split.
  rewrite update_where_app, (update_where_fresh sj_id _ _ _ Hfresh).
  rewrite update_where_single by reflexivity.
  reflexivity.
Qed.

(** ... and its insert is refused in the same way when the hash is taken. *)
Lemma persist_spec_untracked_refused std w jobID req g hash s :
  hashSpec std (g_SpecJSON g) = Ok hash ->
  hash_exists (st_db s) hash = true ->
  exists c,
    run (persist_spec_untracked std w jobID req g) s
    = (mkSt (st_db s) (S (st_clock s)) (S (st_uuids s)) (st_updates s),
       (FiberError 500 (db_error_string (UniqueViolation c)), [])) /\
    (spec_exists (st_db s) (uuid_New w (st_uuids s)) = false ->
     c = "game_specs_spec_hash_key").
Proof.
  intros Hhash Hold. destruct s as [d c u ups]. cbn [st_db st_uuids st_clock st_updates] in *.
  unfold persist_spec_untracked. rewrite Hhash. run_code.
  unfold insert_game_spec.
  change (gs_id (new_game_spec ?i _ _ _ _)) with i.
  change (gs_spec_hash (new_game_spec _ _ _ ?h _)) with h.
  rewrite Hold.
  destruct (spec_exists d (uuid_New w u)).
  - exists "game_specs_pkey". split; [reflexivity | discriminate].
  - exists "game_specs_spec_hash_key". split; reflexivity.
Qed.

Lemma persist_spec_untracked_inserts std w jobID req g hash s :
  hashSpec std (g_SpecJSON g) = Ok hash ->
  spec_exists (st_db s) (uuid_New w (st_uuids s)) = false ->
  hash_exists (st_db s) hash = false ->
  game_specs (st_db (fst (run (persist_spec_untracked std w jobID req g) s)))
  = (game_specs (st_db s) ++
     [new_game_spec (uuid_New w (st_uuids s)) (req_Brief req) g hash
        (time_Now w (st_clock s))])%list.
Proof.
  intros Hhash Hid Hnew. destruct s as [d c u ups]. cbn [st_db st_uuids st_clock] in *.
  unfold persist_spec_untracked. rewrite Hhash. run_code.
  unfold insert_game_spec.
  change (gs_id (new_game_spec ?i _ _ _ _)) with i.
  change (gs_spec_hash (new_game_spec _ _ _ ?h _)) with h.
  rewrite Hid, Hnew. run_code.
  destruct (vector_upsert w (llmvec w) _) as [e|status body]; [reflexivity|].
  destruct (status =? 200); [|reflexivity].
  unfold update_spec_job_completed.
  match goal with |- context [if ?b then _ else _] => destruct b end; reflexivity.
Qed.

(** The earlier handler inserts the hashed row under the same conditions. *)
Lemma new_spec_is_hashed_untracked std w d req g similar hash :
  req_Brief req <> "" ->
  spec_job_exists d (uuid_New w 0) = false ->
  llm_generate_spec w (llmvec w) (mkGenSpecReq (req_Brief req) (req_Constraints req))
    = HttpResp 200 (Ok g) ->
  vector_search w (llmvec w) (mkSearchReq (normText std g) (topK std w) (threshold std w))
    = HttpResp 200 (Ok similar) ->
  is_duplicate std w similar = false ->
  hashSpec std (g_SpecJSON g) = Ok hash ->
  spec_exists d (uuid_New w 1) = false ->
  hash_exists d hash = false ->
  game_specs (st_db (fst (run (PostSpecJob_untracked std w (Ok req)) (start d))))
  = (game_specs d ++
     [new_game_spec (uuid_New w 1) (req_Brief req) g hash (time_Now w 2)])%list.
Proof.
  intros Hbrief Hfresh Hllm Hsearch Hdup Hhash Hid Hnew.
  rewrite (PostSpecJob_untracked_after_search std w d req g _ Hbrief Hfresh Hllm Hsearch).
  rewrite (run_bind _ _ _ _ _ (duplicate_decision_of_not_taken std w _ _ _ Hdup)).
  apply (persist_spec_untracked_inserts std w _ req g hash (after_search w d req)); assumption.
Qed.

(** ** The worker *)

Ltac run_worker :=
  unfold processCodeGeneration, processCodeGeneration_untracked; run_code.

Lemma find_spec_update_job_status d jobID st p l t id :
  find_spec (update_job_status d jobID st p l t) id = find_spec d id.
Proof. reflexivity. Qed.

Lemma find_code_job_update_job_status d jobID st p l t :
  code_job_exists d jobID = true ->
  exists j, find_code_job (update_job_status d jobID st p l t) jobID = Some j /\
            cj_status j = st /\ cj_progress j = p /\ cj_logs j = l.
Proof.
  intro H. unfold code_job_exists in H.
  destruct (find_code_job d jobID) as [j|] eqn:F.
  - exists (set_job_status st p l t j). split; [|repeat split].
    apply (find_update_where cj_id); [apply set_job_status_id | exact F].
  - exfalso. apply existsb_exists in H as (x & Hx & Hk).
    apply (find_none _ _ F) in Hx. congruence.
Qed.

Lemma job_outcome_update_job_status s d jobID st p l t :
  st_db s = update_job_status d jobID st p l t ->
  code_job_exists d jobID = true ->
  job_outcome s jobID = Some (st, p, l).
Proof.
  intros E H. unfold job_outcome. rewrite E.
  destruct (find_code_job_update_job_status d jobID st p l t H) as (j & -> & <- & <- & <-).
  reflexivity.
Qed.

Lemma code_job_exists_update_job_status d jobID st p l t k :
  code_job_exists (update_job_status d jobID st p l t) k = code_job_exists d k.
Proof. apply (has_key_update_where cj_id), set_job_status_id. Qed.

Lemma find_spec_update_state d st id r :
  find_spec d id = Some r ->
  find_spec (update_state d st id) id = Some (set_state st r).
Proof. apply (find_update_where gs_id), set_state_id. Qed.

Lemma find_spec_with_game_spec_states d l id :
  find_spec (with_game_spec_states d l) id = find_spec d id.
Proof. reflexivity. Qed.

Lemma spec_state_found d id r :
  find_spec d id = Some r -> spec_state d id = Some (gs_state r).
Proof. intro H. unfold spec_state. now rewrite H. Qed.

(** Look a spec up in a database built by the worker. *)
Ltac lookup_spec :=
  repeat first [ rewrite find_spec_update_job_status
               | rewrite find_spec_with_game_spec_states
               | apply find_spec_update_state ];
  eassumption.

(** Resolve the call of the state tracker that writes [st], given the row
    it finds. *)
Ltac track st r :=
  match goal with
  | |- context [updateGameSpecState ?t ?d0 ?i st ?det] =>
      rewrite (updateGameSpecState_found t d0 i st det r) by lookup_spec
  end.

Lemma code_job_exists_tracked d st id l k :
  code_job_exists (with_game_spec_states (update_state d st id) l) k = code_job_exists d k.
Proof. reflexivity. Qed.

(** The job is still there in a database built by the worker. *)
Ltac job_exists :=
  repeat first [ rewrite code_job_exists_update_job_status
               | rewrite code_job_exists_tracked ];
  assumption.

(** C3. When a worker run gets as far as the agent (the spec is read back,
    the git driver is configured, the folder is created, commit and push
    succeed) and [CreateDevinTask] fails, the job ends as failed with
    progress 85 and the error as its only log line, the progress values
    written are 20, 40, 60, 80, 85, 85, and the state of the spec is
    [code_generating]. *)
Theorem agent_failure_fails_job_at_85 :
  forall (std : GoStd) (w : World) (d : DB) (jobID : string) (req : CreateCodeJobReq)
         (row : GameSpec) (specJSON : GoMap) (gamePath e : string),
    code_job_exists d jobID = true ->
    find_spec d (cr_GameSpecID req) = Some row ->
    as_map (gs_spec_json row) = Ok specJSON ->
    IsConfigured (NewGitRepo w) = true ->
    CreateGameFolder std w (NewGitRepo w) (cr_GameSpecID req) (gs_title row)
      (combined_spec row specJSON) = Ok gamePath ->
    CommitAndPush std w (NewGitRepo w) gamePath (gs_title row) (cr_GameSpecID req) = None ->
    CreateDevinTask std w (NewGitRepo w) (cr_GameSpecID req) (gs_title row) = Err e ->
    let s' := fst (run (processCodeGeneration std w jobID req) (start d)) in
    job_outcome s' jobID = Some ("failed", 85, ["Failed to create Devin task: " ++ e]) /\
    progress_written s' = [20; 40; 60; 80; 85; 85] /\
    spec_state (st_db s') (cr_GameSpecID req) = Some "code_generating".
Proof.
  intros std w d jobID req row specJSON gamePath e Hjob Hrow Hjson Hconf Hfolder Hpush Hdevin.
  run_worker.
  rewrite find_spec_update_job_status, Hrow, Hjson. run_code.
  rewrite Hconf. run_code.
  rewrite Hfolder. run_code.
  rewrite Hpush. run_code.
  track StateGitInited row. run_code.
  track StateCodeGenerating (set_state StateGitInited row). run_code.
  rewrite Hdevin. run_code.
  split; [|split].
  - eapply job_outcome_update_job_status; [reflexivity | job_exists].
  - reflexivity.
  - cbn [st_db]. erewrite spec_state_found by lookup_spec. reflexivity.
Qed.

(** The queued job of Dodge Rush, run while the agent gateway answers 500. *)
Lemma agent_failure_fails_job_at_85_witness :
  let w := devin_500_world 3000 [] in
  let s' := fst (run (processCodeGeneration sample_std w "cjob-1" job_req) (start db_one_job)) in
  job_outcome s' "cjob-1"
    = Some ("failed", 85,
            ["Failed to create Devin task: " ++
             "Devin API returned status 500: Internal Server Error"]) /\
  progress_written s' = [20; 40; 60; 80; 85; 85] /\
  spec_state (st_db s') "spec-1" = Some "code_generating".
Proof.
  intro w.
  eapply (agent_failure_fails_job_at_85 sample_std w db_one_job "cjob-1" job_req);
    [ reflexivity | reflexivity | reflexivity | reflexivity | reflexivity | reflexivity
    | reflexivity ].
Defined.

Lemma find_code_job_update_output_path d p jobID j :
  find_code_job d jobID = Some j ->
  find_code_job (update_output_path d p jobID) jobID = Some (set_output_path p j).
Proof. apply (find_update_where cj_id). reflexivity. Qed.

(** The error of [CommitAndPush] when the commit is made and no push goes
    through. *)
Lemma CommitAndPush_push_error std w g gamePath gameTitle gameID e1 e2 e3 :
  pullFromRemote w g = None ->
  git w g ["add"; gameID] = None ->
  (forall msg, git w g ["commit"; "-m"; msg] = None) ->
  git w g ["push"; "origin"; "main"] = Some e1 ->
  git w g ["push"; "origin"; "master"] = Some e2 ->
  git w g ["push"; "-u"; "origin"; "main"] = Some e3 ->
  CommitAndPush std w g gamePath gameTitle gameID = Some ("failed to push to remote: " ++ e3).
Proof.
  intros Hpull Hadd Hcommit H1 H2 H3. unfold CommitAndPush.
  rewrite Hpull, Hadd, Hcommit, H1, H2, H3. reflexivity.
Qed.

Lemma CreateGameFolder_created std w g gameID gameTitle gameSpec :
  os_MkdirAll w (filepath_Join std (RepoPath g) gameID) = None ->
  CreateGameFolder std w g gameID gameTitle gameSpec
  = Ok (filepath_Join std (RepoPath g) gameID).
Proof. intro H. unfold CreateGameFolder. rewrite H. reflexivity. Qed.

(** C2, as the code has it. When the git driver is configured, the folder
    is created, the commit is made and all three pushes fail, the worker
    ends the job as failed with progress 0 and the push error as its only
    log line, and leaves the state of the spec as it was.  The worker as it
    was before state tracking ends the same run as completed with progress
    100 and a warning among its log lines. *)
Theorem push_failure_outcome :
  forall (std : GoStd) (w : World) (d : DB) (jobID : string) (req : CreateCodeJobReq)
         (row : GameSpec) (specJSON : GoMap) (e1 e2 e3 : string),
    let g := NewGitRepo w in
    code_job_exists d jobID = true ->
    find_spec d (cr_GameSpecID req) = Some row ->
    as_map (gs_spec_json row) = Ok specJSON ->
    IsConfigured g = true ->
    os_MkdirAll w (filepath_Join std (RepoPath g) (cr_GameSpecID req)) = None ->
    pullFromRemote w g = None ->
    git w g ["add"; cr_GameSpecID req] = None ->
    (forall msg, git w g ["commit"; "-m"; msg] = None) ->
    git w g ["push"; "origin"; "main"] = Some e1 ->
    git w g ["push"; "origin"; "master"] = Some e2 ->
    git w g ["push"; "-u"; "origin"; "main"] = Some e3 ->
    (let s' := fst (run (processCodeGeneration std w jobID req) (start d)) in
     job_outcome s' jobID
       = Some ("failed", 0, ["Failed to commit and push: failed to push to remote: " ++ e3]) /\
     progress_written s' = [20; 40; 60; 80; 0] /\
     spec_state (st_db s') (cr_GameSpecID req) = Some (gs_state row)) /\
    (InitializeRepo std w g = None ->
     let s' := fst (run (processCodeGeneration_untracked std w jobID req) (start d)) in
     job_outcome s' jobID
       = Some ("completed", 100,
               ["Automated generation completed";
                "Warning: Failed to push to git repository";
                "Git error: failed to push to remote: " ++ e3]) /\
     progress_written s' = [20; 40; 60; 80; 100]).
Proof.
  intros std w d jobID req row specJSON e1 e2 e3 g
    Hjob Hrow Hjson Hconf Hmk Hpull Hadd Hcommit H1 H2 H3.
  split.
  - run_worker.
    rewrite find_spec_update_job_status, Hrow, Hjson. run_code.
    fold g. rewrite Hconf. run_code.
    rewrite (CreateGameFolder_created std w g _ _ _ Hmk). run_code.
    rewrite (CommitAndPush_push_error std w g _ _ _ e1 e2 e3) by assumption. run_code.
    split; [|split].
    + eapply job_outcome_update_job_status; [reflexivity | job_exists].
    + reflexivity.
    + cbn [st_db]. erewrite spec_state_found by lookup_spec. reflexivity.
  - intro Hinit. run_worker.
    rewrite find_spec_update_job_status, Hrow, Hjson. run_code.
    fold g. rewrite Hconf. run_code.
    rewrite Hinit. run_code.
    rewrite (CreateGameFolder_created std w g _ _ _ Hmk). run_code.
    rewrite (CommitAndPush_push_error std w g _ _ _ e1 e2 e3) by assumption. run_code.
    split; [|reflexivity].
    unfold job_outcome. cbn [st_db].
    match goal with
    | |- context [find_code_job (update_output_path (update_job_status ?d0 ?j ?st ?p ?l ?t) ?u ?j)] =>
        destruct (find_code_job_update_job_status d0 j st p l t) as (j0 & Hj0 & Hs & Hp & Hl);
        [job_exists|];
        rewrite (find_code_job_update_output_path _ u j j0 Hj0)
    end.
    cbn [set_output_path cj_status cj_progress cj_logs].
    rewrite Hs, Hp, Hl. reflexivity.
Qed.

(** The queued job of Dodge Rush, run while every push is refused. *)
Lemma push_failure_outcome_witness :
  let w := push_fails_world 3000 [] in
  (let s' := fst (run (processCodeGeneration sample_std w "cjob-1" job_req) (start db_one_job)) in
   job_outcome s' "cjob-1"
     = Some ("failed", 0,
             ["Failed to commit and push: failed to push to remote: exit status 1"]) /\
   progress_written s' = [20; 40; 60; 80; 0] /\
   spec_state (st_db s') "spec-1" = Some "git_initing") /\
  (let s' := fst (run (processCodeGeneration_untracked sample_std w "cjob-1" job_req)
                    (start db_one_job)) in
   job_outcome s' "cjob-1"
     = Some ("completed", 100,
             ["Automated generation completed";
              "Warning: Failed to push to git repository";
              "Git error: failed to push to remote: exit status 1"]) /\
   progress_written s' = [20; 40; 60; 80; 100]).
Proof.
  intro w.
  assert (H :
    (let s' := fst (run (processCodeGeneration sample_std w "cjob-1" job_req)
                      (start db_one_job)) in
     job_outcome s' "cjob-1"
       = Some ("failed", 0,
               ["Failed to commit and push: failed to push to remote: " ++ "exit status 1"]) /\
     progress_written s' = [20; 40; 60; 80; 0] /\
     spec_state (st_db s') (cr_GameSpecID job_req) = Some "git_initing") /\
    (InitializeRepo sample_std w (NewGitRepo w) = None ->
     let s' := fst (run (processCodeGeneration_untracked sample_std w "cjob-1" job_req)
                      (start db_one_job)) in
     job_outcome s' "cjob-1"
       = Some ("completed", 100,
               ["Automated generation completed";
                "Warning: Failed to push to git repository";
                "Git error: failed to push to remote: " ++ "exit status 1"]) /\
     progress_written s' = [20; 40; 60; 80; 100])).
  { match eval vm_compute in (find_spec db_one_job "spec-1") with
    | Some ?row =>
        apply (push_failure_outcome sample_std w db_one_job "cjob-1" job_req row
                 (g_SpecJSON dodge_rush) "exit status 1" "exit status 1" "exit status 1")
    end; reflexivity. }
  destruct H as [H1 H2]. split; [exact H1 | exact (H2 eq_refl)].
Defined.

(** C2 as stated fails on the worker: the folder is created, the commit is
    made, the three pushes are refused, and the job ends as failed. *)
Lemma push_failure_fails_job :
  let w := push_fails_world 3000 [] in
  let g := NewGitRepo w in
  (IsConfigured g = true /\
   (forall gameSpec,
       CreateGameFolder sample_std w g "spec-1" "Dodge Rush" gameSpec
       = Ok "/srv/games/spec-1") /\
   git w g ["commit"; "-m"; commit_message sample_std w "Dodge Rush" "spec-1"] = None /\
   git w g ["push"; "origin"; "main"] = Some "exit status 1" /\
   git w g ["push"; "origin"; "master"] = Some "exit status 1" /\
   git w g ["push"; "-u"; "origin"; "main"] = Some "exit status 1") /\
  let s' := fst (run (processCodeGeneration sample_std w "cjob-1" job_req) (start db_one_job)) in
  job_outcome s' "cjob-1"
    = Some ("failed", 0, ["Failed to commit and push: failed to push to remote: exit status 1"]) /\
  statuses_written s' = ["processing"; "processing"; "processing"; "processing"; "failed"].
Proof. vm_compute. repeat split. Qed.

(** ** The worker: progress over the life of a job *)




(** ** The spec store: what every operation preserves *)

Section PreservationRules.
Variable std : GoStd.
Variable w : World.
Context {R : Type}.

Lemma preserves_ret {A} (a : A) : preserves std (ret (S := St) (R := R) a).
Proof. intros s H. exact H. Qed.

Lemma preserves_exit {A} (r : R) : preserves std (exit (S := St) (A := A) r).
Proof. intros s H. exact H. Qed.

Lemma preserves_bind {A B} (m : M St R A) (k : A -> M St R B) :
  preserves std m -> (forall a, preserves std (k a)) -> preserves std (bind m k).
Proof.
  intros Hm Hk s Hs. unfold bind. specialize (Hm s Hs).
  destruct (m s) as [s1 [a|r]]; cbn [fst] in *; [apply Hk|]; assumption.
Qed.

Lemma preserves_when c (body : M St R unit) :
  preserves std body -> preserves std (when c body).
Proof. intro H. destruct c; [exact H | apply preserves_ret]. Qed.

Lemma preserves_check err (r : string -> R) : preserves std (check err r).
Proof. destruct err; [apply preserves_exit | apply preserves_ret]. Qed.

Lemma preserves_now : preserves std (now (R := R) w).
Proof. intros s H. exact H. Qed.

Lemma preserves_new_uuid : preserves std (new_uuid (R := R) w).
Proof. intros s H. exact H. Qed.

Lemma preserves_get_db : preserves std (get_db (R := R)).
Proof. intros s H. exact H. Qed.

(** A statement that leaves documents and hashes alone. *)
Lemma preserves_exec (stmt : DB -> DbError + DB) :
  (forall d d', stmt d = inr d' -> hashes d' = hashes d) ->
  preserves std (exec (R := R) stmt).
Proof.
  intros Hstmt s Hs. unfold exec, bind, get_db, put_db, ret.
  destruct (stmt (st_db s)) as [e|d'] eqn:E; cbn [fst st_db]; [exact Hs|].
  unfold store_ok in *. rewrite (Hstmt _ _ E). exact Hs.
Qed.

Lemma preserves_exec_now (stmt : DB -> Z -> DbError + DB) :
  (forall d t d', stmt d t = inr d' -> hashes d' = hashes d) ->
  preserves std (exec_now (R := R) w stmt).
Proof.
  intros Hstmt. unfold exec_now. apply preserves_bind; [apply preserves_now|].
  intro t. apply preserves_exec. intros d d'. apply Hstmt.
Qed.

Lemma hashes_update_where k f l :
  (forall r, gs_spec_json (f r) = gs_spec_json r /\ gs_spec_hash (f r) = gs_spec_hash r) ->
  map (fun r => (gs_spec_json r, gs_spec_hash r)) (update_where gs_id k f l)
  = map (fun r => (gs_spec_json r, gs_spec_hash r)) l.
Proof.
  intro Hf. unfold update_where. rewrite map_map. apply map_ext. intro r.
  destruct (String.eqb (gs_id r) k); [|reflexivity].
  destruct (Hf r) as [-> ->]. reflexivity.
Qed.

Lemma hashes_updateGameSpecState t d specID newState detail :
  hashes (fst (updateGameSpecState t d specID newState detail)) = hashes d.
Proof.
  unfold updateGameSpecState.
  destruct (select_state d specID); [reflexivity|].
  destruct (insert_state_log _ _ _ _ _ _) as [e|d2] eqn:E; cbn [fst].
  - apply hashes_update_where. intro r. split; reflexivity.
  - unfold insert_state_log in E. destruct (spec_exists _ _); [|discriminate].
    injection E as <-. apply hashes_update_where. intro r. split; reflexivity.
Qed.

Lemma preserves_track_state specID newState detail :
  preserves std (track_state (R := R) w specID newState detail).
Proof.
  intros s Hs. unfold track_state, bind, now, get_db, put_db. cbn [fst st_db].
  unfold store_ok in *. rewrite hashes_updateGameSpecState. exact Hs.
Qed.

Lemma preserves_updateJobStatus jobID status progress logs :
  preserves std (updateJobStatus (R := R) w jobID status progress logs).
Proof. intros s Hs. exact Hs. Qed.

(** The one statement that adds a document: the row must be hashed, and
    the UNIQUE constraint keeps its hash apart from the others. *)
Lemma preserves_insert_game_spec (row : Z -> GameSpec) :
  (forall t, hashed std (gs_spec_json (row t), gs_spec_hash (row t))) ->
  preserves std (exec_now (R := R) w (fun d t => insert_game_spec d (row t))).
Proof.
  intros Hrow [d c u ups] [Hnodup Hall]. cbn [st_db] in *. unfold exec_now. run_code.
  set (r := row (time_Now w c)).
  unfold insert_game_spec.
  destruct (spec_exists d (gs_id r)); [split; assumption|].
  destruct (hash_exists d (gs_spec_hash r)) eqn:Hh; [split; assumption|].
  unfold store_ok, hashes in *. tables. rewrite !map_app. cbn [map]. split.
  - rewrite map_map in *. cbn [snd] in *.
    apply NoDup_app; [exact Hnodup | constructor; [intros [] | constructor] |].
    intros h Hin [<-|[]].
    apply in_map_iff in Hin as (x & Hx & Hin).
    unfold hash_exists in Hh.
    assert (existsb (fun r0 => String.eqb (gs_spec_hash r0) (gs_spec_hash r))
              (game_specs d) = true) as Habs.
    { apply existsb_exists. exists x. split; [exact Hin|]. now apply String.eqb_eq. }
    congruence.
  - apply Forall_app. split; [exact Hall|]. constructor; [apply Hrow | constructor].
Qed.

End PreservationRules.

(** Statements other than the insert into game_specs leave documents and
    hashes alone. *)
Ltac same_hashes :=
  let E := fresh "E" in
  intros; 
  match goal with
  | E : _ = inr _ |- _ =>
      unfold insert_spec_job, update_spec_job_running, update_spec_job_duplicate,
        update_spec_job_completed, insert_code_job in E;
      repeat match type of E with
             | context [if ?c then _ else _] => destruct c
             end;
      try discriminate E; injection E as <-
  end;
  first [ reflexivity | apply hashes_update_where; intro; split; reflexivity ].

Ltac preserve :=
  repeat first
    [ apply preserves_ret | apply preserves_exit | apply preserves_check
    | apply preserves_now | apply preserves_new_uuid | apply preserves_get_db
    | apply preserves_track_state | apply preserves_updateJobStatus
    | apply preserves_when
    | apply preserves_insert_game_spec; intro; eexists; split; [reflexivity | eassumption]
    | apply preserves_exec_now; same_hashes
    | apply preserves_exec; same_hashes
    | apply preserves_bind; [|intro]
    | match goal with
      | |- preserves _ (match ?x with _ => _ end) => destruct x eqn:?
      end ].

Lemma PostSpecJob_preserves std w body : preserves std (PostSpecJob std w body).
Proof.
  unfold PostSpecJob, duplicate_decision_of, persist_spec, post_generate_spec,
    post_vector_search, post_vector_upsert.
  preserve.
Qed.

Lemma PostSpecJob_untracked_preserves std w body :
  preserves std (PostSpecJob_untracked std w body).
Proof.
  unfold PostSpecJob_untracked, duplicate_decision_of, persist_spec_untracked,
    post_generate_spec, post_vector_search, post_vector_upsert.
  preserve.
Qed.

Lemma autoTrigger_preserves std w specID specJSON codeJobID :
  preserves std (autoTrigger w specID specJSON codeJobID).
Proof. unfold autoTrigger. cbv zeta. preserve. Qed.

Lemma PostCodeJob_preserves std w body : preserves std (PostCodeJob w body).
Proof. unfold PostCodeJob. cbv zeta. preserve. Qed.

Lemma processCodeGeneration_preserves std w jobID req :
  preserves std (processCodeGeneration std w jobID req).
Proof. unfold processCodeGeneration. cbv zeta. preserve. Qed.

Lemma processCodeGeneration_untracked_preserves std w jobID req :
  preserves std (processCodeGeneration_untracked std w jobID req).
Proof. unfold processCodeGeneration_untracked. cbv zeta. preserve. Qed.

Lemma run_preserves std {R} (m : M St R R) d :
  preserves std m -> store_ok std d -> store_ok std (st_db (fst (run m (start d)))).
Proof.
  intros Hm Hd. specialize (Hm (start d) Hd). unfold run.
  destruct (m (start d)) as [s' [r|r]]; exact Hm.
Qed.

Lemma reachable_store_ok std d : reachable std d -> store_ok std d.
Proof.
  induction 1 as [|d d' _ IH Hstep].
  - split; constructor.
  - destruct Hstep; apply run_preserves; trivial.
    + apply PostSpecJob_preserves.
    + apply PostSpecJob_untracked_preserves.
    + apply autoTrigger_preserves.
    + apply PostCodeJob_preserves.
    + apply processCodeGeneration_preserves.
    + apply processCodeGeneration_untracked_preserves.
Qed.

(** ** The spec store: the hash as a backstop *)

Lemma to_json_inj m1 m2 : to_json m1 = to_json m2 -> m1 = m2.
Proof. destruct m1, m2; cbn; congruence. Qed.

Lemma hashed_same_document std r1 r2 :
  hashed std (gs_spec_json r1, gs_spec_hash r1) ->
  hashed std (gs_spec_json r2, gs_spec_hash r2) ->
  gs_spec_json r1 = gs_spec_json r2 -> gs_spec_hash r1 = gs_spec_hash r2.
Proof.
  intros (m1 & J1 & H1) (m2 & J2 & H2) E. cbn [fst snd] in *.
  assert (m1 = m2) by (apply to_json_inj; congruence). subst m2. congruence.
Qed.

Lemma store_ok_hashed std d r :
  store_ok std d -> In r (game_specs d) -> hashed std (gs_spec_json r, gs_spec_hash r).
Proof.
  intros [_ Hall] Hin. rewrite Forall_forall in Hall. apply Hall.
  unfold hashes. apply in_map_iff. exists r. split; [reflexivity | exact Hin].
Qed.

Lemma store_ok_one_row_per_document std d i j r1 r2 :
  store_ok std d ->
  nth_error (game_specs d) i = Some r1 ->
  nth_error (game_specs d) j = Some r2 ->
  gs_spec_json r1 = gs_spec_json r2 ->
  gs_spec_hash r1 = gs_spec_hash r2 /\ i = j.
Proof.
  intros Hok H1 H2 E.
  assert (Hh : gs_spec_hash r1 = gs_spec_hash r2).
  { apply (hashed_same_document std); trivial;
      apply (store_ok_hashed std d); trivial; eapply nth_error_In; eassumption. }
  split; [exact Hh|].
  destruct Hok as [Hnodup _]. unfold hashes in Hnodup. rewrite map_map in Hnodup.
  cbn [snd] in Hnodup.
  rewrite NoDup_nth_error in Hnodup. apply Hnodup.
  - rewrite length_map. apply nth_error_Some. congruence.
  - rewrite !nth_error_map, H1, H2. cbn. congruence.
Qed.

(** C5. In every database the backend can bring about, two rows of
    game_specs with the same spec_json are the same row, and their hashes
    agree.  When a spec job, of either revision of the handler, generates
    the spec_json of an existing row and the similarity check does not
    report a duplicate, the insert is refused with a unique-constraint
    violation (of spec_hash, unless the fresh id happens to be taken), the
    request is answered 500, game_specs is unchanged and holds exactly one
    row with that spec_json. *)
Theorem spec_hash_is_a_backstop :
  forall (std : GoStd) (d : DB),
    reachable std d ->
    one_row_per_document d /\
    refuses_repeat std d (PostSpecJob std) llmBackend /\
    refuses_repeat std d (PostSpecJob_untracked std) llmvec.
Proof.
  intros std d Hreach. pose proof (reachable_store_ok std d Hreach) as Hok.
  assert (Hone : one_row_per_document d).
  { intros i j r1 r2. exact (store_ok_one_row_per_document std d i j r1 r2 Hok). }
  assert (Hrest : forall r (s : St), game_specs (st_db s) = game_specs d ->
            In r (game_specs d) ->
            forall r', In r' (game_specs (st_db s)) ->
                       gs_spec_json r' = gs_spec_json r -> r' = r).
  { intros r s -> Hin r' Hin' Hjson.
    apply In_nth_error in Hin as [j Hj]. apply In_nth_error in Hin' as [i Hi].
    destruct (Hone i j r' r Hi Hj Hjson) as [_ ->]. congruence. }
  assert (Htaken : forall r g, In r (game_specs d) -> to_json (g_SpecJSON g) = gs_spec_json r ->
            hashSpec std (g_SpecJSON g) = Ok (gs_spec_hash r) /\
            hash_exists d (gs_spec_hash r) = true).
  { intros r g Hin Hsame.
    destruct (store_ok_hashed std d r Hok Hin) as (m & Hm & Hhash). cbn [fst snd] in *.
    assert (m = g_SpecJSON g) by (apply to_json_inj; congruence). subst m.
    split; [exact Hhash|].
    unfold hash_exists. apply existsb_exists. exists r.
    split; [exact Hin | apply String.eqb_refl]. }
  split; [exact Hone|]. split.
  - intros w req g similar r Hin Hbrief Hfresh Hllm Hsame Hsearch Hdup.
    rewrite (PostSpecJob_after_search std w d req g _ Hbrief Hfresh Hllm Hsearch).
    rewrite (run_bind _ _ _ _ _ (duplicate_decision_of_not_taken std w _ _ _ Hdup)).
    destruct (Htaken r g Hin Hsame) as [Hhash Hold].
    destruct (persist_spec_refused std w (uuid_New w 0) req g (gs_spec_hash r)
                (after_search w d req) Hhash Hold) as (c & -> & Hc).
    split; [exists c; split; [reflexivity | exact Hc] |].
    split; [reflexivity | apply Hrest; [reflexivity | exact Hin]].
  - intros w req g similar r Hin Hbrief Hfresh Hllm Hsame Hsearch Hdup.
    rewrite (PostSpecJob_untracked_after_search std w d req g _ Hbrief Hfresh Hllm Hsearch).
    rewrite (run_bind _ _ _ _ _ (duplicate_decision_of_not_taken std w _ _ _ Hdup)).
    destruct (Htaken r g Hin Hsame) as [Hhash Hold].
    destruct (persist_spec_untracked_refused std w (uuid_New w 0) req g (gs_spec_hash r)
                (after_search w d req) Hhash Hold) as (c & -> & Hc).
    split; [exists c; split; [reflexivity | exact Hc] |].
    split; [reflexivity | apply Hrest; [reflexivity | exact Hin]].
Qed.

(** The database that holds Dodge Rush is reachable, and so is covered. *)
Lemma spec_hash_is_a_backstop_witness :
  reachable sample_std db_one_spec /\
  one_row_per_document db_one_spec /\
  refuses_repeat sample_std db_one_spec (PostSpecJob sample_std) llmBackend /\
  refuses_repeat sample_std db_one_spec (PostSpecJob_untracked sample_std) llmvec.
Proof.
  assert (H : reachable sample_std db_one_spec).
  { apply (reachable_step sample_std empty_db); [apply reachable_empty|].
    apply (step_PostSpecJob sample_std (happy_world 1000 ["job-1"; "spec-1"; "cjob-1"] [])
             brief_req empty_db). }
  split; [exact H|].
  exact (spec_hash_is_a_backstop sample_std db_one_spec H).
Defined.

(** Dodge Rush submitted a second time while the index is empty: the
    request is refused and the one row remains. *)
Example second_dodge_rush_is_refused :
  let w := happy_world 2000 ["job-2"; "spec-2"; "cjob-2"] [] in
  let (s', reply) := run (PostSpecJob sample_std w brief_req) (start db_one_spec) in
  reply = (FiberError 500
             (db_error_string (UniqueViolation "game_specs_spec_hash_key")), []) /\
  map gs_id (game_specs (st_db s')) = ["spec-1"] /\
  option_map sj_status (find_spec_job (st_db s') "job-2") = Some "RUNNING".
Proof. vm_compute. repeat split. Qed.

(** ** Code jobs: submission *)

Lemma code_jobs_updateGameSpecState t d specID newState detail :
  code_jobs (fst (updateGameSpecState t d specID newState detail)) = code_jobs d.
Proof.
  unfold updateGameSpecState.
  destruct (select_state d specID); [reflexivity|].
  unfold insert_state_log. destruct (spec_exists _ _); reflexivity.
Qed.

(** X1. What PostCodeJob does with a parsed request: 400 exactly when both
    game_spec_id and game_spec are empty, and then nothing is inserted; a
    request that names an existing spec queues one job with progress 0 and
    the output path defaulted to [/tmp]; a request whose game_spec_id names
    no spec, the empty id included, is answered 500 and inserts nothing. *)
Lemma PostCodeJob_parsed (w : World) (d : DB) (req : CreateCodeJobReq) :
  let (s', reply) := run (PostCodeJob w (Ok req)) (start d) in
  let both_empty := (is_empty (cr_GameSpecID req) && Nat.eqb (map_len (cr_GameSpec req)) 0)%bool in
  (both_empty = true <->
   exists msg, reply = (JSONResponse 400 (BError msg), [])) /\
  (both_empty = true -> st_db s' = d) /\
  (both_empty = false -> code_job_exists d (uuid_New w 0) = false ->
   spec_exists d (cr_GameSpecID req) = true ->
   fst reply = JSONResponse 200 (BQueued (uuid_New w 0)) /\
   code_jobs (st_db s') = (code_jobs d ++ [queued_job w req])%list) /\
  (both_empty = false -> spec_exists d (cr_GameSpecID req) = false ->
   reply = (JSONResponse 500 (BError "Failed to create job"), []) /\ st_db s' = d).
Proof.
  unfold PostCodeJob. run_code.
  destruct (is_empty (cr_GameSpecID req) && Nat.eqb (map_len (cr_GameSpec req)) 0)%bool eqn:E;
    run_code.
  - repeat split; try discriminate; eauto.
  - assert (Hreq :
      forall X : Type, forall f : CreateCodeJobReq -> X,
        (f (if is_empty (cr_OutputPath req)
            then mkCreateCodeJobReq (cr_GameSpecID req) (cr_GameSpec req) "/tmp" else req))
        = if is_empty (cr_OutputPath req)
          then f (mkCreateCodeJobReq (cr_GameSpecID req) (cr_GameSpec req) "/tmp") else f req).
    { intros X f. destruct (is_empty (cr_OutputPath req)); reflexivity. }
    unfold insert_code_job.
    rewrite (Hreq _ cr_GameSpecID), (Hreq _ cr_GameSpec), (Hreq _ cr_OutputPath).
    cbn [cr_GameSpecID cr_GameSpec cr_OutputPath].
    replace (if is_empty (cr_OutputPath req) then cr_GameSpecID req else cr_GameSpecID req)
      with (cr_GameSpecID req) by (destruct (is_empty (cr_OutputPath req)); reflexivity).
    replace (if is_empty (cr_OutputPath req) then cr_GameSpec req else cr_GameSpec req)
      with (cr_GameSpec req) by (destruct (is_empty (cr_OutputPath req)); reflexivity).
    destruct (code_job_exists d (uuid_New w 0)) eqn:Hj;
      destruct (spec_exists d (cr_GameSpecID req)) eqn:Hs; run_code;
      (split; [split; [discriminate | intros [msg [=]]] |]);
      repeat split; try discriminate; try reflexivity.
    intros.
    match goal with
    | |- code_jobs (let (x, _) := ?p in x) = _ => change (code_jobs (fst p) = (code_jobs d ++ [queued_job w req])%list)
    end.
    rewrite code_jobs_updateGameSpecState. reflexivity.
Qed.

(** C10 at the failing input. A request that carries Dodge Rush inline
    and no game_spec_id passes the validation of PostCodeJob, and the
    insert into code_jobs is refused because game_spec_id references no
    spec: the answer is 500 and no job is queued. *)
Theorem inline_only_request_is_not_queued :
  let w := happy_world 4000 ["cjob-9"] [] in
  let req := mkCreateCodeJobReq "" (g_SpecJSON dodge_rush) "" in
  (is_empty (cr_GameSpecID req) && Nat.eqb (map_len (cr_GameSpec req)) 0)%bool = false /\
  insert_code_job db_one_spec "cjob-9" "" (g_SpecJSON dodge_rush) "/tmp" 4000 4000
    = inl (ForeignKeyViolation "code_jobs_game_spec_id_fkey") /\
  let (s', reply) := run (PostCodeJob w (Ok req)) (start db_one_spec) in
  reply = (JSONResponse 500 (BError "Failed to create job"), []) /\
  code_jobs (st_db s') = [].
Proof. vm_compute. repeat split. Qed.

(** The submission PostCodeJob is written for: the spec is named. *)
Example named_spec_is_queued :
  let w := happy_world 4000 ["cjob-9"] [] in
  let req := mkCreateCodeJobReq "spec-1" None "" in
  let (s', reply) := run (PostCodeJob w (Ok req)) (start db_one_spec) in
  reply = (JSONResponse 200 (BQueued "cjob-9"), [GoProcessCodeGeneration "cjob-9"
             (mkCreateCodeJobReq "spec-1" None "/tmp")]) /\
  code_jobs (st_db s') =
    [mkCodeJob "cjob-9" "spec-1" JNull (Some "/tmp") "queued" 0 None None [] 4000 4000].
Proof. vm_compute. repeat split. Qed.

(** ** Ordered queries *)

Section OrderBy.
Context {A : Type} (le : A -> A -> bool).
Hypothesis le_total : forall a b, le a b = false -> le b a = true.
Hypothesis le_trans : forall a b c, le a b = true -> le b c = true -> le a c = true.

Lemma insert_sorted_perm x l : Permutation (insert_sorted le x l) (x :: l).
Proof.
  induction l as [|y l IH]; cbn; [reflexivity|].
  destruct (le x y); [reflexivity|].
  rewrite IH. apply perm_swap.
Qed.

Lemma order_by_perm l : Permutation (order_by le l) l.
Proof.
  induction l as [|x l IH]; [reflexivity|].
  change (order_by le (x :: l)) with (insert_sorted le x (order_by le l)).
  rewrite insert_sorted_perm. now constructor.
Qed.

Lemma insert_sorted_sorted x l :
  StronglySorted (fun a b => le a b = true) l ->
  StronglySorted (fun a b => le a b = true) (insert_sorted le x l).
Proof.
  induction 1 as [|y l Hl IH Hy]; cbn.
  - repeat constructor.
  - destruct (le x y) eqn:Hxy.
    + constructor; [constructor; assumption|].
      constructor; [exact Hxy|].
      rewrite Forall_forall in *. intros z Hz. eapply le_trans; eauto.
    + constructor; [exact IH|].
      rewrite Forall_forall in *. intros z Hz.
      apply (Permutation_in _ (insert_sorted_perm x l)) in Hz.
      destruct Hz as [<-|Hz]; [now apply le_total | now apply Hy].
Qed.

Lemma order_by_sorted l : StronglySorted (fun a b => le a b = true) (order_by le l).
Proof.
  induction l as [|x l IH]; [constructor|].
  change (order_by le (x :: l)) with (insert_sorted le x (order_by le l)).
  now apply insert_sorted_sorted.
Qed.


End OrderBy.

Lemma StronglySorted_firstn_skipn {A} (R : A -> A -> Prop) n l :
  StronglySorted R l ->
  StronglySorted R (firstn n l) /\
  forall a b, In a (firstn n l) -> In b (skipn n l) -> R a b.
Proof.
  intro H. revert n. induction H as [|x l Hl IH Hx]; intro n.
  - rewrite firstn_nil, skipn_nil. split; [constructor | intros a b []].
  - destruct n as [|n]; cbn [firstn skipn].
    + split; [constructor | intros a b []].
    + destruct (IH n) as [IH1 IH2]. split.
      * constructor; [exact IH1|].
        rewrite Forall_forall in *. intros z Hz. apply Hx.
        rewrite <- (firstn_skipn n l). apply in_or_app. now left.
      * intros a b [<-|Ha] Hb.
        -- rewrite Forall_forall in Hx. apply Hx.
           rewrite <- (firstn_skipn n l). apply in_or_app. now right.
        -- now apply IH2.
Qed.

Lemma StronglySorted_map {A B} (f : A -> B) (R : B -> B -> Prop) l :
  StronglySorted (fun a b => R (f a) (f b)) l -> StronglySorted R (map f l).
Proof.
  induction 1 as [|x l Hl IH Hx]; cbn; constructor; [exact IH|].
  rewrite Forall_forall in *. intros y Hy.
  apply in_map_iff in Hy as (z & <- & Hz). now apply Hx.
Qed.

(** X2. ListSpecs answers 200 with at most 50 items, newest first; they are
    rows of game_specs, each row at most once, and no row left out is
    newer than a row listed. *)
Theorem ListSpecs_lists_the_newest :
  forall (d : DB),
  exists (items rest : list item),
    ListSpecs d = Sent 200 items /\
    List.length items = Nat.min 50 (List.length (game_specs d)) /\
    StronglySorted (fun a b => it_CreatedAt b <= it_CreatedAt a) items /\
    Permutation (map item_of (game_specs d)) (items ++ rest) /\
    (forall a b, In a items -> In b rest -> it_CreatedAt b <= it_CreatedAt a).
Proof.
  intro d.
  set (le := fun a b : GameSpec => gs_created_at b <=? gs_created_at a).
  set (sorted := order_by le (game_specs d)).
  exists (map item_of (firstn 50 sorted)), (map item_of (skipn 50 sorted)).
  assert (Hperm : Permutation sorted (game_specs d)) by apply order_by_perm.
  assert (Hsorted : StronglySorted (fun a b => le a b = true) sorted).
  { apply order_by_sorted; unfold le; intros; lia. }
  destruct (StronglySorted_firstn_skipn _ 50 _ Hsorted) as [Hfirst Hcut].
  split; [reflexivity|]. split.
  { rewrite length_map, length_firstn. f_equal. now apply Permutation_length. }
  split.
  { apply StronglySorted_map. cbn [item_of it_CreatedAt].
    eapply StronglySorted_ind with (P := fun l => StronglySorted _ l) in Hfirst.
    - exact Hfirst.
    - constructor.
    - intros a l _ IH Ha. constructor; [exact IH|].
      rewrite Forall_forall in *. intros y Hy. specialize (Ha y Hy). unfold le in Ha. lia. }
  split.
  { rewrite <- map_app, firstn_skipn. apply Permutation_map. now symmetry. }
  intros a b Ha Hb.
  apply in_map_iff in Ha as (ra & <- & Ha). apply in_map_iff in Hb as (rb & <- & Hb).
  specialize (Hcut ra rb Ha Hb). unfold le in Hcut. cbn. lia.
Qed.

(** ** DeleteSpec *)

Lemma existsb_filter_negb {A} (p : A -> bool) l : existsb p (filter (fun a => negb (p a)) l) = false.
Proof.
  induction l as [|a l IH]; cbn; [reflexivity|].
  destruct (p a) eqn:E; cbn; [exact IH | now rewrite E].
Qed.

(** Once the code jobs of a spec are deleted nothing refuses the delete of
    the spec. *)
Lemma delete_game_spec_after_jobs d id :
  delete_game_spec (delete_code_jobs_of d id) id
  = inr (mkDB (filter (fun r => negb (String.eqb (gs_id r) id)) (game_specs d))
           (map (clear_result_spec_id id) (gen_spec_jobs d))
           (filter (fun j => negb (String.eqb (cj_game_spec_id j) id)) (code_jobs d))
           (filter (fun l => negb (String.eqb (sl_game_spec_id l) id)) (game_spec_states d))).
Proof.
  unfold delete_game_spec, delete_code_jobs_of. cbn [code_jobs with_code_jobs].
  rewrite (existsb_filter_negb (fun j => String.eqb (cj_game_spec_id j) id)).
  rewrite andb_false_r. reflexivity.
Qed.

Lemma run_DeleteSpec std w x id d :
  run (DeleteSpec std w x id) (start d)
  = if negb (spec_exists d id) then (start d, Refused 404 "Spec not found")
    else
      match http_DELETE x (llmBackend w ++ "/vector/spec/" ++ id) with
      | DeleteRequestErr _ => (start d, Refused 500 "Failed to create delete request")
      | DeleteDoErr _ => (start d, Refused 500 "Failed to delete from vector database")
      | DeleteResp status =>
          if negb (status =? 200)
          then (start d, Refused 500 "Failed to delete from vector database")
          else
            (mkSt (mkDB (filter (fun r => negb (String.eqb (gs_id r) id)) (game_specs d))
                     (map (clear_result_spec_id id) (gen_spec_jobs d))
                     (filter (fun j => negb (String.eqb (cj_game_spec_id j) id)) (code_jobs d))
                     (filter (fun l => negb (String.eqb (sl_game_spec_id l) id))
                        (game_spec_states d))) 0 0 [],
             Sent 200 (deleted w id (git_cleanup std w x id (select_title d id))))
      end.
Proof.
  unfold DeleteSpec. run_code.
  destruct (spec_exists d id); run_code; [|reflexivity].
  destruct (http_DELETE x _) as [e|e|status]; run_code; try reflexivity.
  destruct (status =? 200); run_code; [|reflexivity].
  rewrite delete_game_spec_after_jobs. reflexivity.
Qed.

(** X3. DeleteSpec on a spec that exists, once the index has confirmed the
    deletion with 200: the answer is 200 whatever became of the git
    cleanup, which is only reported; the rows of the spec, its code jobs
    and its state records are gone, the spec jobs that produced it no
    longer name it, and all other rows are as they were. *)
Theorem DeleteSpec_removes_spec_and_dependents :
  forall (std : GoStd) (w : World) (x : SpecWorld) (d : DB) (id : string),
    spec_exists d id = true ->
    http_DELETE x (llmBackend w ++ "/vector/spec/" ++ id) = DeleteResp 200 ->
    let (s', answer) := run (DeleteSpec std w x id) (start d) in
    answer = Sent 200 (deleted w id (git_cleanup std w x id (select_title d id))) /\
    game_specs (st_db s') = filter (fun r => negb (String.eqb (gs_id r) id)) (game_specs d) /\
    code_jobs (st_db s')
      = filter (fun j => negb (String.eqb (cj_game_spec_id j) id)) (code_jobs d) /\
    game_spec_states (st_db s')
      = filter (fun l => negb (String.eqb (sl_game_spec_id l) id)) (game_spec_states d) /\
    gen_spec_jobs (st_db s') = map (clear_result_spec_id id) (gen_spec_jobs d).
Proof.
  intros std w x d id Hexists Hvec.
  rewrite run_DeleteSpec, Hexists, Hvec. cbn. repeat split.
Qed.

(** Dodge Rush is deleted, with its queued code job and its two state
    records. *)
Lemma DeleteSpec_removes_spec_and_dependents_witness :
  let w := happy_world 6000 [] [] in
  let (s', answer) := run (DeleteSpec sample_std w sample_cleanup "spec-1") (start db_one_job) in
  answer = Sent 200
             (deleted w "spec-1"
                (git_cleanup sample_std w sample_cleanup "spec-1"
                   (select_title db_one_job "spec-1"))) /\
  game_specs (st_db s')
    = filter (fun r => negb (String.eqb (gs_id r) "spec-1")) (game_specs db_one_job) /\
  code_jobs (st_db s')
    = filter (fun j => negb (String.eqb (cj_game_spec_id j) "spec-1")) (code_jobs db_one_job) /\
  game_spec_states (st_db s')
    = filter (fun l => negb (String.eqb (sl_game_spec_id l) "spec-1"))
        (game_spec_states db_one_job) /\
  gen_spec_jobs (st_db s') = map (clear_result_spec_id "spec-1") (gen_spec_jobs db_one_job).
Proof.
  apply (DeleteSpec_removes_spec_and_dependents sample_std (happy_world 6000 [] [])
           sample_cleanup db_one_job "spec-1"); reflexivity.
Defined.


(** ** Spec jobs: what GetJob reports afterwards *)

Lemma find_spec_job_app_fresh d id j :
  spec_job_exists d id = false -> sj_id j = id ->
  find_spec_job (with_gen_spec_jobs d (gen_spec_jobs d ++ [j])%list) id = Some j.
Proof.
  intros Hfresh Hid. unfold find_spec_job. tables.
  apply (find_app_fresh sj_id); assumption.
Qed.




(** ** Spec jobs: a gateway that fails *)

Lemma PostSpecJob_before_generate std w d req :
  req_Brief req <> "" ->
  spec_job_exists d (uuid_New w 0) = false ->
  run (PostSpecJob std w (Ok req)) (start d)
  = run (g <- post_generate_spec w (llmBackend w) req ;;
         s <- post_vector_search std w (llmBackend w) (normText std g) ;;
         duplicate_decision_of std w (uuid_New w 0) s ;;
         persist_spec std w (uuid_New w 0) req g) (after_search w d req).
Proof.
  intros Hbrief Hfresh.
  unfold PostSpecJob. 
  cbv beta iota zeta delta
    [run bind ret exit when check exec exec_now now new_uuid get_db put_db
     start fst snd st_db st_clock st_uuids st_updates negb].
  rewrite (is_empty_false _ Hbrief).
  cbv beta iota zeta delta
    [run bind ret exit when check exec exec_now now new_uuid get_db put_db
     start fst snd st_db st_clock st_uuids st_updates negb].
  unfold insert_spec_job. rewrite Hfresh.
  cbv beta iota zeta delta
    [run bind ret exit when check exec exec_now now new_uuid get_db put_db
     start fst snd st_db st_clock st_uuids st_updates negb].
  unfold update_spec_job_running.
  cbv beta iota zeta delta
    [run bind ret exit when check exec exec_now now new_uuid get_db put_db
     start fst snd st_db st_clock st_uuids st_updates negb].
  unfold after_search. tables.
  rewrite update_where_app, (update_where_fresh sj_id _ _ _ Hfresh).
  rewrite update_where_single by reflexivity.
  reflexivity.
Qed.

(** X6. When the generator, or after it the similarity search, fails (the
    call returns an error, a status other than 200, or a body that does not
    decode), the request is answered 502 and the job row stays as it was
    while the calls were made: RUNNING, which GetJob keeps reporting; it is
    never marked FAILED, and no spec is stored. *)
Theorem gateway_failure_leaves_job_running :
  forall (std : GoStd) (w : World) (d : DB) (req : CreateJobReq),
    req_Brief req <> "" ->
    spec_job_exists d (uuid_New w 0) = false ->
    (answers_ok (llm_generate_spec w (llmBackend w)
                   (mkGenSpecReq (req_Brief req) (req_Constraints req))) = false \/
     exists g,
       llm_generate_spec w (llmBackend w) (mkGenSpecReq (req_Brief req) (req_Constraints req))
         = HttpResp 200 (Ok g) /\
       answers_ok (vector_search w (llmBackend w)
                     (mkSearchReq (normText std g) (topK std w) (threshold std w))) = false) ->
    let (s', reply) := run (PostSpecJob std w (Ok req)) (start d) in
    (exists msg, reply = (FiberError 502 msg, [])) /\
    st_db s' = with_gen_spec_jobs d (gen_spec_jobs d ++ [running_job w req])%list /\
    GetJob (uuid_New w 0) (st_db s') = Sent 200 (mkJobStatusResp "RUNNING" None [] None).
Proof.
  intros std w d req Hbrief Hfresh Hfail.
  rewrite (PostSpecJob_before_generate std w d req Hbrief Hfresh).
  assert (Hget : GetJob (uuid_New w 0)
                   (with_gen_spec_jobs d (gen_spec_jobs d ++ [running_job w req])%list)
                 = Sent 200 (mkJobStatusResp "RUNNING" None [] None)).
  { unfold GetJob.
    rewrite (find_spec_job_app_fresh d (uuid_New w 0) (running_job w req) Hfresh eq_refl).
    reflexivity. }
  unfold after_search. 
  destruct Hfail as [Hllm | (g & Hllm & Hsearch)].
  - run_code.
    destruct (llm_generate_spec w _ _) as [e|status [g|e]]; cbn [answers_ok] in Hllm.
    + split; [eexists; reflexivity | split; [reflexivity | exact Hget]].
    + rewrite Hllm. split; [eexists; reflexivity | split; [reflexivity | exact Hget]].
    + destruct (status =? 200);
        (split; [eexists; reflexivity | split; [reflexivity | exact Hget]]).
  - run_code. rewrite Hllm. change (200 =? 200) with true. run_code.
    destruct (vector_search w _ _) as [e|status [s|e]]; cbn [answers_ok] in Hsearch.
    + split; [eexists; reflexivity | split; [reflexivity | exact Hget]].
    + rewrite Hsearch. split; [eexists; reflexivity | split; [reflexivity | exact Hget]].
    + destruct (status =? 200);
        (split; [eexists; reflexivity | split; [reflexivity | exact Hget]]).
Qed.

(** An empty database and a generator that cannot be reached. *)
Lemma gateway_failure_leaves_job_running_witness :
  let w := llm_down_world 1000 ["job-1"] in
  let (s', reply) := run (PostSpecJob sample_std w brief_req) (start empty_db) in
  (exists msg, reply = (FiberError 502 msg, [])) /\
  st_db s' = with_gen_spec_jobs empty_db
               (gen_spec_jobs empty_db ++
                [running_job w (mkCreateJobReq "arcade 60s mobile puzzle game" None)])%list /\
  GetJob (uuid_New w 0) (st_db s') = Sent 200 (mkJobStatusResp "RUNNING" None [] None).
Proof.
  apply (gateway_failure_leaves_job_running sample_std (llm_down_world 1000 ["job-1"]) empty_db
           (mkCreateJobReq "arcade 60s mobile puzzle game" None)).
  - discriminate.
  - reflexivity.
  - left. reflexivity.
Defined.

(** ** Spec jobs: storing the spec *)

Lemma spec_exists_app d r id :
  spec_exists (with_game_specs d (game_specs d ++ [r])%list) id
  = (spec_exists d id || String.eqb (gs_id r) id)%bool.
Proof. unfold spec_exists. tables. rewrite existsb_app. cbn. now rewrite orb_false_r. Qed.



Lemma PostSpecJob_persisting std w d req g similar :
  req_Brief req <> "" ->
  spec_job_exists d (uuid_New w 0) = false ->
  llm_generate_spec w (llmBackend w) (mkGenSpecReq (req_Brief req) (req_Constraints req))
    = HttpResp 200 (Ok g) ->
  vector_search w (llmBackend w) (mkSearchReq (normText std g) (topK std w) (threshold std w))
    = HttpResp 200 (Ok similar) ->
  is_duplicate std w similar = false ->
  run (PostSpecJob std w (Ok req)) (start d)
  = run (persist_spec std w (uuid_New w 0) req g) (after_search w d req).
Proof.
  intros Hbrief Hfresh Hllm Hsearch Hdup.
  rewrite (PostSpecJob_after_search std w d req g _ Hbrief Hfresh Hllm Hsearch).
  rewrite (run_bind _ _ _ _ _ (duplicate_decision_of_not_taken std w _ _ _ Hdup)).
  reflexivity.
Qed.



Lemma select_state_logs_single d id l :
  logs_of d id = [] -> sl_game_spec_id l = id ->
  select_state_logs (with_game_spec_states d (game_spec_states d ++ [l])%list) id = [l].
Proof.
  intros Hnone Hid. unfold select_state_logs. tables.
  rewrite filter_app. fold (logs_of d id). rewrite Hnone. cbn [filter app].
  rewrite Hid, String.eqb_refl. reflexivity.
Qed.



(** ** What every operation keeps *)

Section KeepsRules.
Variable I : DB -> Prop.
Variable w : World.
Context {R : Type}.

Lemma keeps_ret {A} (a : A) : keeps I (ret (S := St) (R := R) a).
Proof. intros s H. exact H. Qed.

Lemma keeps_exit {A} (r : R) : keeps I (exit (S := St) (A := A) r).
Proof. intros s H. exact H. Qed.

Lemma keeps_bind {A B} (m : M St R A) (k : A -> M St R B) :
  keeps I m -> (forall a, keeps I (k a)) -> keeps I (bind m k).
Proof.
  intros Hm Hk s Hs. unfold bind. specialize (Hm s Hs).
  destruct (m s) as [s1 [a|r]]; cbn [fst] in *; [apply Hk|]; assumption.
Qed.

Lemma keeps_when c (body : M St R unit) : keeps I body -> keeps I (when c body).
Proof. intro H. destruct c; [exact H | apply keeps_ret]. Qed.

Lemma keeps_check err (r : string -> R) : keeps I (check err r).
Proof. destruct err; [apply keeps_exit | apply keeps_ret]. Qed.

Lemma keeps_now : keeps I (now (R := R) w).
Proof. intros s H. exact H. Qed.

Lemma keeps_new_uuid : keeps I (new_uuid (R := R) w).
Proof. intros s H. exact H. Qed.

Lemma keeps_get_db : keeps I (get_db (R := R)).
Proof. intros s H. exact H. Qed.

Lemma keeps_exec (stmt : DB -> DbError + DB) :
  (forall d d', stmt d = inr d' -> I d -> I d') -> keeps I (exec (R := R) stmt).
Proof.
  intros Hstmt s Hs. unfold exec, bind, get_db, put_db, ret.
  destruct (stmt (st_db s)) as [e|d'] eqn:E; cbn [fst st_db]; [exact Hs|].
  exact (Hstmt _ _ E Hs).
Qed.

Lemma keeps_exec_now (stmt : DB -> Z -> DbError + DB) :
  (forall d t d', stmt d t = inr d' -> I d -> I d') -> keeps I (exec_now (R := R) w stmt).
Proof.
  intros Hstmt. unfold exec_now. apply keeps_bind; [apply keeps_now|].
  intro t. apply keeps_exec. intros d d'. apply Hstmt.
Qed.

Lemma keeps_track_state specID newState detail :
  (forall t d, I d -> I (fst (updateGameSpecState t d specID newState detail))) ->
  keeps I (track_state (R := R) w specID newState detail).
Proof.
  intros H s Hs. unfold track_state, bind, now, get_db, put_db. cbn [fst st_db].
  now apply H.
Qed.

Lemma keeps_updateJobStatus jobID status progress logs :
  (forall d t, I d -> I (update_job_status d jobID status progress logs t)) ->
  keeps I (updateJobStatus (R := R) w jobID status progress logs).
Proof.
  intros H s Hs. unfold updateJobStatus, bind, now. cbn [fst st_db]. now apply H.
Qed.

End KeepsRules.

Lemma run_keeps (I : DB -> Prop) {R} (m : M St R R) d :
  keeps I m -> I d -> I (st_db (fst (run m (start d)))).
Proof.
  intros Hm Hd. specialize (Hm (start d) Hd). unfold run.
  destruct (m (start d)) as [s' [r|r]]; exact Hm.
Qed.

(** *** State tracking *)

Lemma replay_app s a b :
  replay s (a ++ b) = match replay s a with Some s' => replay s' b | None => None end.
Proof.
  revert s. induction a as [|[[before|] after] a IH]; intro s; cbn; [reflexivity| |reflexivity].
  destruct (String.eqb before s); [apply IH | reflexivity].
Qed.

(** The invariant looks at ids and states of the specs and at the state
    records only. *)
Lemma tracked_ok_same d d' :
  map (fun r => (gs_id r, gs_state r)) (game_specs d')
    = map (fun r => (gs_id r, gs_state r)) (game_specs d) ->
  game_spec_states d' = game_spec_states d ->
  tracked_ok d -> tracked_ok d'.
Proof.
  intros Hspecs Hlogs (Hfk & Hchain & Hafter & Hstate).
  assert (Hin : forall r', In r' (game_specs d') ->
            exists r, In r (game_specs d) /\ gs_id r = gs_id r' /\ gs_state r = gs_state r').
  { intros r' Hr'.
    apply (in_map (fun r => (gs_id r, gs_state r))) in Hr'. rewrite Hspecs in Hr'.
    apply in_map_iff in Hr' as (r & E & Hr). injection E as E1 E2. eauto. }
  assert (Hmap : forall id (l : list GameSpec),
            existsb (fun r => String.eqb (gs_id r) id) l
            = existsb (fun p => String.eqb (fst p) id)
                (map (fun r => (gs_id r, gs_state r)) l)).
  { intros id l. induction l as [|r l IH]; cbn; [reflexivity | now rewrite IH]. }
  assert (Hex : forall id, spec_exists d' id = spec_exists d id).
  { intro id. unfold spec_exists. rewrite !Hmap, Hspecs. reflexivity. }
  unfold tracked_ok, logs_of. rewrite Hlogs. repeat split.
  - intros l Hl. rewrite Hex. now apply Hfk.
  - intros r' Hr'. destruct (Hin r' Hr') as (r & Hr & <- & <-). now apply Hchain.
  - exact Hafter.
  - rewrite Forall_forall in *. intros r' Hr'.
    destruct (Hin r' Hr') as (r & Hr & _ & <-). now apply Hstate.
Qed.

Lemma logs_of_fresh d id :
  tracked_ok d -> spec_exists d id = false -> logs_of d id = [].
Proof.
  intros (Hfk & _) Hfresh. unfold logs_of.
  induction (game_spec_states d) as [|l ls IH]; cbn; [reflexivity|].
  destruct (String.eqb (sl_game_spec_id l) id) eqn:E.
  - apply String.eqb_eq in E. subst id.
    rewrite (Hfk l (or_introl eq_refl)) in Hfresh. discriminate.
  - apply IH. intros l' Hl'. apply Hfk. now right.
Qed.

Lemma tracked_ok_insert_game_spec d r :
  spec_exists d (gs_id r) = false -> gs_state r = StateCreating ->
  tracked_ok d -> tracked_ok (with_game_specs d (game_specs d ++ [r])%list).
Proof.
  intros Hfresh Hstate Hok. pose proof (logs_of_fresh d _ Hok Hfresh) as Hnone.
  destruct Hok as (Hfk & Hchain & Hafter & Hstates).
  unfold tracked_ok. tables. repeat split.
  - intros l Hl. unfold spec_exists in *. tables. rewrite existsb_app.
    rewrite (Hfk l Hl). reflexivity.
  - intros r' Hr'.
    change (logs_of (with_game_specs d ?l) ?i) with (logs_of d i).
    apply in_app_or in Hr' as [Hr'|[<-|[]]]; [now apply Hchain|].
    rewrite Hnone, Hstate. reflexivity.
  - exact Hafter.
  - apply Forall_app. split; [exact Hstates|]. constructor; [|constructor].
    rewrite Hstate. now left.
Qed.

Lemma tracked_ok_updateGameSpecState t d specID newState detail :
  In newState written_states ->
  tracked_ok d -> tracked_ok (fst (updateGameSpecState t d specID newState detail)).
Proof.
  intros Hnew Hok.
  destruct (find_spec d specID) as [r0|] eqn:Hfind.
  2:{ unfold updateGameSpecState, select_state. rewrite Hfind. exact Hok. }
  rewrite (updateGameSpecState_found t d specID newState detail r0 Hfind). cbn [fst].
  assert (Hr0 : In r0 (game_specs d) /\ gs_id r0 = specID).
  { unfold find_spec in Hfind. apply find_some in Hfind as [H1 H2].
    split; [exact H1 | now apply String.eqb_eq]. }
  destruct Hr0 as [Hr0 Hid0].
  destruct Hok as (Hfk & Hchain & Hafter & Hstates).
  unfold tracked_ok, logs_of. tables. repeat split.
  - intros l Hl. unfold spec_exists. tables.
    fold (has_key gs_id (sl_game_spec_id l)
            (update_where gs_id specID (set_state newState) (game_specs d))).
    rewrite (has_key_update_where gs_id) by (intro; reflexivity).
    apply in_app_or in Hl as [Hl|[<-|[]]]; [now apply Hfk|].
    cbn [sl_game_spec_id]. apply (find_some_has_key gs_id _ _ _ Hfind).
  - intros r' Hr'. unfold update_where in Hr'. apply in_map_iff in Hr' as (r & <- & Hr).
    rewrite filter_app, map_app, replay_app. cbn [filter sl_game_spec_id].
    destruct (String.eqb (gs_id r) specID) eqn:E.
    + apply String.eqb_eq in E. cbn [set_state gs_id gs_state]. rewrite String.eqb_sym, E.
      rewrite String.eqb_refl.
      pose proof (Hchain r Hr) as Hc. rewrite E in Hc. unfold logs_of in Hc. rewrite Hc.
      cbn [map transition sl_state_before sl_state_after replay].
      assert (Hsame : gs_state r0 = gs_state r).
      { pose proof (Hchain r0 Hr0) as H0. pose proof (Hchain r Hr) as H1.
        rewrite Hid0, <- E in H0. congruence. }
      rewrite Hsame, String.eqb_refl. reflexivity.
    + rewrite String.eqb_sym, E. cbn [map]. fold (logs_of d (gs_id r)).
      rewrite (Hchain r Hr). reflexivity.
  - apply Forall_app. split; [exact Hafter|]. constructor; [exact Hnew | constructor].
  - rewrite Forall_forall in *. intros r' Hr'. unfold update_where in Hr'.
    apply in_map_iff in Hr' as (r & <- & Hr).
    destruct (String.eqb (gs_id r) specID); [exact Hnew | now apply Hstates].
Qed.

Lemma filter_filter_eq {A} (p q : A -> bool) l :
  (forall a, p a = true -> q a = true) -> filter p (filter q l) = filter p l.
Proof.
  intro H. induction l as [|a l IH]; cbn; [reflexivity|].
  destruct (q a) eqn:Eq; cbn; [now rewrite IH|].
  destruct (p a) eqn:Ep; [|exact IH]. rewrite (H a Ep) in Eq. discriminate.
Qed.

Lemma tracked_ok_delete_game_spec d id d' :
  delete_game_spec d id = inr d' -> tracked_ok d -> tracked_ok d'.
Proof.
  unfold delete_game_spec. destruct (_ && _)%bool; [discriminate|].
  intros [= <-] (Hfk & Hchain & Hafter & Hstates).
  unfold tracked_ok, logs_of, spec_exists. cbn [game_specs game_spec_states]. repeat split.
  - intros l Hl. apply filter_In in Hl as [Hl Hne].
    specialize (Hfk l Hl). unfold spec_exists in Hfk.
    apply existsb_exists in Hfk as (r & Hr & E). apply existsb_exists. exists r.
    split; [|exact E]. apply filter_In. split; [exact Hr|].
    apply String.eqb_eq in E. rewrite E. exact Hne.
  - intros r Hr. apply filter_In in Hr as [Hr Hne].
    rewrite filter_filter_eq; [now apply Hchain|].
    intros l E. apply String.eqb_eq in E. rewrite E. exact Hne.
  - rewrite Forall_forall in *. intros l Hl. apply filter_In in Hl as [Hl _]. now apply Hafter.
  - rewrite Forall_forall in *. intros r Hr. apply filter_In in Hr as [Hr _]. now apply Hstates.
Qed.

Lemma tracked_ok_update_devin_session_id d sid id :
  tracked_ok d -> tracked_ok (update_devin_session_id d sid id).
Proof.
  apply tracked_ok_same; [|reflexivity]. tables.
  unfold update_where. rewrite map_map. apply map_ext. intro r.
  destruct (String.eqb (gs_id r) id); reflexivity.
Qed.

(** Statements that leave ids, states and state records alone. *)
Ltac same_tracking :=
  intros;
  match goal with
  | E : _ = inr _ |- _ =>
      unfold insert_spec_job, update_spec_job_running, update_spec_job_duplicate,
        update_spec_job_completed, insert_code_job in E;
      repeat match type of E with
             | context [if ?c then _ else _] => destruct c
             end;
      try discriminate E; injection E as <-
  end;
  first [ assumption
        | apply tracked_ok_update_devin_session_id; assumption
        | eapply tracked_ok_same; [| |eassumption]; reflexivity ].

Ltac keep_tracking :=
  repeat first
    [ apply keeps_ret | apply keeps_exit | apply keeps_check
    | apply keeps_now | apply keeps_new_uuid | apply keeps_get_db
    | apply keeps_track_state; intros;
      apply tracked_ok_updateGameSpecState; [cbn; tauto | assumption]
    | apply keeps_updateJobStatus; intros;
      eapply tracked_ok_same; [| |eassumption]; reflexivity
    | apply keeps_when
    | apply keeps_exec_now; intros d t d' E Hok; unfold insert_game_spec in E;
      destruct (spec_exists d _) eqn:?; [discriminate E|];
      destruct (hash_exists d _); [discriminate E|]; injection E as <-;
      apply tracked_ok_insert_game_spec; [assumption | reflexivity | assumption]
    | apply keeps_exec_now; same_tracking
    | apply keeps_exec; same_tracking
    | apply keeps_bind; [|intro]
    | match goal with
      | |- keeps _ (match ?x with _ => _ end) => destruct x eqn:?
      end ].

Lemma PostSpecJob_keeps_tracking std w body : keeps tracked_ok (PostSpecJob std w body).
Proof.
  unfold PostSpecJob, duplicate_decision_of, persist_spec, post_generate_spec,
    post_vector_search, post_vector_upsert.
  keep_tracking.
Qed.

Lemma PostSpecJob_untracked_keeps_tracking std w body :
  keeps tracked_ok (PostSpecJob_untracked std w body).
Proof.
  unfold PostSpecJob_untracked, duplicate_decision_of, persist_spec_untracked,
    post_generate_spec, post_vector_search, post_vector_upsert.
  keep_tracking.
Qed.

Lemma autoTrigger_keeps_tracking w specID specJSON codeJobID :
  keeps tracked_ok (autoTrigger w specID specJSON codeJobID).
Proof. unfold autoTrigger. cbv zeta. keep_tracking. Qed.

Lemma PostCodeJob_keeps_tracking w body : keeps tracked_ok (PostCodeJob w body).
Proof. unfold PostCodeJob. cbv zeta. keep_tracking. Qed.

Lemma processCodeGeneration_keeps_tracking std w jobID req :
  keeps tracked_ok (processCodeGeneration std w jobID req).
Proof. unfold processCodeGeneration. cbv zeta. keep_tracking. Qed.

Lemma processCodeGeneration_untracked_keeps_tracking std w jobID req :
  keeps tracked_ok (processCodeGeneration_untracked std w jobID req).
Proof. unfold processCodeGeneration_untracked. cbv zeta. keep_tracking. Qed.

Lemma RetryCodeJob_keeps_tracking w specID : keeps tracked_ok (RetryCodeJob w specID).
Proof. unfold RetryCodeJob. cbv zeta. keep_tracking. Qed.

Lemma CreateDevinTask_keeps_tracking std w x specID :
  keeps tracked_ok (handlers.CreateDevinTask std w x specID).
Proof. unfold handlers.CreateDevinTask. cbv zeta. keep_tracking. Qed.

Lemma DeleteSpec_keeps_tracking std w x id : keeps tracked_ok (DeleteSpec std w x id).
Proof.
  unfold DeleteSpec. cbv zeta.
  repeat first
    [ apply keeps_ret | apply keeps_exit | apply keeps_check | apply keeps_get_db
    | apply keeps_when
    | apply keeps_exec; intros d d' E Hok;
      first [ injection E as <-; eapply tracked_ok_same; [| |eassumption]; reflexivity
            | eapply tracked_ok_delete_game_spec; eassumption ]
    | apply keeps_bind; [|intro]
    | match goal with
      | |- keeps _ (match ?x with _ => _ end) => destruct x eqn:?
      end ].
Qed.

(** *** The spec store under the handlers of this part *)

Lemma RetryCodeJob_preserves std w specID : preserves std (RetryCodeJob w specID).
Proof. unfold RetryCodeJob. cbv zeta. preserve. Qed.

Lemma CreateDevinTask_preserves std w x specID :
  preserves std (handlers.CreateDevinTask std w x specID).
Proof. unfold handlers.CreateDevinTask. cbv zeta. preserve. Qed.

Lemma store_ok_delete std d id :
  store_ok std d ->
  store_ok std (mkDB (filter (fun r => negb (String.eqb (gs_id r) id)) (game_specs d))
                  (map (clear_result_spec_id id) (gen_spec_jobs d))
                  (filter (fun j => negb (String.eqb (cj_game_spec_id j) id)) (code_jobs d))
                  (filter (fun l => negb (String.eqb (sl_game_spec_id l) id))
                     (game_spec_states d))).
Proof.
  unfold store_ok, hashes. cbn [game_specs]. rewrite !map_map. cbn [snd].
  intros [Hnodup Hall].
  induction (game_specs d) as [|r l IH]; cbn; [split; constructor|].
  inversion Hnodup as [|? ? Hnotin Hnodup']; subst.
  inversion Hall as [|? ? Hr Hall']; subst.
  destruct (IH Hnodup' Hall') as [IH1 IH2].
  destruct (String.eqb (gs_id r) id); cbn; [split; assumption|].
  split; [|now constructor].
  constructor; [|exact IH1].
  intro Hin. apply Hnotin. apply in_map_iff in Hin as (r' & E & Hr').
  apply filter_In in Hr' as [Hr' _]. apply in_map_iff. eauto.
Qed.

Lemma DeleteSpec_store_ok std w x id d :
  store_ok std d -> store_ok std (st_db (fst (run (DeleteSpec std w x id) (start d)))).
Proof.
  intro Hok. rewrite run_DeleteSpec.
  destruct (negb (spec_exists d id)); [exact Hok|].
  destruct (http_DELETE x _) as [e|e|status]; try exact Hok.
  destruct (negb (status =? 200)); [exact Hok|].
  cbn [fst st_db]. now apply store_ok_delete.
Qed.

Lemma step_keeps_tracking std d d' : step std d d' -> tracked_ok d -> tracked_ok d'.
Proof.
  intros Hstep Hok. destruct Hstep; apply run_keeps; trivial.
  - apply PostSpecJob_keeps_tracking.
  - apply PostSpecJob_untracked_keeps_tracking.
  - apply autoTrigger_keeps_tracking.
  - apply PostCodeJob_keeps_tracking.
  - apply processCodeGeneration_keeps_tracking.
  - apply processCodeGeneration_untracked_keeps_tracking.
Qed.

Lemma step_store_ok std d d' : step std d d' -> store_ok std d -> store_ok std d'.
Proof.
  intros Hstep Hok. destruct Hstep; apply run_preserves; trivial.
  - apply PostSpecJob_preserves.
  - apply PostSpecJob_untracked_preserves.
  - apply autoTrigger_preserves.
  - apply PostCodeJob_preserves.
  - apply processCodeGeneration_preserves.
  - apply processCodeGeneration_untracked_preserves.
Qed.

Lemma reachable_all_ok std d : reachable_all std d -> store_ok std d /\ tracked_ok d.
Proof.
  induction 1 as [|d d' _ [IH1 IH2] Hop].
  - split; [split; constructor|]. repeat split; try constructor; intros ? [].
  - destruct Hop as [d d' Hstep|w x id d|w x specID d|w specID d].
    + split; [eapply step_store_ok | eapply step_keeps_tracking]; eassumption.
    + split; [now apply DeleteSpec_store_ok|].
      apply run_keeps; [apply DeleteSpec_keeps_tracking | exact IH2].
    + split; apply run_keeps || apply run_preserves; trivial.
      * apply CreateDevinTask_preserves.
      * apply CreateDevinTask_keeps_tracking.
    + split; apply run_keeps || apply run_preserves; trivial.
      * apply RetryCodeJob_preserves.
      * apply RetryCodeJob_keeps_tracking.
Qed.

(** ** State tracking over the life of the system *)

Lemma db_after_worker_reachable : reachable_all sample_std db_after_worker.
Proof.
  apply (reachable_all_operation sample_std db_one_job).
  - apply (reachable_all_operation sample_std db_one_spec).
    + apply (reachable_all_operation sample_std empty_db); [apply reachable_all_empty|].
      apply operation_step.
      apply (step_PostSpecJob sample_std (happy_world 1000 ["job-1"; "spec-1"; "cjob-1"] [])
               brief_req empty_db).
    + apply operation_step.
      apply (step_autoTrigger sample_std (happy_world 1010 [] []) "spec-1"
               (g_SpecJSON dodge_rush) "cjob-1" db_one_spec).
  - apply operation_step.
    apply (step_processCodeGeneration sample_std (happy_world 3000 [] []) "cjob-1" job_req
             db_one_job).
Qed.



(** X10. In every database the backend can bring about, the state of every
    spec and the target of every state record is one of [creating],
    [git_initing], [git_inited] and [code_generating]: the state
    [code_generated] is declared but never written. *)
Theorem code_generated_is_never_written :
  forall (std : GoStd) (d : DB),
    reachable_all std d ->
    Forall (fun r => In (gs_state r) written_states) (game_specs d) /\
    Forall (fun l => In (sl_state_after l) written_states) (game_spec_states d) /\
    existsb (fun r => String.eqb (gs_state r) StateCodeGenerated) (game_specs d) = false /\
    existsb (fun l => String.eqb (sl_state_after l) StateCodeGenerated) (game_spec_states d)
      = false.
Proof.
  intros std d Hreach.
  destruct (reachable_all_ok std d Hreach) as [_ (_ & _ & Hafter & Hstates)].
  assert (Hno : forall s, In s written_states -> String.eqb s StateCodeGenerated = false).
  { intros s [<-|[<-|[<-|[<-|[]]]]]; reflexivity. }
  repeat split; trivial.
  - rewrite Forall_forall in Hstates.
    induction (game_specs d) as [|r l IH]; cbn; [reflexivity|].
    rewrite (Hno _ (Hstates r (or_introl eq_refl))). apply IH.
    intros r' Hr'. apply Hstates. now right.
  - rewrite Forall_forall in Hafter.
    induction (game_spec_states d) as [|r l IH]; cbn; [reflexivity|].
    rewrite (Hno _ (Hafter r (or_introl eq_refl))). apply IH.
    intros r' Hr'. apply Hafter. now right.
Qed.

(** Dodge Rush after the worker has run to its end: the job is completed
    and the state is [code_generating]. *)
Lemma code_generated_is_never_written_witness :
  job_outcome (mkSt db_after_worker 0 0 []) "cjob-1"
    = Some ("completed", 100,
            ["Git repository setup completed and Devin task created";
             "Devin session: https://app.devin.ai/sessions/abc123";
             "Monitoring Devin progress for completion..."]) /\
  spec_state db_after_worker "spec-1" = Some "code_generating" /\
  Forall (fun r => In (gs_state r) written_states) (game_specs db_after_worker) /\
  Forall (fun l => In (sl_state_after l) written_states) (game_spec_states db_after_worker) /\
  existsb (fun r => String.eqb (gs_state r) StateCodeGenerated) (game_specs db_after_worker)
    = false /\
  existsb (fun l => String.eqb (sl_state_after l) StateCodeGenerated)
    (game_spec_states db_after_worker) = false.
Proof.
  split; [vm_compute; reflexivity|]. split; [vm_compute; reflexivity|].
  exact (code_generated_is_never_written sample_std db_after_worker db_after_worker_reachable).
Defined.

(** ** The spec store under deletion *)

(** X11. C5's invariant holds with the handlers of this part too: in every
    database the backend can bring about, deletions, retries and agent
    tasks included, two rows with the same spec_json are one row. *)
Theorem one_row_per_document_under_all_operations :
  forall (std : GoStd) (d : DB), reachable_all std d -> one_row_per_document d.
Proof.
  intros std d Hreach. destruct (reachable_all_ok std d Hreach) as [Hok _].
  intros i j r1 r2. exact (store_ok_one_row_per_document std d i j r1 r2 Hok).
Qed.

Lemma one_row_per_document_under_all_operations_witness :
  one_row_per_document db_after_worker.
Proof.
  exact (one_row_per_document_under_all_operations sample_std db_after_worker
           db_after_worker_reachable).
Defined.

Lemma DeleteSpec_db std w x d id :
  spec_exists d id = true ->
  http_DELETE x (llmBackend w ++ "/vector/spec/" ++ id) = DeleteResp 200 ->
  st_db (fst (run (DeleteSpec std w x id) (start d)))
  = mkDB (filter (fun r => negb (String.eqb (gs_id r) id)) (game_specs d))
      (map (clear_result_spec_id id) (gen_spec_jobs d))
      (filter (fun j => negb (String.eqb (cj_game_spec_id j) id)) (code_jobs d))
      (filter (fun l => negb (String.eqb (sl_game_spec_id l) id)) (game_spec_states d)).
Proof. intros Hexists Hvec. rewrite run_DeleteSpec, Hexists, Hvec. reflexivity. Qed.

Lemma NoDup_map_same {A B} (f : A -> B) l a b :
  NoDup (map f l) -> In a l -> In b l -> f a = f b -> a = b.
Proof.
  induction l as [|x l IH]; cbn; [intros _ []|].
  intros Hnodup Ha Hb E. inversion Hnodup as [|? ? Hnotin Hnodup']; subst.
  destruct Ha as [<-|Ha], Hb as [<-|Hb]; trivial.
  - exfalso. apply Hnotin. rewrite E. now apply in_map.
  - exfalso. apply Hnotin. rewrite <- E. now apply in_map.
  - now apply IH.
Qed.

(** X12. Deleting a spec frees its document: when the spec of a well-formed
    store was deleted and a later spec job generates the same spec_json,
    and is not decided a duplicate, the document is stored again, under the
    same hash, where before the deletion the insert would have been
    refused. *)
Theorem deleted_document_can_be_stored_again :
  forall (std : GoStd) (w w' : World) (x : SpecWorld) (d : DB) (id : string) (r : GameSpec)
         (req : CreateJobReq) (g : genSpecResp) (similar : list Similar),
    let d' := st_db (fst (run (DeleteSpec std w x id) (start d))) in
    reachable_all std d ->
    find_spec d id = Some r ->
    http_DELETE x (llmBackend w ++ "/vector/spec/" ++ id) = DeleteResp 200 ->
    req_Brief req <> "" ->
    spec_job_exists d' (uuid_New w' 0) = false ->
    llm_generate_spec w' (llmBackend w') (mkGenSpecReq (req_Brief req) (req_Constraints req))
      = HttpResp 200 (Ok g) ->
    to_json (g_SpecJSON g) = gs_spec_json r ->
    vector_search w' (llmBackend w')
      (mkSearchReq (normText std g) (topK std w') (threshold std w'))
      = HttpResp 200 (Ok similar) ->
    is_duplicate std w' similar = false ->
    spec_exists d' (uuid_New w' 1) = false ->
    hash_exists d (gs_spec_hash r) = true /\
    hash_exists d' (gs_spec_hash r) = false /\
    game_specs (st_db (fst (run (PostSpecJob std w' (Ok req)) (start d'))))
    = (game_specs d' ++
       [new_game_spec (uuid_New w' 1) (req_Brief req) g (gs_spec_hash r) (time_Now w' 2)])%list.
Proof.
  intros std w w' x d id r req g similar d' Hreach Hfind Hvec Hbrief Hfresh Hllm Hsame
    Hsearch Hdup Hid.
  destruct (reachable_all_ok std d Hreach) as [Hok _].
  assert (Hr : In r (game_specs d) /\ gs_id r = id).
  { unfold find_spec in Hfind. apply find_some in Hfind as [H1 H2].
    split; [exact H1 | now apply String.eqb_eq]. }
  destruct Hr as [Hr Hrid].
  assert (Hhash : hashSpec std (g_SpecJSON g) = Ok (gs_spec_hash r)).
  { destruct (store_ok_hashed std d r Hok Hr) as (m & Hm & Hh). cbn [fst snd] in *.
    assert (m = g_SpecJSON g) by (apply to_json_inj; congruence). now subst m. }
  assert (Hexists : spec_exists d id = true).
  { unfold spec_exists. fold (has_key gs_id id (game_specs d)).
    exact (find_some_has_key gs_id _ _ _ Hfind). }
  assert (Hd' : game_specs d' = filter (fun r => negb (String.eqb (gs_id r) id)) (game_specs d)).
  { unfold d'. rewrite (DeleteSpec_db std w x d id Hexists Hvec). reflexivity. }
  assert (Hold : hash_exists d (gs_spec_hash r) = true).
  { unfold hash_exists. apply existsb_exists. exists r. split; [exact Hr|apply String.eqb_refl]. }
  assert (Hfree : hash_exists d' (gs_spec_hash r) = false).
  { unfold hash_exists. rewrite Hd'.
    destruct (existsb _ _) eqn:E; [|reflexivity].
    apply existsb_exists in E as (r' & Hr' & E). apply filter_In in Hr' as [Hr' Hne].
    apply String.eqb_eq in E.
    destruct Hok as [Hnodup _]. unfold hashes in Hnodup. rewrite map_map in Hnodup.
    cbn [snd] in Hnodup.
    rewrite (NoDup_map_same gs_spec_hash _ r' r Hnodup Hr' Hr E), Hrid, String.eqb_refl in Hne.
    discriminate. }
  split; [exact Hold|]. split; [exact Hfree|].
  rewrite (PostSpecJob_persisting std w' d' req g similar Hbrief Hfresh Hllm Hsearch Hdup).
  exact (persist_spec_inserts std w' (uuid_New w' 0) req g (gs_spec_hash r)
           (after_search w' d' req) Hhash Hid Hfree).
Qed.

(** Dodge Rush is stored, deleted, and generated again. *)
Lemma deleted_document_can_be_stored_again_witness :
  let w := happy_world 6000 [] [] in
  let w' := happy_world 7000 ["job-2"; "spec-2"; "cjob-2"] [] in
  let d' := st_db (fst (run (DeleteSpec sample_std w sample_cleanup "spec-1")
                          (start db_after_worker))) in
  let r := nth 0 (game_specs db_after_worker)
             (mkGameSpec "" "" "" "" JNull "" None None "" None 0) in
  hash_exists db_after_worker (gs_spec_hash r) = true /\
  hash_exists d' (gs_spec_hash r) = false /\
  game_specs (st_db (fst (run (PostSpecJob sample_std w' brief_req) (start d'))))
  = (game_specs d' ++
     [new_game_spec "spec-2" "arcade 60s mobile puzzle game" dodge_rush (gs_spec_hash r)
        7002])%list.
Proof.
  apply (deleted_document_can_be_stored_again sample_std (happy_world 6000 [] [])
           (happy_world 7000 ["job-2"; "spec-2"; "cjob-2"] []) sample_cleanup db_after_worker
           "spec-1"
           (nth 0 (game_specs db_after_worker)
              (mkGameSpec "" "" "" "" JNull "" None None "" None 0))
           (mkCreateJobReq "arcade 60s mobile puzzle game" None) dodge_rush []).
  - exact db_after_worker_reachable.
  - vm_compute. reflexivity.
  - reflexivity.
  - discriminate.
  - vm_compute. reflexivity.
  - reflexivity.
  - vm_compute. reflexivity.
  - reflexivity.
  - reflexivity.
  - vm_compute. reflexivity.
Defined.

(** ** GetJob after a deletion *)

Lemma find_map_same_key {A} (key : A -> string) (f : A -> A) k l :
  (forall a, key (f a) = key a) ->
  find (fun a => String.eqb (key a) k) (map f l)
  = option_map f (find (fun a => String.eqb (key a) k) l).
Proof.
  intro Hf. induction l as [|a l IH]; cbn; [reflexivity|].
  rewrite Hf. destruct (String.eqb (key a) k); [reflexivity | exact IH].
Qed.

Lemma clear_result_spec_id_id id j : sj_id (clear_result_spec_id id j) = sj_id j.
Proof.
  unfold clear_result_spec_id. destruct (sj_result_spec_id j) as [k|]; [|reflexivity].
  destruct (String.eqb k id); reflexivity.
Qed.

Lemma select_title_after_delete d id k :
  select_title
    (mkDB (filter (fun r => negb (String.eqb (gs_id r) id)) (game_specs d))
       (map (clear_result_spec_id id) (gen_spec_jobs d))
       (filter (fun j => negb (String.eqb (cj_game_spec_id j) id)) (code_jobs d))
       (filter (fun l => negb (String.eqb (sl_game_spec_id l) id)) (game_spec_states d))) k
  = if String.eqb k id then "" else select_title d k.
Proof.
  unfold select_title, find_spec. cbn [game_specs].
  induction (game_specs d) as [|r l IH]; cbn.
  - destruct (String.eqb k id); reflexivity.
  - destruct (String.eqb (gs_id r) id) eqn:E1; cbn.
    + rewrite IH. destruct (String.eqb (gs_id r) k) eqn:E2; [|reflexivity].
      apply String.eqb_eq in E1, E2. subst. now rewrite String.eqb_refl.
    + destruct (String.eqb (gs_id r) k) eqn:E2; [|exact IH].
      apply String.eqb_eq in E2. subst k. now rewrite E1.
Qed.

(** X13. What GetJob reports of a job once a spec was deleted: a job that was
    completed with the deleted spec no longer names a result, and a job
    that was a duplicate of the deleted spec still lists its id, now
    without a title; everything else is reported as before. *)
Theorem GetJob_after_DeleteSpec :
  forall (std : GoStd) (w : World) (x : SpecWorld) (d : DB) (id jobID : string) (j : SpecJob),
    spec_exists d id = true ->
    http_DELETE x (llmBackend w ++ "/vector/spec/" ++ id) = DeleteResp 200 ->
    find_spec_job d jobID = Some j ->
    GetJob jobID (st_db (fst (run (DeleteSpec std w x id) (start d))))
    = Sent 200
        (mkJobStatusResp (sj_status j)
           (match sj_result_spec_id j with
            | Some k => if String.eqb k id then None else Some k
            | None => None
            end)
           (map (fun k => mkSimilarSpec k (if String.eqb k id then "" else select_title d k)
                            0%float)
              (match sj_duplicate_of j with Some l => l | None => [] end))
           (sj_error j)).
Proof.
  intros std w x d id jobID j Hexists Hvec Hj.
  rewrite (DeleteSpec_db std w x d id Hexists Hvec).
  unfold GetJob. unfold find_spec_job at 1. cbn [gen_spec_jobs].
  rewrite (find_map_same_key sj_id _ _ _ (clear_result_spec_id_id id)).
  unfold find_spec_job in Hj. rewrite Hj. cbn [option_map].
  assert (Hfields :
    sj_status (clear_result_spec_id id j) = sj_status j /\
    sj_duplicate_of (clear_result_spec_id id j) = sj_duplicate_of j /\
    sj_error (clear_result_spec_id id j) = sj_error j /\
    sj_result_spec_id (clear_result_spec_id id j)
    = match sj_result_spec_id j with
      | Some k => if String.eqb k id then None else Some k
      | None => None
      end).
  { unfold clear_result_spec_id. destruct (sj_result_spec_id j) as [k|] eqn:E.
    - destruct (String.eqb k id); cbn; rewrite ?E; repeat split.
    - rewrite E. repeat split. }
  destruct Hfields as (-> & -> & -> & ->).
  f_equal. f_equal.
  destruct (sj_duplicate_of j) as [[|k l]|]; try reflexivity.
  replace (0 <? Z.of_nat (List.length (k :: l))) with true
    by (symmetry; apply Z.ltb_lt; cbn [List.length]; lia).
  apply map_ext. intro k'. now rewrite select_title_after_delete.
Qed.

(** A completed job of Dodge Rush, after Dodge Rush was deleted. *)
Lemma GetJob_after_DeleteSpec_witness :
  GetJob "job-1"
    (st_db (fst (run (DeleteSpec sample_std (happy_world 6000 [] []) sample_cleanup "spec-1")
                   (start db_after_worker))))
  = Sent 200 (mkJobStatusResp "COMPLETED" None [] None).
Proof.
  exact (GetJob_after_DeleteSpec sample_std (happy_world 6000 [] []) sample_cleanup
           db_after_worker "spec-1" "job-1"
           (mkSpecJob "job-1" "COMPLETED" "arcade 60s mobile puzzle game" (Some "spec-1") None
              None None 1000 (Some 1001) (Some 1004))
           eq_refl eq_refl eq_refl).
Defined.

(** ** Code jobs: a retry *)

Lemma to_json_as_map v m : as_map v = Ok m -> to_json m = v.
Proof. destruct v; cbn; intros [= <-]; reflexivity. Qed.

Lemma find_code_job_app_fresh d id j :
  code_job_exists d id = false -> cj_id j = id ->
  find_code_job (with_code_jobs d (code_jobs d ++ [j])%list) id = Some j.
Proof.
  intros Hfresh Hid. unfold find_code_job. tables.
  apply (find_app_fresh cj_id); assumption.
Qed.

(** The newest job of a spec, when it was created after all others. *)
Lemma select_latest_code_job_newest d specID j :
  cj_game_spec_id j = specID ->
  (forall k, In k (code_jobs d) -> cj_game_spec_id k = specID ->
             cj_created_at k < cj_created_at j) ->
  select_latest_code_job (with_code_jobs d (code_jobs d ++ [j])%list) specID = inr j.
Proof.
  intros Hspec Hnewer. unfold select_latest_code_job. tables.
  set (mine := filter (fun r => String.eqb (cj_game_spec_id r) specID) (code_jobs d ++ [j])).
  assert (Hj : In j mine).
  { apply filter_In. split; [apply in_or_app; right; now left|].
    rewrite Hspec. apply String.eqb_refl. }
  pose proof (order_by_created_at_desc_sorted mine) as Hsorted.
  apply (In_order_by_created_at_desc j mine) in Hj.
  destruct (order_by_created_at_desc mine) as [|top rest] eqn:E; [destruct Hj|].
  f_equal.
  assert (Htop : In top mine).
  { apply (In_order_by_created_at_desc top mine). rewrite E. now left. }
  apply filter_In in Htop as [Htop Hmine]. apply String.eqb_eq in Hmine.
  apply in_app_or in Htop as [Hold|[<-|[]]]; [|reflexivity].
  exfalso. specialize (Hnewer top Hold Hmine).
  destruct Hj as [->|Hj]; [lia|].
  unfold newest_first in Hsorted. inversion Hsorted as [|? ? _ Hall]; subst.
  rewrite Forall_forall in Hall. specialize (Hall j Hj). lia.
Qed.

(** X14. RetryCodeJob for a spec that exists: one job is queued for its stored
    spec_json with output path [/tmp], the worker is started on it, and the
    state of the spec, its state records and all other tables are left
    alone.  GetCodeJob then reports the job as queued with progress 0, no
    logs and no output path, and so does GetCodeJobBySpecID, with the
    output path, provided the job is later than the other jobs of the
    spec. *)
Theorem RetryCodeJob_queues_the_stored_document :
  forall (w : World) (d : DB) (specID : string) (r : GameSpec) (gameSpec : GoMap),
    specID <> "" ->
    find_spec d specID = Some r ->
    as_map (gs_spec_json r) = Ok gameSpec ->
    code_job_exists d (uuid_New w 0) = false ->
    uuid_New w 0 <> "" ->
    (forall k, In k (code_jobs d) -> cj_game_spec_id k = specID ->
               cj_created_at k < time_Now w 0) ->
    let (s', reply) := run (RetryCodeJob w specID) (start d) in
    let job := mkCodeJob (uuid_New w 0) specID (gs_spec_json r) (Some "/tmp") "queued" 0
                 None None [] (time_Now w 0) (time_Now w 0) in
    reply = (Sent 200 (mkRetryBody (uuid_New w 0) "queued" "Code generation retry started"),
             [GoProcessCodeGeneration (uuid_New w 0)
                (mkCreateCodeJobReq specID gameSpec "/tmp")]) /\
    st_db s' = with_code_jobs d (code_jobs d ++ [job])%list /\
    GetCodeJob (uuid_New w 0) (st_db s')
      = JSONResponse 200
          (BCodeJob (mkCodeJobStatusResp (uuid_New w 0) "queued" 0 None None None []
                       (time_Now w 0) (time_Now w 0))) /\
    GetCodeJobBySpecID specID (st_db s')
      = JSONResponse 200
          (BCodeJob (mkCodeJobStatusResp (uuid_New w 0) "queued" 0 (Some "/tmp") None None []
                       (time_Now w 0) (time_Now w 0))).
Proof.
  intros w d specID r gameSpec Hid Hfind Hmap Hfresh Huuid Hnewer.
  unfold RetryCodeJob. run_code.
  rewrite (is_empty_false _ Hid). run_code.
  rewrite Hfind, Hmap. run_code.
  unfold insert_code_job. cbn [cr_GameSpecID cr_GameSpec cr_OutputPath].
  rewrite Hfresh.
  assert (Hexists : spec_exists d specID = true).
  { unfold spec_exists. fold (has_key gs_id specID (game_specs d)).
    exact (find_some_has_key gs_id _ _ _ Hfind). }
  rewrite Hexists. run_code. rewrite (to_json_as_map _ _ Hmap).
  split; [reflexivity|]. split; [reflexivity|]. split.
  - unfold GetCodeJob. rewrite (is_empty_false _ Huuid).
    erewrite find_code_job_app_fresh; [reflexivity | exact Hfresh | reflexivity].
  - unfold GetCodeJobBySpecID. rewrite (is_empty_false _ Hid).
    rewrite select_latest_code_job_newest; [reflexivity | reflexivity | exact Hnewer].
Qed.

(** Dodge Rush, whose first job has run, is retried. *)
Lemma RetryCodeJob_queues_the_stored_document_witness :
  let w := happy_world 8000 ["cjob-3"] [] in
  let (s', reply) := run (RetryCodeJob w "spec-1") (start db_after_worker) in
  let job := mkCodeJob "cjob-3" "spec-1" (to_json (g_SpecJSON dodge_rush)) (Some "/tmp") "queued"
               0 None None [] 8000 8000 in
  reply = (Sent 200 (mkRetryBody "cjob-3" "queued" "Code generation retry started"),
           [GoProcessCodeGeneration "cjob-3"
              (mkCreateCodeJobReq "spec-1" (g_SpecJSON dodge_rush) "/tmp")]) /\
  st_db s' = with_code_jobs db_after_worker (code_jobs db_after_worker ++ [job])%list /\
  GetCodeJob "cjob-3" (st_db s')
    = JSONResponse 200
        (BCodeJob (mkCodeJobStatusResp "cjob-3" "queued" 0 None None None [] 8000 8000)) /\
  GetCodeJobBySpecID "spec-1" (st_db s')
    = JSONResponse 200
        (BCodeJob (mkCodeJobStatusResp "cjob-3" "queued" 0 (Some "/tmp") None None [] 8000 8000)).
Proof.
  apply (RetryCodeJob_queues_the_stored_document (happy_world 8000 ["cjob-3"] [])
           db_after_worker "spec-1"
           (nth 0 (game_specs db_after_worker)
              (mkGameSpec "" "" "" "" JNull "" None None "" None 0))
           (g_SpecJSON dodge_rush)).
  - discriminate.
  - vm_compute. reflexivity.
  - vm_compute. reflexivity.
  - vm_compute. reflexivity.
  - discriminate.
  - vm_compute. intros k [<-|[]] _. reflexivity.
Defined.

(** ** The agent task requested for a spec *)

(** X15. CreateDevinTask for a spec that exists, with git configured and an
    agent that accepts the task: the session id is stored with the spec and
    answered together with its URL and the folder of the spec in the
    repository; the state of the spec and its state records stay as they
    are, and GetSpec shows the session from now on. *)
Theorem CreateDevinTask_records_the_session :
  forall (std : GoStd) (w : World) (x : SpecWorld) (d : DB) (specID : string) (r : GameSpec)
         (sessionID : string) (specJSON : GoMap),
    specID <> "" ->
    find_spec d specID = Some r ->
    IsConfigured (NewGitRepo w) = true ->
    CreateDevinTask std w (NewGitRepo w) specID (gs_title r) = Ok sessionID ->
    sessionID <> "" ->
    as_map (gs_spec_json r) = Ok specJSON ->
    let (s', answer) := run (handlers.CreateDevinTask std w x specID) (start d) in
    answer = Sent 200
               (mkDevinTaskBody "Devin task created successfully" specID (gs_title r) sessionID
                  ("https://app.devin.ai/sessions/" ++ sessionID)
                  (TrimSuffix (os_Getenv w "GIT_REPO_URL") ".git" ++ "/tree/main/" ++ specID)
                  "success") /\
    st_db s' = update_devin_session_id d sessionID specID /\
    GetSpec x specID (st_db s')
      = Sent 200
          (mkSpecView (gs_id r) (gs_title r) (gs_brief r) (gs_spec_markdown r) specJSON
             (gs_state r) (map state_log_view (select_state_logs d specID))
             (Some sessionID) (Some ("https://app.devin.ai/sessions/" ++ sessionID))).
Proof.
  intros std w x d specID r sessionID specJSON Hid Hfind Hconf Htask Hsid Hjson.
  unfold handlers.CreateDevinTask. run_code.
  rewrite (is_empty_false _ Hid). run_code.
  rewrite Hfind. run_code. rewrite Hconf. run_code. rewrite Htask. run_code.
  split; [reflexivity|]. split; [reflexivity|].
  unfold GetSpec.
  assert (Hfound : find_spec (update_devin_session_id d sessionID specID) specID
                   = Some (set_devin_session_id sessionID r)).
  { apply (find_update_where gs_id); [intro; reflexivity | exact Hfind]. }
  rewrite Hfound. cbn [set_devin_session_id gs_spec_json gs_devin_session_id].
  rewrite Hjson, (is_empty_false _ Hsid). reflexivity.
Qed.

(** Dodge Rush, right after its creation. *)
Lemma CreateDevinTask_records_the_session_witness :
  let w := happy_world 9000 [] [] in
  let (s', answer) :=
    run (handlers.CreateDevinTask sample_std w sample_cleanup "spec-1") (start db_one_spec) in
  answer = Sent 200
             (mkDevinTaskBody "Devin task created successfully" "spec-1" "Dodge Rush" "abc123"
                "https://app.devin.ai/sessions/abc123"
                "https://github.com/acme/games/tree/main/spec-1" "success") /\
  st_db s' = update_devin_session_id db_one_spec "abc123" "spec-1" /\
  GetSpec sample_cleanup "spec-1" (st_db s')
    = Sent 200
        (mkSpecView "spec-1" "Dodge Rush" "arcade 60s mobile puzzle game" "# Dodge Rush"
           (g_SpecJSON dodge_rush) "creating"
           [mkStateLogView (Some "creating") "creating" (Some "Game spec created") 1003]
           (Some "abc123") (Some "https://app.devin.ai/sessions/abc123")).
Proof.
  exact (CreateDevinTask_records_the_session sample_std (happy_world 9000 [] []) sample_cleanup
           db_one_spec "spec-1"
           (nth 0 (game_specs db_one_spec) (mkGameSpec "" "" "" "" JNull "" None None "" None 0))
           "abc123" (g_SpecJSON dodge_rush)
           ltac:(discriminate) eq_refl eq_refl eq_refl ltac:(discriminate) eq_refl).
Defined.

(** X16. CreateDevinTask answers 200 or leaves the database as it is: every
    other answer is a JSON error with status 400, 404 or 500, and 404 is
    used only if the driver reports a missing row as sql.ErrNoRows. *)
Theorem CreateDevinTask_errors_change_nothing :
  forall (std : GoStd) (w : World) (x : SpecWorld) (d : DB) (specID : string),
    let (s', answer) := run (handlers.CreateDevinTask std w x specID) (start d) in
    match answer with
    | Sent code _ => code = 200
    | ErrorJSON code _ =>
        st_db s' = d /\ (code = 400 \/ code = 404 \/ code = 500) /\
        (no_rows_is_sql_ErrNoRows x = false -> code = 400 \/ code = 500)
    | Refused _ _ => False
    end.
Proof.
  intros std w x d specID. unfold handlers.CreateDevinTask. run_code.
  destruct (is_empty specID); run_code; [repeat split; auto|].
  destruct (find_spec d specID) as [r|]; run_code.
  - destruct (IsConfigured (NewGitRepo w)); run_code; [|repeat split; auto].
    destruct (CreateDevinTask std w _ _ _); run_code; repeat split; auto.
  - destruct (no_rows_is_sql_ErrNoRows x); repeat split; auto. discriminate.
Qed.

(** ** The goroutine that queues the code job *)

(** X17. The goroutine started by a completed spec job, run while the spec
    still exists: the state of the spec becomes [git_initing], one job is
    queued for it with the repository path as output path, and the worker
    is started on that job.  Run after the spec was deleted, it queues
    nothing and starts nothing. *)
Theorem autoTrigger_queues_the_code_job :
  forall (w : World) (d : DB) (specID : string) (specJSON : GoMap) (codeJobID : string),
    code_job_exists d codeJobID = false ->
    let (s', tasks) := run (autoTrigger w specID specJSON codeJobID) (start d) in
    let req := mkCreateCodeJobReq specID specJSON (os_Getenv w "GIT_REPO_PATH") in
    (forall r, find_spec d specID = Some r ->
       tasks = [GoProcessCodeGeneration codeJobID req] /\
       spec_state (st_db s') specID = Some "git_initing" /\
       code_jobs (st_db s')
         = (code_jobs d ++
            [mkCodeJob codeJobID specID (to_json specJSON) (Some (os_Getenv w "GIT_REPO_PATH"))
               "queued" 0 None None [] (time_Now w 1) (time_Now w 1)])%list) /\
    (find_spec d specID = None -> tasks = [] /\ st_db s' = d).
Proof.
  intros w d specID specJSON codeJobID Hfresh. unfold autoTrigger. run_code.
  destruct (find_spec d specID) as [r|] eqn:Hfind.
  - rewrite (updateGameSpecState_found _ _ _ _ _ r Hfind). cbn [fst].
    unfold insert_code_job. rewrite code_job_exists_tracked, Hfresh.
    assert (Hexists : spec_exists (with_game_spec_states (update_state d StateGitIniting specID)
                        (game_spec_states d ++
                         [mkStateLog specID (Some (gs_state r)) StateGitIniting
                            (Some "Starting git repository initialization") (time_Now w 0)]))
                        specID = true).
    { change (spec_exists (update_state d StateGitIniting specID) specID = true).
      rewrite spec_exists_update_state. unfold spec_exists.
      fold (has_key gs_id specID (game_specs d)). exact (find_some_has_key gs_id _ _ _ Hfind). }
    cbn [cr_OutputPath NewGitRepo RepoPath]. rewrite Hexists. run_code.
    split; [|discriminate]. intros r' [= <-].
    split; [reflexivity|]. split; [|reflexivity].
    rewrite (spec_state_found _ specID (set_state StateGitIniting r)); [reflexivity|].
    change (find_spec (update_state d StateGitIniting specID) specID
            = Some (set_state StateGitIniting r)).
    now apply find_spec_update_state.
  - unfold updateGameSpecState, select_state. rewrite Hfind. cbn [fst].
    unfold insert_code_job. rewrite Hfresh.
    assert (Hmissing : spec_exists d specID = false).
    { unfold spec_exists. destruct (existsb _ _) eqn:E; [|reflexivity].
      apply existsb_exists in E as (r & Hr & E). unfold find_spec in Hfind.
      rewrite (find_none _ _ Hfind r Hr) in E. discriminate. }
    rewrite Hmissing. run_code. split; [discriminate|]. split; reflexivity.
Qed.

(** Dodge Rush, right after its creation. *)
Lemma autoTrigger_queues_the_code_job_witness :
  let w := happy_world 1010 [] [] in
  let (s', tasks) :=
    run (autoTrigger w "spec-1" (g_SpecJSON dodge_rush) "cjob-1") (start db_one_spec) in
  let req := mkCreateCodeJobReq "spec-1" (g_SpecJSON dodge_rush) "/srv/games" in
  (forall r, find_spec db_one_spec "spec-1" = Some r ->
     tasks = [GoProcessCodeGeneration "cjob-1" req] /\
     spec_state (st_db s') "spec-1" = Some "git_initing" /\
     code_jobs (st_db s')
       = (code_jobs db_one_spec ++
          [mkCodeJob "cjob-1" "spec-1" (to_json (g_SpecJSON dodge_rush)) (Some "/srv/games")
             "queued" 0 None None [] 1011 1011])%list) /\
  (find_spec db_one_spec "spec-1" = None -> tasks = [] /\ st_db s' = db_one_spec).
Proof.
  exact (autoTrigger_queues_the_code_job (happy_world 1010 [] []) db_one_spec "spec-1"
           (g_SpecJSON dodge_rush) "cjob-1" eq_refl).
Defined.

(** ** The worker: a run that succeeds *)

(** X18. When a worker run succeeds in every step (the spec is read back, the
    git driver is configured, the folder is created, commit and push
    succeed and the agent accepts the task), the job ends as completed with
    progress 100, the progress values written are 20, 40, 60, 80, 85, 90,
    100, the session id is stored with the spec, two state records are
    added, and the state of the spec is [code_generating]: also a run that
    succeeds does not move the spec to [code_generated]. *)
Theorem worker_success_leaves_code_generating :
  forall (std : GoStd) (w : World) (d : DB) (jobID : string) (req : CreateCodeJobReq)
         (row : GameSpec) (specJSON : GoMap) (gamePath sessionID : string),
    code_job_exists d jobID = true ->
    find_spec d (cr_GameSpecID req) = Some row ->
    as_map (gs_spec_json row) = Ok specJSON ->
    IsConfigured (NewGitRepo w) = true ->
    CreateGameFolder std w (NewGitRepo w) (cr_GameSpecID req) (gs_title row)
      (combined_spec row specJSON) = Ok gamePath ->
    CommitAndPush std w (NewGitRepo w) gamePath (gs_title row) (cr_GameSpecID req) = None ->
    CreateDevinTask std w (NewGitRepo w) (cr_GameSpecID req) (gs_title row) = Ok sessionID ->
    let s' := fst (run (processCodeGeneration std w jobID req) (start d)) in
    job_outcome s' jobID
      = Some ("completed", 100,
              ["Git repository setup completed and Devin task created";
               "Devin session: https://app.devin.ai/sessions/" ++ sessionID;
               "Monitoring Devin progress for completion..."]) /\
    progress_written s' = [20; 40; 60; 80; 85; 90; 100] /\
    find_spec (st_db s') (cr_GameSpecID req)
      = Some (set_devin_session_id sessionID (set_state "code_generating" row)) /\
    game_spec_states (st_db s')
      = (game_spec_states d ++
         [mkStateLog (cr_GameSpecID req) (Some (gs_state row)) "git_inited"
            (Some "Git repository initialized and README.md pushed") (time_Now w 4);
          mkStateLog (cr_GameSpecID req) (Some "git_inited") "code_generating"
            (Some "Starting Devin code generation") (time_Now w 6)])%list.
Proof.
  intros std w d jobID req row specJSON gamePath sessionID Hjob Hrow Hjson Hconf Hfolder Hpush
    Hdevin.
  run_worker.
  rewrite find_spec_update_job_status, Hrow, Hjson. run_code.
  rewrite Hconf. run_code.
  rewrite Hfolder. run_code.
  rewrite Hpush. run_code.
  track StateGitInited row. run_code.
  track StateCodeGenerating (set_state StateGitInited row). run_code.
  rewrite Hdevin. run_code.
  split; [|split; [|split]].
  - eapply job_outcome_update_job_status; [reflexivity|].
    rewrite code_job_exists_update_job_status.
    change (code_job_exists (update_devin_session_id ?d0 _ _) ?k) with (code_job_exists d0 k).
    job_exists.
  - reflexivity.
  - cbn [st_db]. rewrite !find_spec_update_job_status.
    change (set_devin_session_id sessionID (set_state "code_generating" row))
      with (set_devin_session_id sessionID
              (set_state StateCodeGenerating (set_state StateGitInited row))).
    apply (find_update_where gs_id); [intro; reflexivity|].
    match goal with
    | |- find _ (game_specs ?db) = ?r => change (find_spec db (cr_GameSpecID req) = r)
    end.
    lookup_spec.
  - cbn [st_db]. tables. rewrite <- app_assoc. reflexivity.
Qed.

(** The queued job of Dodge Rush in the world where all goes well. *)
Lemma worker_success_leaves_code_generating_witness :
  let w := happy_world 3000 [] [] in
  let s' := fst (run (processCodeGeneration sample_std w "cjob-1" job_req) (start db_one_job)) in
  let row := nth 0 (game_specs db_one_job)
               (mkGameSpec "" "" "" "" JNull "" None None "" None 0) in
  job_outcome s' "cjob-1"
    = Some ("completed", 100,
            ["Git repository setup completed and Devin task created";
             "Devin session: https://app.devin.ai/sessions/" ++ "abc123";
             "Monitoring Devin progress for completion..."]) /\
  progress_written s' = [20; 40; 60; 80; 85; 90; 100] /\
  find_spec (st_db s') "spec-1"
    = Some (set_devin_session_id "abc123" (set_state "code_generating" row)) /\
  game_spec_states (st_db s')
    = (game_spec_states db_one_job ++
       [mkStateLog "spec-1" (Some (gs_state row)) "git_inited"
          (Some "Git repository initialized and README.md pushed") 3004;
        mkStateLog "spec-1" (Some "git_inited") "code_generating"
          (Some "Starting Devin code generation") 3006])%list.
Proof.
  exact (worker_success_leaves_code_generating sample_std (happy_world 3000 [] []) db_one_job
           "cjob-1" job_req
           (nth 0 (game_specs db_one_job) (mkGameSpec "" "" "" "" JNull "" None None "" None 0))
           (g_SpecJSON dodge_rush) "/srv/games/spec-1" "abc123"
           eq_refl eq_refl eq_refl eq_refl eq_refl eq_refl eq_refl).
Defined.

(** ** The worker: what it leaves alone *)

Section RowsUpdated.
Context {A : Type} (key : A -> string).

Lemma map_update_where {B} (g : A -> B) k f l :
  (forall r, g (f r) = g r) -> map g (update_where key k f l) = map g l.
Proof.
  intro Hf. unfold update_where. rewrite map_map. apply map_ext. intro r.
  destruct (String.eqb (key r) k); [apply Hf | reflexivity].
Qed.

Lemma find_update_where_other k k' f l :
  k' <> k -> (forall r, key (f r) = key r) ->
  find (fun r => String.eqb (key r) k') (update_where key k f l)
  = find (fun r => String.eqb (key r) k') l.
Proof.
  intros Hne Hf. unfold update_where.
  induction l as [|r l IH]; cbn; [reflexivity|].
  destruct (String.eqb (key r) k) eqn:E.
  - rewrite Hf. apply String.eqb_eq in E.
    destruct (String.eqb (key r) k') eqn:E'; [|exact IH].
    apply String.eqb_eq in E'. congruence.
  - destruct (String.eqb (key r) k'); [reflexivity | exact IH].
Qed.

End RowsUpdated.

Lemma untouched_refl jobID specID d : untouched jobID specID d d.
Proof. repeat split. Qed.

Lemma untouched_trans jobID specID d0 d1 d2 :
  untouched jobID specID d0 d1 -> untouched jobID specID d1 d2 -> untouched jobID specID d0 d2.
Proof.
  intros (A1 & A2 & A3 & A4 & A5 & A6) (B1 & B2 & B3 & B4 & B5 & B6).
  unfold untouched. repeat split; try congruence.
  - intros k Hk. rewrite (B3 k Hk). now apply A3.
  - intros id Hid. rewrite (B5 id Hid). now apply A5.
Qed.

Lemma untouched_update_job_status jobID specID d st p l t :
  untouched jobID specID d (update_job_status d jobID st p l t).
Proof.
  unfold untouched, find_code_job. tables. repeat split.
  - apply (map_update_where cj_id). reflexivity.
  - intros k Hk. apply (find_update_where_other cj_id); [exact Hk | reflexivity].
Qed.

Lemma untouched_update_output_path jobID specID d p :
  untouched jobID specID d (update_output_path d p jobID).
Proof.
  unfold untouched, find_code_job. tables. repeat split.
  - apply (map_update_where cj_id). reflexivity.
  - intros k Hk. apply (find_update_where_other cj_id); [exact Hk | reflexivity].
Qed.

Lemma untouched_update_devin_session_id jobID specID d sid :
  untouched jobID specID d (update_devin_session_id d sid specID).
Proof.
  unfold untouched, find_spec. tables. repeat split.
  - apply (map_update_where gs_id). reflexivity.
  - intros k Hk. apply (find_update_where_other gs_id); [exact Hk | reflexivity].
Qed.

Lemma untouched_updateGameSpecState jobID specID d t newState detail :
  untouched jobID specID d (fst (updateGameSpecState t d specID newState detail)).
Proof.
  destruct (find_spec d specID) as [r|] eqn:Hfind.
  2:{ unfold updateGameSpecState, select_state. rewrite Hfind. apply untouched_refl. }
  rewrite (updateGameSpecState_found t d specID newState detail r Hfind). cbn [fst].
  unfold untouched, find_spec. tables. repeat split.
  - apply (map_update_where gs_id). reflexivity.
  - intros k Hk. apply (find_update_where_other gs_id); [exact Hk | reflexivity].
  - rewrite filter_app. cbn [filter sl_game_spec_id]. rewrite String.eqb_refl. cbn [negb].
    apply app_nil_r.
Qed.

Ltac leave_alone :=
  repeat first
    [ apply keeps_ret | apply keeps_exit | apply keeps_check
    | apply keeps_now | apply keeps_new_uuid | apply keeps_get_db
    | apply keeps_track_state; intros; eapply untouched_trans;
      [eassumption | apply untouched_updateGameSpecState]
    | apply keeps_updateJobStatus; intros; eapply untouched_trans;
      [eassumption | apply untouched_update_job_status]
    | apply keeps_when
    | apply keeps_exec; intros ? ? E ?; injection E as <-; eapply untouched_trans;
      [eassumption
      | first [apply untouched_update_devin_session_id | apply untouched_update_output_path]]
    | apply keeps_bind; [|intro]
    | match goal with
      | |- keeps _ (match ?x with _ => _ end) => destruct x eqn:?
      end ].

(** X19. A run of the worker, of either revision, on the job [jobID] of a
    spec changes nothing but that job and that spec: the spec jobs, the
    other code jobs, the other specs and their state records are as before;
    no job appears or disappears and the job keeps its spec, its document
    and its creation time; of the spec only the state and the session can
    change, never the title, the brief, the document or the hash. *)
Theorem worker_touches_only_its_job_and_spec :
  forall (std : GoStd) (w : World) (d : DB) (jobID : string) (req : CreateCodeJobReq),
    untouched jobID (cr_GameSpecID req) d
      (st_db (fst (run (processCodeGeneration std w jobID req) (start d)))) /\
    untouched jobID (cr_GameSpecID req) d
      (st_db (fst (run (processCodeGeneration_untracked std w jobID req) (start d)))).
Proof.
  intros std w d jobID req. split.
  - apply (run_keeps (untouched jobID (cr_GameSpecID req) d)); [|apply untouched_refl].
    unfold processCodeGeneration. cbv zeta. leave_alone.
  - apply (run_keeps (untouched jobID (cr_GameSpecID req) d)); [|apply untouched_refl].
    unfold processCodeGeneration_untracked. cbv zeta. leave_alone.
Qed.

(** ** Removing the folder of a deleted spec *)

(** X20. With the repository as NewGitRepo builds it, RemoveGameFolders
    depends on git only through [git add], [git diff] and [git commit]:
    whether a pull or a push would succeed makes no difference, so a
    removal is committed locally and never pushed, and a pull that fails
    does not stop it. *)
Theorem RemoveGameFolders_ignores_pull_and_push :
  forall (std : GoStd) (w w' : World) (x : SpecWorld) (gameID gameTitle : string),
    (forall k, os_Getenv w' k = os_Getenv w k) ->
    (forall p, os_Stat_IsNotExist w' p = os_Stat_IsNotExist w p) ->
    (forall dir args, In (subcommand args) ["add"; "diff"; "commit"] ->
                      exec_git w' dir args = exec_git w dir args) ->
    RemoveGameFolders std w' x (NewGitRepo w') gameID gameTitle
    = RemoveGameFolders std w x (NewGitRepo w) gameID gameTitle.
Proof.
  intros std w w' x gameID gameTitle Henv Hstat Hgit.
  assert (Hrepo : NewGitRepo w' = NewGitRepo w).
  { unfold NewGitRepo. now rewrite !Henv. }
  unfold RemoveGameFolders, removal_message, git. rewrite Hrepo, Hstat, Henv.
  cbv zeta.
  rewrite !Hgit by (cbn; tauto).
  cbn [NewGitRepo AutoPush]. reflexivity.
Qed.

(** The world in which every push fails and the world in which none
    does. *)
Lemma RemoveGameFolders_ignores_pull_and_push_witness :
  RemoveGameFolders sample_std (push_fails_world 6000 []) sample_cleanup
    (NewGitRepo (push_fails_world 6000 [])) "spec-1" "Dodge Rush"
  = RemoveGameFolders sample_std (happy_world 6000 [] []) sample_cleanup
      (NewGitRepo (happy_world 6000 [] [])) "spec-1" "Dodge Rush".
Proof.
  apply (RemoveGameFolders_ignores_pull_and_push sample_std (happy_world 6000 [] [])
           (push_fails_world 6000 []) sample_cleanup "spec-1" "Dodge Rush").
  - reflexivity.
  - reflexivity.
  - intros dir [|cmd args]; cbn [subcommand In].
    + intros [H|[H|[H|[]]]]; discriminate H.
    + intros [<-|[<-|[<-|[]]]]; reflexivity.
Defined.

(** ** Code jobs: the state of the spec *)

(** X21. PostCodeJob for a spec that exists sets the state of the spec back to
    [creating], whatever it was, and records that transition; the spec is
    otherwise unchanged. *)
Theorem PostCodeJob_resets_the_state :
  forall (w : World) (d : DB) (req : CreateCodeJobReq) (r : GameSpec),
    cr_GameSpecID req <> "" ->
    find_spec d (cr_GameSpecID req) = Some r ->
    code_job_exists d (uuid_New w 0) = false ->
    let s' := fst (run (PostCodeJob w (Ok req)) (start d)) in
    find_spec (st_db s') (cr_GameSpecID req) = Some (set_state "creating" r) /\
    game_spec_states (st_db s')
      = (game_spec_states d ++
         [mkStateLog (cr_GameSpecID req) (Some (gs_state r)) "creating"
            (Some "Code generation job created") (time_Now w 1)])%list.
Proof.
  intros w d req r Hid Hfind Hfresh.
  unfold PostCodeJob. run_code.
  rewrite (is_empty_false _ Hid). cbn [andb]. run_code.
  assert (Hreq :
    forall X : Type, forall f : CreateCodeJobReq -> X,
      (f (if is_empty (cr_OutputPath req)
          then mkCreateCodeJobReq (cr_GameSpecID req) (cr_GameSpec req) "/tmp" else req))
      = if is_empty (cr_OutputPath req)
        then f (mkCreateCodeJobReq (cr_GameSpecID req) (cr_GameSpec req) "/tmp") else f req).
  { intros X f. destruct (is_empty (cr_OutputPath req)); reflexivity. }
  unfold insert_code_job.
  rewrite !(Hreq _ cr_GameSpecID), !(Hreq _ cr_GameSpec), !(Hreq _ cr_OutputPath).
  cbn [cr_GameSpecID cr_GameSpec cr_OutputPath].
  replace (if is_empty (cr_OutputPath req) then cr_GameSpecID req else cr_GameSpecID req)
    with (cr_GameSpecID req) by (destruct (is_empty (cr_OutputPath req)); reflexivity).
  replace (if is_empty (cr_OutputPath req) then cr_GameSpec req else cr_GameSpec req)
    with (cr_GameSpec req) by (destruct (is_empty (cr_OutputPath req)); reflexivity).
  assert (Hexists : spec_exists d (cr_GameSpecID req) = true).
  { unfold spec_exists. fold (has_key gs_id (cr_GameSpecID req) (game_specs d)).
    exact (find_some_has_key gs_id _ _ _ Hfind). }
  rewrite Hfresh, Hexists. run_code.
  match goal with
  | |- context [updateGameSpecState ?t ?d0 ?i ?st ?det] =>
      rewrite (updateGameSpecState_found t d0 i st det r) by exact Hfind
  end.
  split; [|reflexivity].
  change (find_spec (update_state d "creating" (cr_GameSpecID req)) (cr_GameSpecID req)
          = Some (set_state "creating" r)).
  now apply find_spec_update_state.
Qed.

(** Dodge Rush, whose worker has run, is submitted again: the state goes
    from [code_generating] back to [creating]. *)
Lemma PostCodeJob_resets_the_state_witness :
  let w := happy_world 5000 ["cjob-2"] [] in
  let s' := fst (run (PostCodeJob w (Ok (mkCreateCodeJobReq "spec-1" None "")))
                   (start db_after_worker)) in
  let row := nth 0 (game_specs db_after_worker)
               (mkGameSpec "" "" "" "" JNull "" None None "" None 0) in
  gs_state row = "code_generating" /\
  find_spec (st_db s') "spec-1" = Some (set_state "creating" row) /\
  game_spec_states (st_db s')
    = (game_spec_states db_after_worker ++
       [mkStateLog "spec-1" (Some (gs_state row)) "creating"
          (Some "Code generation job created") 5001])%list.
Proof.
  split; [vm_compute; reflexivity|].
  assert (H1 : find_spec db_after_worker "spec-1"
               = Some (nth 0 (game_specs db_after_worker)
                         (mkGameSpec "" "" "" "" JNull "" None None "" None 0)))
    by (vm_compute; reflexivity).
  assert (H2 : code_job_exists db_after_worker "cjob-2" = false) by (vm_compute; reflexivity).
  exact (PostCodeJob_resets_the_state (happy_world 5000 ["cjob-2"] []) db_after_worker
           (mkCreateCodeJobReq "spec-1" None "") _ ltac:(discriminate) H1 H2).
Defined.

(** ** safeSubstring *)

Lemma length_substring_0 n s :
  (n <= String.length s)%nat -> String.length (String.substring 0 n s) = n.
Proof.
  revert n. induction s as [|c s IH]; intros [|n] H; cbn in *; try reflexivity; try lia.
  f_equal. apply IH. lia.
Qed.

Lemma prefix_substring_0 n s : String.prefix (String.substring 0 n s) s = true.
Proof.
  revert n. induction s as [|c s IH]; intros [|n]; cbn; try reflexivity.
  rewrite IH. destruct (ascii_dec c c); [reflexivity | congruence].
Qed.

Lemma prefix_refl s : String.prefix s s = true.
Proof.
  induction s as [|c s IH]; cbn; [reflexivity|].
  destruct (ascii_dec c c); [exact IH | congruence].
Qed.

(** X22. For a length that is not negative, safeSubstring returns the longest
    prefix of the string that has at most that many bytes. *)
Theorem safeSubstring_is_the_prefix :
  forall (s : string) (length : Z),
    0 <= length ->
    exists r,
      safeSubstring s length = Some r /\
      String.prefix r s = true /\
      Z.of_nat (String.length r) = Z.min (Z.of_nat (String.length s)) length.
Proof.
  intros s n Hn. unfold safeSubstring.
  destruct (Z.leb_spec (Z.of_nat (String.length s)) n) as [Hle|Hlt].
  - exists s. split; [reflexivity|]. split; [apply prefix_refl | lia].
  - destruct (Z.ltb_spec n 0) as [Hneg|_]; [lia|].
    exists (String.substring 0 (Z.to_nat n) s). split; [reflexivity|].
    split; [apply prefix_substring_0|].
    rewrite length_substring_0 by lia. lia.
Qed.

Lemma safeSubstring_is_the_prefix_witness :
  exists r,
    safeSubstring "Dodge Rush" 5 = Some r /\
    String.prefix r "Dodge Rush" = true /\
    Z.of_nat (String.length r) = Z.min (Z.of_nat (String.length "Dodge Rush")) 5.
Proof. apply (safeSubstring_is_the_prefix "Dodge Rush" 5). lia. Defined.

(** ** The hash as text *)

Lemma hexdigit_inj a b :
  (a < 16)%nat -> (b < 16)%nat -> hexdigit a = hexdigit b -> a = b.
Proof.
  intros Ha Hb E.
  assert (Hall : forallb (fun a => forallb (fun b =>
                   implb (Ascii.eqb (hexdigit a) (hexdigit b)) (Nat.eqb a b)) (seq 0 16))
                   (seq 0 16) = true) by (vm_compute; reflexivity).
  rewrite forallb_forall in Hall.
  assert (Hin : forall n, (n < 16)%nat -> In n (seq 0 16)) by (intros; apply in_seq; lia).
  specialize (Hall a (Hin a Ha)). rewrite forallb_forall in Hall.
  specialize (Hall b (Hin b Hb)).
  rewrite E, Ascii.eqb_refl in Hall. now apply Nat.eqb_eq.
Qed.

Lemma byte_of_nibbles c1 c2 :
  hexdigit (nat_of_ascii c1 / 16) = hexdigit (nat_of_ascii c2 / 16) ->
  hexdigit (nat_of_ascii c1 mod 16) = hexdigit (nat_of_ascii c2 mod 16) ->
  c1 = c2.
Proof.
  intros Hhi Hlo.
  pose proof (nat_ascii_bounded c1) as B1. pose proof (nat_ascii_bounded c2) as B2.
  apply hexdigit_inj in Hhi;
    [| apply Nat.Div0.div_lt_upper_bound; lia | apply Nat.Div0.div_lt_upper_bound; lia].
  apply hexdigit_inj in Hlo; [| apply Nat.mod_upper_bound; lia | apply Nat.mod_upper_bound; lia].
  rewrite <- (ascii_nat_embedding c1), <- (ascii_nat_embedding c2). f_equal.
  rewrite (Nat.div_mod_eq (nat_of_ascii c1) 16), (Nat.div_mod_eq (nat_of_ascii c2) 16).
  congruence.
Qed.

Lemma hex_EncodeToString_inj b1 b2 :
  hex_EncodeToString b1 = hex_EncodeToString b2 -> b1 = b2.
Proof.
  revert b2. induction b1 as [|c1 b1 IH]; intros [|c2 b2]; cbn; try discriminate;
    [reflexivity|].
  intros [= Hhi Hlo Hrest]. f_equal; [now apply byte_of_nibbles | now apply IH].
Qed.

Lemma hex_EncodeToString_length b :
  String.length (hex_EncodeToString b) = (2 * String.length b)%nat.
Proof. induction b as [|c b IH]; cbn; [reflexivity | rewrite IH; lia]. Qed.

(** X23. The spec_hash is the digest written out: it has two characters for
    every byte of the digest, and two documents get the same spec_hash
    exactly when their serializations have the same digest. *)
Theorem spec_hash_is_the_digest_in_hex :
  forall (std : GoStd) (m1 m2 : GoMap) (b1 b2 h1 h2 : string),
    json_Marshal std (to_json m1) = Ok b1 ->
    json_Marshal std (to_json m2) = Ok b2 ->
    hashSpec std m1 = Ok h1 ->
    hashSpec std m2 = Ok h2 ->
    String.length h1 = (2 * String.length (sha256_Sum256 std b1))%nat /\
    (h1 = h2 <-> sha256_Sum256 std b1 = sha256_Sum256 std b2).
Proof.
  intros std m1 m2 b1 b2 h1 h2 H1 H2. unfold hashSpec. rewrite H1, H2.
  intros [= <-] [= <-]. split; [apply hex_EncodeToString_length|].
  split; [apply hex_EncodeToString_inj | congruence].
Qed.

Lemma spec_hash_is_the_digest_in_hex_witness :
  let b := render (to_json (g_SpecJSON dodge_rush)) in
  String.length (hex_EncodeToString b) = (2 * String.length (sha256_Sum256 sample_std b))%nat /\
  (hex_EncodeToString b = hex_EncodeToString b
   <-> sha256_Sum256 sample_std b = sha256_Sum256 sample_std b).
Proof.
  exact (spec_hash_is_the_digest_in_hex sample_std (g_SpecJSON dodge_rush) (g_SpecJSON dodge_rush)
           _ _ _ _ eq_refl eq_refl eq_refl eq_refl).
Defined.

(** ** The worker: runs that end early *)

Lemma update_job_status_missing d jobID st p l t :
  code_job_exists d jobID = false -> update_job_status d jobID st p l t = d.
Proof.
  intro H. unfold update_job_status. rewrite (update_where_fresh cj_id _ _ _ H).
  destruct d; reflexivity.
Qed.

(** X24. A worker that starts on a job after the spec of the job was deleted
    writes nothing: the job went with the spec, so the two updates of the
    worker find no row, and the spec cannot be read back. *)
Theorem worker_after_DeleteSpec_writes_nothing :
  forall (std : GoStd) (w w' : World) (x : SpecWorld) (d : DB) (jobID : string)
         (req : CreateCodeJobReq),
    let d' := st_db (fst (run (DeleteSpec std w x (cr_GameSpecID req)) (start d))) in
    spec_exists d (cr_GameSpecID req) = true ->
    http_DELETE x (llmBackend w ++ "/vector/spec/" ++ cr_GameSpecID req) = DeleteResp 200 ->
    (forall k, In k (code_jobs d) -> cj_id k = jobID -> cj_game_spec_id k = cr_GameSpecID req) ->
    let s' := fst (run (processCodeGeneration std w' jobID req) (start d')) in
    st_db s' = d' /\
    statuses_written s' = ["processing"; "failed"] /\
    job_outcome s' jobID = None.
Proof.
  intros std w w' x d jobID req d' Hexists Hvec Hjob s'.
  assert (Hd' : d' = mkDB (filter (fun r => negb (String.eqb (gs_id r) (cr_GameSpecID req)))
                             (game_specs d))
                       (map (clear_result_spec_id (cr_GameSpecID req)) (gen_spec_jobs d))
                       (filter (fun j => negb (String.eqb (cj_game_spec_id j) (cr_GameSpecID req)))
                          (code_jobs d))
                       (filter (fun l => negb (String.eqb (sl_game_spec_id l) (cr_GameSpecID req)))
                          (game_spec_states d))).
  { exact (DeleteSpec_db std w x d (cr_GameSpecID req) Hexists Hvec). }
  assert (Hnojob : code_job_exists d' jobID = false).
  { rewrite Hd'. unfold code_job_exists. cbn [code_jobs].
    destruct (existsb _ _) eqn:E; [|reflexivity].
    apply existsb_exists in E as (k & Hk & E). apply filter_In in Hk as [Hk Hne].
    apply String.eqb_eq in E. rewrite (Hjob k Hk E), String.eqb_refl in Hne. discriminate. }
  assert (Hnospec : find_spec d' (cr_GameSpecID req) = None).
  { rewrite Hd'. unfold find_spec. cbn [game_specs].
    destruct (find _ _) as [r|] eqn:E; [|reflexivity].
    apply find_some in E as [Hr E]. apply filter_In in Hr as [_ Hne].
    rewrite E in Hne. discriminate. }
  subst s'. clearbody d'. run_worker.
  rewrite find_spec_update_job_status, Hnospec. run_code.
  rewrite !(update_job_status_missing _ _ _ _ _ _ Hnojob).
  split; [reflexivity|]. split; [reflexivity|].
  unfold job_outcome. cbn [st_db].
  unfold code_job_exists in Hnojob. unfold find_code_job.
  destruct (find _ _) as [j|] eqn:E; [|reflexivity].
  apply find_some in E as [Hj E].
  assert (existsb (fun r => String.eqb (cj_id r) jobID) (code_jobs d') = true) as Habs.
  { apply existsb_exists. eauto. }
  congruence.
Qed.

(** Dodge Rush is deleted while its job is still queued. *)
Lemma worker_after_DeleteSpec_writes_nothing_witness :
  let d' := st_db (fst (run (DeleteSpec sample_std (happy_world 6000 [] []) sample_cleanup
                               (cr_GameSpecID job_req)) (start db_one_job))) in
  let s' := fst (run (processCodeGeneration sample_std (happy_world 7000 [] []) "cjob-1" job_req)
                   (start d')) in
  st_db s' = d' /\
  statuses_written s' = ["processing"; "failed"] /\
  job_outcome s' "cjob-1" = None.
Proof.
  apply (worker_after_DeleteSpec_writes_nothing sample_std (happy_world 6000 [] [])
           (happy_world 7000 [] []) sample_cleanup db_one_job "cjob-1" job_req).
  - vm_compute. reflexivity.
  - reflexivity.
  - vm_compute. intros k [<-|[]] _. reflexivity.
Defined.

(** X25. In a deployment whose git driver is not configured (GIT_REPO_PATH,
    GIT_REPO_URL or GIT_TOKEN is empty) every job of an existing spec ends
    as failed with progress 0 after the checkpoints 20 and 40, and the
    state of the spec and its state records are left as they were. *)
Theorem worker_without_git_fails_the_job :
  forall (std : GoStd) (w : World) (d : DB) (jobID : string) (req : CreateCodeJobReq)
         (row : GameSpec) (specJSON : GoMap),
    code_job_exists d jobID = true ->
    find_spec d (cr_GameSpecID req) = Some row ->
    as_map (gs_spec_json row) = Ok specJSON ->
    IsConfigured (NewGitRepo w) = false ->
    let s' := fst (run (processCodeGeneration std w jobID req) (start d)) in
    job_outcome s' jobID = Some ("failed", 0, ["Git repository not configured"]) /\
    progress_written s' = [20; 40; 0] /\
    game_specs (st_db s') = game_specs d /\
    game_spec_states (st_db s') = game_spec_states d.
Proof.
  intros std w d jobID req row specJSON Hjob Hrow Hjson Hconf.
  run_worker.
  rewrite find_spec_update_job_status, Hrow, Hjson. run_code.
  rewrite Hconf. run_code.
  split; [|repeat split].
  eapply job_outcome_update_job_status; [reflexivity | job_exists].
Qed.

(** The queued job of Dodge Rush in a deployment without git. *)
Lemma worker_without_git_fails_the_job_witness :
  let s' := fst (run (processCodeGeneration sample_std (unconfigured_world 3000 []) "cjob-1"
                        job_req) (start db_one_job)) in
  job_outcome s' "cjob-1" = Some ("failed", 0, ["Git repository not configured"]) /\
  progress_written s' = [20; 40; 0] /\
  game_specs (st_db s') = game_specs db_one_job /\
  game_spec_states (st_db s') = game_spec_states db_one_job.
Proof.
  assert (H1 : code_job_exists db_one_job "cjob-1" = true) by (vm_compute; reflexivity).
  assert (H2 : find_spec db_one_job (cr_GameSpecID job_req)
               = Some (nth 0 (game_specs db_one_job)
                         (mkGameSpec "" "" "" "" JNull "" None None "" None 0)))
    by (vm_compute; reflexivity).
  exact (worker_without_git_fails_the_job sample_std (unconfigured_world 3000 []) db_one_job
           "cjob-1" job_req _ (g_SpecJSON dodge_rush) H1 H2 eq_refl eq_refl).
Defined.

(** ** Reading a spec that was deleted *)

Lemma filter_filter_negb {A} (p : A -> bool) l :
  filter p (filter (fun a => negb (p a)) l) = [].
Proof.
  induction l as [|a l IH]; cbn; [reflexivity|].
  destruct (p a) eqn:E; cbn; [exact IH | now rewrite E].
Qed.

(** X26. Once DeleteSpec has answered 200 for a spec, the spec reads as
    missing: GetSpecStateLogs answers 404, GetCodeJobBySpecID answers that
    no job was started, GetSpec refuses, with 404 or 500 depending on how
    the driver reports a missing row, and no state record of the spec
    remains. *)
Theorem deleted_spec_reads_as_missing :
  forall (std : GoStd) (w : World) (x : SpecWorld) (d : DB) (id : string),
    id <> "" ->
    spec_exists d id = true ->
    http_DELETE x (llmBackend w ++ "/vector/spec/" ++ id) = DeleteResp 200 ->
    let d' := st_db (fst (run (DeleteSpec std w x id) (start d))) in
    GetSpecStateLogs id d' = Refused 404 "Spec not found" /\
    GetCodeJobBySpecID id d' = JSONResponse 200 BNotStarted /\
    GetSpec x id d' = (if no_rows_is_sql_ErrNoRows x then Refused 404 "Spec not found"
                       else Refused 500 "Database error") /\
    select_state_logs d' id = [].
Proof.
  intros std w x d id Hid Hexists Hvec d'. subst d'.
  rewrite (DeleteSpec_db std w x d id Hexists Hvec).
  set (d' := mkDB _ _ _ _).
  assert (Hgone : spec_exists d' id = false).
  { unfold spec_exists, d'. cbn [game_specs].
    apply (existsb_filter_negb (fun r => String.eqb (gs_id r) id)). }
  assert (Hfind : find_spec d' id = None).
  { unfold find_spec. destruct (find _ _) as [r|] eqn:E; [|reflexivity].
    apply find_some in E as [Hr E].
    assert (spec_exists d' id = true) by (apply existsb_exists; eauto). congruence. }
  assert (Hjobs : filter (fun r => String.eqb (cj_game_spec_id r) id) (code_jobs d') = []).
  { unfold d'. cbn [code_jobs].
    apply (filter_filter_negb (fun r => String.eqb (cj_game_spec_id r) id)). }
  assert (Hlogs : filter (fun l => String.eqb (sl_game_spec_id l) id) (game_spec_states d') = []).
  { unfold d'. cbn [game_spec_states].
    apply (filter_filter_negb (fun l => String.eqb (sl_game_spec_id l) id)). }
  split; [|split; [|split]].
  - unfold GetSpecStateLogs. now rewrite Hgone.
  - unfold GetCodeJobBySpecID, select_latest_code_job.
    rewrite (is_empty_false _ Hid), Hjobs. reflexivity.
  - unfold GetSpec. now rewrite Hfind.
  - unfold select_state_logs. now rewrite Hlogs.
Qed.

(** Dodge Rush after its deletion. *)
Lemma deleted_spec_reads_as_missing_witness :
  let d' := st_db (fst (run (DeleteSpec sample_std (happy_world 6000 [] []) sample_cleanup
                               "spec-1") (start db_after_worker))) in
  GetSpecStateLogs "spec-1" d' = Refused 404 "Spec not found" /\
  GetCodeJobBySpecID "spec-1" d' = JSONResponse 200 BNotStarted /\
  GetSpec sample_cleanup "spec-1" d'
    = (if no_rows_is_sql_ErrNoRows sample_cleanup then Refused 404 "Spec not found"
       else Refused 500 "Database error") /\
  select_state_logs d' "spec-1" = [].
Proof.
  apply (deleted_spec_reads_as_missing sample_std (happy_world 6000 [] []) sample_cleanup
           db_after_worker "spec-1").
  - discriminate.
  - vm_compute. reflexivity.
  - reflexivity.
Defined.

(** ** Writing generated files *)

Section FilesWritten.
Variable std : GoStd.
Variable w : World.
Variable filepath_Dir : string -> string.
Variable os_WriteFile_bytes : string -> string -> error.



End FilesWritten.


(** ** The two revisions of the git driver *)

(** X28. How the git driver changed.  With AutoPush set, CommitAndPush of
    the earlier revision is CommitAndPush as it is now, which always
    pushes; without AutoPush (GIT_AUTO_PUSH other than [true]) the earlier
    revision succeeds as soon as pull, add and commit do.  RemoveGameFolders of the two revisions agree
    whenever the pull succeeds; when it fails, the earlier revision of a
    configured repository returns that failure, where RemoveGameFolders now
    goes on. *)
Theorem git_driver_revisions :
  forall (std : GoStd) (w : World) (x : SpecWorld) (g : GitRepo)
         (gamePath gameTitle gameID : string),
    (AutoPush g = true ->
     earlier.CommitAndPush std w g gamePath gameTitle gameID
     = CommitAndPush std w g gamePath gameTitle gameID) /\
    (AutoPush g = false ->
     (earlier.CommitAndPush std w g gamePath gameTitle gameID = None <->
      pullFromRemote w g = None /\ git w g ["add"; gameID] = None /\
      git w g ["commit"; "-m"; commit_message std w gameTitle gameID] = None)) /\
    (pullFromRemote w g = None ->
     earlier.RemoveGameFolders std w x g gameID gameTitle
     = RemoveGameFolders std w x g gameID gameTitle) /\
    (forall e, IsConfigured g = true -> pullFromRemote w g = Some e ->
     earlier.RemoveGameFolders std w x g gameID gameTitle
     = Some ("failed to pull latest changes: " ++ e)) /\
    (AutoPush (earlier.NewGitRepo w) = true <-> os_Getenv w "GIT_AUTO_PUSH" = "true") /\
    AutoPush (NewGitRepo w) = false.
Proof.
  intros std w x g gamePath gameTitle gameID. split; [|split; [|split; [|split; [|split]]]].
  - intro Hpush. unfold earlier.CommitAndPush, CommitAndPush. rewrite Hpush. reflexivity.
  - intro Hpush. unfold earlier.CommitAndPush. rewrite Hpush.
    destruct (pullFromRemote w g); [split; [discriminate | intros (H & _); discriminate H]|].
    destruct (git w g ["add"; gameID]);
      [split; [discriminate | intros (_ & H & _); discriminate H]|].
    destruct (git w g _); [split; [discriminate | intros (_ & _ & H); discriminate H]|].
    split; [intros _; repeat split | reflexivity].
  - intro Hpull. unfold earlier.RemoveGameFolders, RemoveGameFolders. rewrite Hpull.
    reflexivity.
  - intros e Hconf Hpull. unfold earlier.RemoveGameFolders. rewrite Hconf, Hpull. reflexivity.
  - cbn [earlier.NewGitRepo AutoPush]. apply String.eqb_eq.
  - reflexivity.
Qed.

(** ** The two revisions of PostSpecJob *)




(** ** References to specs *)

Lemma In_update_where {A} (key : A -> string) k f l r' :
  In r' (update_where key k f l) ->
  exists r, In r l /\ (r' = r \/ (r' = f r /\ key r = k)).
Proof.
  unfold update_where. intro H. apply in_map_iff in H as (r & <- & Hr). exists r.
  split; [exact Hr|]. destruct (String.eqb (key r) k) eqn:E; [right | left; reflexivity].
  split; [reflexivity | now apply String.eqb_eq].
Qed.

(** The invariant looks at the ids of the specs and at the references of
    the jobs only. *)
Lemma refs_ok_same d d' :
  (forall id, spec_exists d id = true -> spec_exists d' id = true) ->
  (forall j', In j' (code_jobs d') ->
              exists j, In j (code_jobs d) /\ cj_game_spec_id j = cj_game_spec_id j') ->
  (forall j' id, In j' (gen_spec_jobs d') -> sj_result_spec_id j' = Some id ->
                 exists j, In j (gen_spec_jobs d) /\ sj_result_spec_id j = Some id) ->
  refs_ok d -> refs_ok d'.
Proof.
  intros Hspecs Hjobs Hresults [Hj Hr]. split.
  - intros j' Hin. destruct (Hjobs j' Hin) as (j & Hin0 & <-). apply Hspecs. now apply Hj.
  - intros j' id Hin E. destruct (Hresults j' id Hin E) as (j & Hin0 & E0).
    apply Hspecs. now apply (Hr j).
Qed.

Lemma refs_ok_spec_jobs d id f :
  (forall j, sj_result_spec_id (f j) = sj_result_spec_id j) ->
  refs_ok d -> refs_ok (with_gen_spec_jobs d (update_where sj_id id f (gen_spec_jobs d))).
Proof.
  intro Hf. apply refs_ok_same; tables.
  - trivial.
  - intros j' Hin. now exists j'.
  - intros j' k Hin E. apply In_update_where in Hin as (j & Hin & [->|[-> _]]).
    + now exists j.
    + exists j. split; [exact Hin|]. now rewrite <- Hf.
Qed.

Lemma refs_ok_update_spec_job_completed d t id specID d' :
  update_spec_job_completed d t id specID = inr d' -> refs_ok d -> refs_ok d'.
Proof.
  unfold update_spec_job_completed.
  destruct (spec_job_exists d id) eqn:Ejob; cbn [andb].
  - destruct (spec_exists d specID) eqn:Espec; cbn [negb]; [|discriminate].
    intros [= <-] [Hj Hr]. split; [exact Hj|].
    intros j' k Hin E. tables. unfold spec_exists. tables. fold (spec_exists d k).
    apply In_update_where in Hin as (j & Hin & [->|[-> _]]); [now apply (Hr j)|].
    cbn in E. injection E as <-. exact Espec.
  - intros [= <-] Hok. rewrite (update_where_fresh sj_id _ _ _ Ejob).
    destruct d; exact Hok.
Qed.

Lemma refs_ok_insert_spec_job d t id brief d' :
  insert_spec_job d t id brief = inr d' -> refs_ok d -> refs_ok d'.
Proof.
  unfold insert_spec_job. destruct (spec_job_exists d id); [discriminate|].
  intros [= <-]. apply refs_ok_same; tables.
  - trivial.
  - intros j' Hin. now exists j'.
  - intros j' k Hin E. apply in_app_or in Hin as [Hin|[<-|[]]]; [now exists j'|].
    discriminate E.
Qed.

Lemma refs_ok_insert_code_job d id specID doc out t1 t2 d' :
  insert_code_job d id specID doc out t1 t2 = inr d' -> refs_ok d -> refs_ok d'.
Proof.
  unfold insert_code_job. destruct (code_job_exists d id); [discriminate|].
  destruct (spec_exists d specID) eqn:Espec; cbn [negb]; [|discriminate].
  intros [= <-] [Hj Hr]. split; [|exact Hr].
  intros j Hin. tables. unfold spec_exists. tables. fold (spec_exists d (cj_game_spec_id j)).
  apply in_app_or in Hin as [Hin|[<-|[]]]; [now apply Hj | exact Espec].
Qed.

Lemma refs_ok_code_jobs d id f :
  (forall j, cj_game_spec_id (f j) = cj_game_spec_id j) ->
  refs_ok d -> refs_ok (with_code_jobs d (update_where cj_id id f (code_jobs d))).
Proof.
  intro Hf. apply refs_ok_same; tables.
  - trivial.
  - intros j' Hin. apply In_update_where in Hin as (j & Hin & [->|[-> _]]).
    + now exists j.
    + exists j. split; [exact Hin|]. now rewrite Hf.
  - intros j' k Hin E. now exists j'.
Qed.

Lemma refs_ok_specs d id f :
  (forall r, gs_id (f r) = gs_id r) ->
  refs_ok d -> refs_ok (with_game_specs d (update_where gs_id id f (game_specs d))).
Proof.
  intro Hf. apply refs_ok_same; tables.
  - intros k Hk. unfold spec_exists in *. tables.
    fold (has_key gs_id k (update_where gs_id id f (game_specs d))).
    rewrite (has_key_update_where gs_id) by exact Hf. exact Hk.
  - intros j' Hin. now exists j'.
  - intros j' k Hin E. now exists j'.
Qed.

Lemma refs_ok_insert_game_spec d r d' :
  insert_game_spec d r = inr d' -> refs_ok d -> refs_ok d'.
Proof.
  unfold insert_game_spec. destruct (spec_exists d (gs_id r)); [discriminate|].
  destruct (hash_exists d (gs_spec_hash r)); [discriminate|].
  intros [= <-]. apply refs_ok_same; tables.
  - intros k Hk. unfold spec_exists in *. tables. rewrite existsb_app, Hk. reflexivity.
  - intros j' Hin. now exists j'.
  - intros j' k Hin E. now exists j'.
Qed.

Lemma refs_ok_updateGameSpecState t d specID newState detail :
  refs_ok d -> refs_ok (fst (updateGameSpecState t d specID newState detail)).
Proof.
  intro Hok. unfold updateGameSpecState.
  destruct (select_state d specID) as [e|current]; [exact Hok|].
  assert (H1 : refs_ok (update_state d newState specID)).
  { apply refs_ok_specs; [intro; reflexivity | exact Hok]. }
  unfold insert_state_log. destruct (spec_exists _ specID); cbn [fst]; [|exact H1].
  revert H1. apply refs_ok_same; tables.
  - trivial.
  - intros j' Hin. now exists j'.
  - intros j' k Hin E. now exists j'.
Qed.

Lemma refs_ok_delete_code_jobs_of d id : refs_ok d -> refs_ok (delete_code_jobs_of d id).
Proof.
  apply refs_ok_same; unfold delete_code_jobs_of; tables.
  - trivial.
  - intros j' Hin. apply filter_In in Hin as [Hin _]. now exists j'.
  - intros j' k Hin E. now exists j'.
Qed.

(** Deleting a spec: the code jobs that named it are gone by then, or the
    statement is refused, and the spec jobs forget it. *)
Lemma refs_ok_delete_game_spec d id d' :
  delete_game_spec d id = inr d' -> refs_ok d -> refs_ok d'.
Proof.
  unfold delete_game_spec. intros E [Hj Hr].
  assert (Hkeep : forall k, k <> id -> spec_exists d k = true ->
            existsb (fun r => String.eqb (gs_id r) k)
              (filter (fun r => negb (String.eqb (gs_id r) id)) (game_specs d)) = true).
  { intros k Hne Hk. unfold spec_exists in Hk.
    apply existsb_exists in Hk as (r & Hin & Er). apply existsb_exists. exists r.
    split; [|exact Er]. apply filter_In. split; [exact Hin|].
    apply String.eqb_eq in Er. rewrite Er. apply negb_true_iff.
    now apply String.eqb_neq. }
  assert (Hnone : forall j, In j (code_jobs d) -> cj_game_spec_id j <> id).
  { intros j Hin Eid. subst id. pose proof (Hj j Hin) as Hex. rewrite Hex in E.
    cbn [andb] in E.
    assert (Hany : existsb (fun j0 => String.eqb (cj_game_spec_id j0) (cj_game_spec_id j))
                     (code_jobs d) = true).
    { apply existsb_exists. exists j. split; [exact Hin | apply String.eqb_refl]. }
    rewrite Hany in E. discriminate E. }
  destruct (_ && _)%bool; [discriminate E|]. injection E as <-. split.
  - intros j Hin. unfold spec_exists. cbn [game_specs code_jobs] in *.
    apply Hkeep; [now apply Hnone | now apply Hj].
  - intros j' k Hin Ek. unfold spec_exists. cbn [game_specs gen_spec_jobs] in *.
    apply in_map_iff in Hin as (j & <- & Hin). unfold clear_result_spec_id in Ek.
    destruct (sj_result_spec_id j) as [k0|] eqn:E0; [|rewrite E0 in Ek; discriminate Ek].
    destruct (String.eqb k0 id) eqn:Eid; [discriminate Ek|].
    rewrite E0 in Ek. injection Ek as <-.
    apply Hkeep; [now apply String.eqb_neq | now apply (Hr j)].
Qed.

Ltac keep_refs :=
  repeat first
    [ apply keeps_ret | apply keeps_exit | apply keeps_check
    | apply keeps_now | apply keeps_new_uuid | apply keeps_get_db
    | apply keeps_track_state; intros; apply refs_ok_updateGameSpecState; assumption
    | apply keeps_updateJobStatus; intros;
      apply refs_ok_code_jobs; [intro; reflexivity | assumption]
    | apply keeps_when
    | apply keeps_exec_now; intros d t d' E Hok;
      first [ eapply refs_ok_insert_game_spec; eassumption
            | eapply refs_ok_insert_spec_job; eassumption
            | eapply refs_ok_update_spec_job_completed; eassumption
            | injection E as <-; apply refs_ok_spec_jobs; [intro; reflexivity | assumption] ]
    | apply keeps_exec; intros d d' E Hok;
      first [ eapply refs_ok_insert_code_job; eassumption
            | eapply refs_ok_delete_game_spec; eassumption
            | injection E as <-;
              first [ apply refs_ok_delete_code_jobs_of; assumption
                    | apply refs_ok_code_jobs; [intro; reflexivity | assumption]
                    | apply refs_ok_specs; [intro; reflexivity | assumption] ] ]
    | apply keeps_bind; [|intro]
    | match goal with
      | |- keeps _ (match ?x with _ => _ end) => destruct x eqn:?
      end ].

Lemma PostSpecJob_keeps_refs std w body : keeps refs_ok (PostSpecJob std w body).
Proof.
  unfold PostSpecJob, duplicate_decision_of, persist_spec, post_generate_spec,
    post_vector_search, post_vector_upsert.
  keep_refs.
Qed.

Lemma PostSpecJob_untracked_keeps_refs std w body :
  keeps refs_ok (PostSpecJob_untracked std w body).
Proof.
  unfold PostSpecJob_untracked, duplicate_decision_of, persist_spec_untracked,
    post_generate_spec, post_vector_search, post_vector_upsert.
  keep_refs.
Qed.

Lemma autoTrigger_keeps_refs w specID specJSON codeJobID :
  keeps refs_ok (autoTrigger w specID specJSON codeJobID).
Proof. unfold autoTrigger. cbv zeta. keep_refs. Qed.

Lemma PostCodeJob_keeps_refs w body : keeps refs_ok (PostCodeJob w body).
Proof. unfold PostCodeJob. cbv zeta. keep_refs. Qed.

Lemma processCodeGeneration_keeps_refs std w jobID req :
  keeps refs_ok (processCodeGeneration std w jobID req).
Proof. unfold processCodeGeneration. cbv zeta. keep_refs. Qed.

Lemma processCodeGeneration_untracked_keeps_refs std w jobID req :
  keeps refs_ok (processCodeGeneration_untracked std w jobID req).
Proof. unfold processCodeGeneration_untracked. cbv zeta. keep_refs. Qed.

Lemma DeleteSpec_keeps_refs std w x id : keeps refs_ok (DeleteSpec std w x id).
Proof. unfold DeleteSpec. cbv zeta. keep_refs. Qed.

Lemma CreateDevinTask_keeps_refs std w x specID :
  keeps refs_ok (handlers.CreateDevinTask std w x specID).
Proof. unfold handlers.CreateDevinTask. cbv zeta. keep_refs. Qed.

Lemma RetryCodeJob_keeps_refs w specID : keeps refs_ok (RetryCodeJob w specID).
Proof. unfold RetryCodeJob. cbv zeta. keep_refs. Qed.

Lemma operation_keeps_refs std d d' : operation std d d' -> refs_ok d -> refs_ok d'.
Proof.
  intros Hop Hok.
  destruct Hop as [d d' Hstep|w x id d|w x specID d|w specID d];
    [destruct Hstep|..]; apply (run_keeps refs_ok); trivial.
  - apply PostSpecJob_keeps_refs.
  - apply PostSpecJob_untracked_keeps_refs.
  - apply autoTrigger_keeps_refs.
  - apply PostCodeJob_keeps_refs.
  - apply processCodeGeneration_keeps_refs.
  - apply processCodeGeneration_untracked_keeps_refs.
  - apply DeleteSpec_keeps_refs.
  - apply CreateDevinTask_keeps_refs.
  - apply RetryCodeJob_keeps_refs.
Qed.

(** X30. No answer names a spec that is gone.  In every database the
    backend can bring about, deletions included, the spec a code job was
    queued for is stored, and the spec id GetJob reports as the result of a
    job is the id of a stored spec: DeleteSpec removes the code jobs of the
    spec before the spec, and the spec jobs forget the spec with it. *)
Theorem references_are_never_dangling :
  forall (std : GoStd) (d : DB),
    reachable_all std d ->
    (forall j, In j (code_jobs d) -> spec_exists d (cj_game_spec_id j) = true) /\
    (forall jobID resp specID,
        GetJob jobID d = Sent 200 resp ->
        js_ResultSpecID resp = Some specID ->
        spec_exists d specID = true).
Proof.
  intros std d Hreach.
  assert (Hok : refs_ok d).
  { induction Hreach as [|d d' _ IH Hop].
    - split; [intros ? [] | intros ? ? []].
    - eapply operation_keeps_refs; eassumption. }
  destruct Hok as [Hj Hr]. split; [exact Hj|].
  intros jobID resp specID Hget Hres. unfold GetJob in Hget.
  destruct (find_spec_job d jobID) as [j|] eqn:Hfind; [|discriminate Hget].
  injection Hget as <-. cbn [js_ResultSpecID] in Hres.
  unfold find_spec_job in Hfind. apply find_some in Hfind as [Hin _].
  now apply (Hr j).
Qed.

(** The database after Dodge Rush was created, queued and worked on. *)
Lemma references_are_never_dangling_witness :
  (forall j, In j (code_jobs db_after_worker) ->
             spec_exists db_after_worker (cj_game_spec_id j) = true) /\
  (forall jobID resp specID,
      GetJob jobID db_after_worker = Sent 200 resp ->
      js_ResultSpecID resp = Some specID ->
      spec_exists db_after_worker specID = true).
Proof.
  exact (references_are_never_dangling sample_std db_after_worker db_after_worker_reachable).
Defined.
